(** * Action signing and wire protocol of react-native-hyperliquid

    A shallow embedding of [src/utils/signing.ts] (and its near-duplicate
    [src/utils/mpcSigning.ts]) and of the order-batch paths of
    [src/rest/exchange.ts], together with the JavaScript built-ins those
    functions call.

    JavaScript numbers are IEEE-754 binary64 values; they are modelled by
    [spec_float] with the operations of [SpecFloat] at precision 53 and
    maximal exponent 1024, which compute inside Rocq and need no axiom. *)

From Stdlib Require Import ZArith List String Ascii Bool Lia SpecFloat.
From stdpp Require Import base option gmap strings.
Import ListNotations.

Local Open Scope string_scope.
Local Open Scope Z_scope.

(** ** Thrown values *)

(** The [Error] values the code throws, one constructor per [throw] site or
    per failing built-in. *)
Inductive number_class := IsNaN | IsInfinite | IsFractional.

Inductive error :=
  | FloatToWireRounding (x : spec_float)
      (* Error(`floatToWire causes rounding: ${x}`) *)
  | FloatToIntRounding (x : spec_float)
      (* Error(`floatToInt causes rounding: ${x}`) *)
  | InvalidOrderType          (* Error('Invalid order type') *)
  | UnsupportedWallet         (* Error('Unsupported wallet for signing typed data') *)
  | UnknownAsset (symbol : string)   (* Error(`Unknown asset: ${symbol}`) *)
  | BigIntRangeError (c : number_class)
      (* RangeError: the number cannot be converted to a BigInt *)
  | OffsetRangeError          (* RangeError: offset is out of bounds *)
  | InvalidBytesLike (s : string)    (* ethers: invalid BytesLike value *)
  | External (msg : string).  (* rejection coming from a collaborator *)

Inductive result (A : Type) :=
  | Ok (a : A)
  | Err (e : error).
Arguments Ok {A} a.
Arguments Err {A} e.

Definition rbind {A B} (r : result A) (k : A -> result B) : result B :=
  match r with
  | Ok a => k a
  | Err e => Err e
  end.

Declare Scope result_scope.
Delimit Scope result_scope with result.
Notation "'let*' x ':=' r 'in' k" := (rbind r (fun x => k))
  (at level 10, x name, r at level 100, k at level 200) : result_scope.
Local Open Scope result_scope.

Definition is_ok {A} (r : result A) : bool :=
  match r with Ok _ => true | Err _ => false end.

(** ** JavaScript numbers *)

Module JS.

Definition prec : Z := 53.
Definition emax : Z := 1024.

(** A JavaScript number is a [spec_float] that is [valid_binary] for these
    parameters; the functions below are defined on all of [spec_float]. *)
Definition number := spec_float.

Definition NaN : number := S754_nan.
Definition sub : number -> number -> number := SFsub prec emax.
Definition mul : number -> number -> number := SFmul prec emax.
Definition div : number -> number -> number := SFdiv prec emax.

(** [a >= b] of JavaScript: false as soon as one side is NaN. *)
Definition geb (a b : number) : bool := SFleb b a.

Definition Math_abs : number -> number := SFabs.

(** The Number value for a mathematical integer: round to nearest, ties to
    even. *)
Definition of_Z (n : Z) : number := binary_normalize prec emax n 0 false.

(** The Number value for [(-1)^neg * M * 10^E], correctly rounded.  The
    quotient by a power of ten goes through the division of [SpecFloat],
    whose core takes mantissas of any size. *)
Definition of_decimal (neg : bool) (M : Z) (E : Z) : number :=
  match M with
  | Zpos m =>
      if 0 <=? E then
        match Zpos m * 10 ^ E with
        | Zpos p => binary_round prec emax neg p 0
        | _ => S754_zero neg
        end
      else div (S754_finite neg m 0)
               (S754_finite false (Z.to_pos (10 ^ (- E))) 0)
  | _ => S754_zero neg
  end.

(** Number literals of the source. *)
Definition lit_1e_12 : number := Eval vm_compute in of_decimal false 1 (-12).
Definition lit_1e_3 : number := Eval vm_compute in of_decimal false 1 (-3).

(** *** Exact magnitude of a finite number

    A finite number [(-1)^s * m * 2^e] has the magnitude
    [mag_num m e / mag_den e], the denominator being a power of two. *)
Definition mag_num (m : positive) (e : Z) : Z :=
  if 0 <=? e then Zpos m * 2 ^ e else Zpos m.
Definition mag_den (e : Z) : Z :=
  if 0 <=? e then 1 else 2 ^ (- e).

(** *** Decimal digits *)

Definition digit_char (d : Z) : ascii :=
  ascii_of_nat (48 + Z.to_nat d).

Fixpoint digits_fuel (fuel : nat) (n : Z) (acc : string) : string :=
  match fuel with
  | O => acc
  | S f =>
      let acc' := String (digit_char (n mod 10)) acc in
      if n / 10 =? 0 then acc' else digits_fuel f (n / 10) acc'
  end.

(** The decimal representation of a non-negative integer, ["0"] for zero. *)
Definition decimal_digits (n : Z) : string :=
  digits_fuel (S (Z.to_nat (Z.log2 n))) n "".

Fixpoint zeros (k : nat) : string :=
  match k with
  | O => ""
  | S k' => String "0" (zeros k')
  end.

Fixpoint str_take (k : nat) (s : string) : string :=
  match k, s with
  | S k', String c r => String c (str_take k' r)
  | _, _ => ""
  end.

Fixpoint str_drop (k : nat) (s : string) : string :=
  match k, s with
  | S k', String _ r => str_drop k' r
  | _, _ => s
  end.

(** *** Number::toString

    For a finite [x = num / den > 0]: the integers [n], [k], [s] with
    [10^(k-1) <= s < 10^k] and [s * 10^(n-k)] rounding to [x], [k] as small
    as possible, [s * 10^(n-k)] as close to [x] as possible; then decimal
    notation when [-6 < n <= 21] and exponential notation otherwise. *)

Definition ndigits10 (X : Z) : Z := Z.of_nat (String.length (decimal_digits X)).

(** [10^p <= num / den] *)
Definition ge_pow10 (num den p : Z) : bool :=
  if 0 <=? p then den * 10 ^ p <=? num else den <=? num * 10 ^ (- p).

(** The [n] with [10^(n-1) <= num / den < 10^n]. *)
Definition decimal_exponent (num den : Z) : Z :=
  let g := if den <=? num then ndigits10 (num / den)
           else 1 - ndigits10 (den / num) in
  if ge_pow10 num den g then g + 1
  else if ge_pow10 num den (g - 1) then g
  else g - 1.

(** [floor (num / den * 10^p)] *)
Definition scaled_floor (num den p : Z) : Z :=
  if 0 <=? p then num * 10 ^ p / den else num / (den * 10 ^ (- p)).

(** [num / den - c * 10^p], times the positive [den * 10^max(0,-p)]. *)
Definition scaled_diff (num den c p : Z) : Z :=
  if 0 <=? p then num - c * 10 ^ p * den else num * 10 ^ (- p) - c * den.

(** The candidates with [k] digits: the two integers around
    [num / den * 10^(k-n)]. *)
Definition shortest_candidate (x : number) (num den n k : Z) : option Z :=
  let lo := scaled_floor num den (k - n) in
  let hi := lo + 1 in
  let ok c := SFeqb (of_decimal false c (n - k)) x in
  match ok lo, ok hi with
  | true, true =>
      let dlo := scaled_diff num den lo (n - k) in
      let dhi := - scaled_diff num den hi (n - k) in
      Some (if dlo <? dhi then lo
            else if dhi <? dlo then hi
            else if Z.even lo then lo else hi)
  | true, false => Some lo
  | false, true => Some hi
  | false, false => None
  end.

Fixpoint shortest_search (fuel : nat) (x : number) (num den n k : Z) : Z * Z :=
  match fuel with
  | O => (scaled_floor num den (k - n), k)
  | S f =>
      match shortest_candidate x num den n k with
      | Some c => (c, k)
      | None => shortest_search f x num den n (k + 1)
      end
  end.

Fixpoint strip_zero_digits (fuel : nat) (c : Z) : Z :=
  match fuel with
  | O => c
  | S f =>
      if (c mod 10 =? 0) && negb (c =? 0) then strip_zero_digits f (c / 10)
      else c
  end.

Definition positive_to_string (x : number) (num den : Z) : string :=
  let n0 := decimal_exponent num den in
  let '(c, k0) := shortest_search 17 x num den n0 1 in
  let s := strip_zero_digits 20 c in
  let sd := decimal_digits s in
  let k := ndigits10 s in
  (* c * 10^(n0-k0) = s * 10^(n-k) *)
  let n := n0 - k0 + ndigits10 c in
  if (k <=? n) && (n <=? 21) then sd ++ zeros (Z.to_nat (n - k))
  else if (0 <? n) && (n <=? 21) then
    str_take (Z.to_nat n) sd ++ "." ++ str_drop (Z.to_nat n) sd
  else if (-6 <? n) && (n <=? 0) then "0." ++ zeros (Z.to_nat (- n)) ++ sd
  else
    let ex := (if 0 <=? n - 1 then "+" else "-") ++ decimal_digits (Z.abs (n - 1)) in
    if k =? 1 then sd ++ "e" ++ ex
    else str_take 1 sd ++ "." ++ str_drop 1 sd ++ "e" ++ ex.

Definition NumberToString (x : number) : string :=
  match x with
  | S754_nan => "NaN"
  | S754_zero _ => "0"
  | S754_infinity s => (if s then "-" else "") ++ "Infinity"
  | S754_finite s m e =>
      (if s then "-" else "") ++
      positive_to_string (S754_finite false m e) (mag_num m e) (mag_den e)
  end.

(** *** Number.prototype.toFixed *)

Definition ten21 : Z := 10 ^ 21.

Definition fixed_string (n : Z) (f : nat) : string :=
  let m := decimal_digits n in
  match f with
  | O => m
  | _ =>
      let k := String.length m in
      let m' := if (k <=? f)%nat then zeros (f + 1 - k) ++ m else m in
      let k' := String.length m' in
      str_take (k' - f) m' ++ "." ++ str_drop (k' - f) m'
  end.

(** The integer [n] for which [n / 10^f - x] is closest to zero, the larger
    one on a tie, for [x = num / den >= 0]. *)
Definition nearest_scaled (num den : Z) (f : nat) : Z :=
  (2 * num * 10 ^ Z.of_nat f + den) / (2 * den).

Definition toFixed (x : number) (f : nat) : string :=
  match x with
  | S754_finite s m e =>
      let num := mag_num m e in
      let den := mag_den e in
      (if s then "-" else "") ++
      (if ten21 * den <=? num then NumberToString (S754_finite false m e)
       else fixed_string (nearest_scaled num den f) f)
  | S754_zero _ => fixed_string 0 f
  | _ => NumberToString x
  end.

(** *** parseFloat *)

(** White space skipped in front of a numeric string; strings are taken
    over the 8-bit characters of [ascii]. *)
Definition is_space (c : ascii) : bool :=
  let n := nat_of_ascii c in
  ((9 <=? n) && (n <=? 13) || (n =? 32) || (n =? 160))%nat.

Fixpoint trim_start (s : string) : string :=
  match s with
  | String c r => if is_space c then trim_start r else s
  | "" => ""
  end.

Definition digit_value (c : ascii) : option Z :=
  let n := nat_of_ascii c in
  if ((48 <=? n) && (n <=? 57))%nat then Some (Z.of_nat (n - 48)) else None.

(** Reads the longest run of decimal digits: their value when read after
    the digits of [acc], how many there are, and the rest of the string. *)
Fixpoint read_digits (s : string) (acc : Z) (count : nat) : Z * nat * string :=
  match s with
  | String c r =>
      match digit_value c with
      | Some d => read_digits r (10 * acc + d) (S count)
      | None => (acc, count, s)
      end
  | "" => (acc, count, s)
  end.

Definition read_sign (s : string) : bool * string :=
  match s with
  | String "-" r => (true, r)
  | String "+" r => (false, r)
  | _ => (false, s)
  end.

(** The exponent part [e], [e+] or [e-] followed by digits, and what
    follows it; exponent 0 and the string itself when it does not start
    with one. *)
Definition read_exponent (s : string) : Z * string :=
  match s with
  | String c r =>
      if (Ascii.eqb c "e" || Ascii.eqb c "E")%bool then
        let '(neg, r') := read_sign r in
        let '(v, count, rest) := read_digits r' 0 0 in
        match count with
        | O => (0, s)
        | _ => (if neg then - v else v, rest)
        end
      else (0, s)
  | "" => (0, s)
  end.

(** The longest prefix that is a decimal literal, as a number, and the
    rest of the string; [None] when no prefix is one. *)
Definition read_decimal_literal (s0 : string) : option (number * string) :=
  let '(neg, s) := read_sign s0 in
  if String.prefix "Infinity" s then Some (S754_infinity neg, str_drop 8 s)
  else
    let '(ip, icount, r1) := read_digits s 0 0 in
    let '(m, fcount, r2) :=
      match r1 with
      | String "." r => read_digits r ip 0
      | _ => (ip, O, r1)
      end in
    match icount, fcount with
    | O, O => None
    | _, _ =>
        let '(ex, rest) := read_exponent r2 in
        Some (of_decimal neg m (ex - Z.of_nat fcount), rest)
    end.

Definition parseFloat (input : string) : number :=
  match read_decimal_literal (trim_start input) with
  | Some (x, _) => x
  | None => NaN
  end.

(** *** Number(value) on a string *)

Fixpoint all_space (s : string) : bool :=
  match s with
  | String c r => is_space c && all_space r
  | "" => true
  end.

Definition digit_in_radix (radix : Z) (c : ascii) : option Z :=
  let n := Z.of_nat (nat_of_ascii c) in
  let d := if (48 <=? n) && (n <=? 57) then n - 48
           else if (97 <=? n) && (n <=? 122) then n - 87
           else if (65 <=? n) && (n <=? 90) then n - 55
           else radix in
  if d <? radix then Some d else None.

Fixpoint read_radix (radix : Z) (s : string) (acc : Z) (count : nat)
  : Z * nat * string :=
  match s with
  | String c r =>
      match digit_in_radix radix c with
      | Some d => read_radix radix r (radix * acc + d) (S count)
      | None => (acc, count, s)
      end
  | "" => (acc, count, s)
  end.

Definition radix_prefix (s : string) : option (Z * string) :=
  match s with
  | String "0" (String c r) =>
      if (Ascii.eqb c "x" || Ascii.eqb c "X")%bool then Some (16, r)
      else if (Ascii.eqb c "o" || Ascii.eqb c "O")%bool then Some (8, r)
      else if (Ascii.eqb c "b" || Ascii.eqb c "B")%bool then Some (2, r)
      else None
  | _ => None
  end.

Definition StringToNumber (input : string) : number :=
  let s := trim_start input in
  match s with
  | "" => S754_zero false
  | _ =>
      match radix_prefix s with
      | Some (radix, r) =>
          let '(v, count, rest) := read_radix radix r 0 0 in
          match count with
          | O => NaN
          | _ => if all_space rest then of_Z v else NaN
          end
      | None =>
          match read_decimal_literal s with
          | Some (x, rest) => if all_space rest then x else NaN
          | None => NaN
          end
      end
  end.

(** *** parseInt with radix 16 *)

Definition strip_0x (s : string) : string :=
  match s with
  | String "0" (String "x" r) => r
  | String "0" (String "X" r) => r
  | _ => s
  end.

Definition parseInt16 (input : string) : number :=
  let '(neg, s) := read_sign (trim_start input) in
  let '(v, count, _) := read_radix 16 (strip_0x s) 0 0 in
  match count with
  | O => NaN
  | _ => match v with
         | 0 => S754_zero neg
         | _ => if neg then of_Z (- v) else of_Z v
         end
  end.

(** *** Math.round *)

(** The integer closest to [(-1)^s * m * 2^e], the one nearer to plus
    infinity on a tie. *)
Definition round_half_up (s : bool) (m : positive) (e : Z) : Z :=
  let num := if s then - mag_num m e else mag_num m e in
  let den := mag_den e in
  (2 * num + den) / (2 * den).

Definition is_integral (m : positive) (e : Z) : bool :=
  mag_num m e mod mag_den e =? 0.

Definition Math_round (x : number) : number :=
  match x with
  | S754_finite s m e =>
      if is_integral m e then x
      else match round_half_up s m e with
           | 0 => S754_zero s
           | n => of_Z n
           end
  | _ => x
  end.

(** *** BigInt(number) *)

Definition NumberToBigInt (x : number) : result Z :=
  match x with
  | S754_nan => Err (BigIntRangeError IsNaN)
  | S754_infinity _ => Err (BigIntRangeError IsInfinite)
  | S754_zero _ => Ok 0
  | S754_finite s m e =>
      if is_integral m e then
        let v := mag_num m e / mag_den e in
        Ok (if s then - v else v)
      else Err (BigIntRangeError IsFractional)
  end.

(** *** String.prototype.replace(/\.?0+$/, '')

    The pattern matches at a position when the rest of the string is an
    optional point followed by one or more zeros up to the end; the
    leftmost such position is the match and is replaced by the empty
    string. *)
Fixpoint all_zeros (s : string) : bool :=
  match s with
  | String c r => Ascii.eqb c "0" && all_zeros r
  | "" => true
  end.

Definition zeros_to_end (s : string) : bool :=
  match s with
  | String c r => Ascii.eqb c "0" && all_zeros r
  | "" => false
  end.

Definition matches_here (s : string) : bool :=
  match s with
  | String "." r => zeros_to_end r
  | _ => zeros_to_end s
  end.

Fixpoint replace_trailing_zeros (s : string) : string :=
  if matches_here s then ""
  else match s with
       | String c r => String c (replace_trailing_zeros r)
       | "" => ""
       end.

End JS.

Import JS.

(** ** Objects and the store

    Plain objects keep their own properties in insertion order; an object
    handed to a function is handed by reference, so objects live in a
    store. *)

Definition loc := positive.

Inductive value :=
  | VUndefined
  | VNull
  | VBool (b : bool)
  | VNumber (x : number)
  | VString (s : string)
  | VRef (l : loc).

Definition object := list (string * value).

Fixpoint obj_get (k : string) (o : object) : value :=
  match o with
  | [] => VUndefined
  | (k', v) :: r => if String.eqb k k' then v else obj_get k r
  end.

(** [o[k] = v]: an existing property keeps its place, a new one goes last. *)
Fixpoint obj_set (k : string) (v : value) (o : object) : object :=
  match o with
  | [] => [(k, v)]
  | (k', v') :: r =>
      if String.eqb k k' then (k', v) :: r else (k', v') :: obj_set k v r
  end.

Definition heap := gmap loc object.

(** ** Bytes: Uint8Array and DataView *)

Definition bytes := list Z.

Definition new_Uint8Array (n : nat) : bytes := repeat 0 n.

(** [data.set(src, offset)] *)
Definition u8_set (data src : bytes) (offset : nat) : result bytes :=
  if (offset + length src <=? length data)%nat
  then Ok (firstn offset data ++ src ++ skipn (offset + length src) data)%list
  else Err OffsetRangeError.

Fixpoint be_bytes (n : nat) (v : Z) : bytes :=
  match n with
  | O => []
  | S k => Z.land (Z.shiftr v (8 * Z.of_nat k)) 255 :: be_bytes k v
  end.

Fixpoint be_value (bs : bytes) : Z :=
  match bs with
  | [] => 0
  | b :: r => b * 2 ^ (8 * Z.of_nat (length r)) + be_value r
  end.

(** [view.setUint8(offset, v)] *)
Definition setUint8 (data : bytes) (offset : nat) (v : Z) : result bytes :=
  u8_set data [v mod 256] offset.

(** [view.setBigUint64(offset, v, false)]: the value modulo 2^64, most
    significant byte first. *)
Definition setBigUint64 (data : bytes) (offset : nat) (v : Z) : result bytes :=
  u8_set data (be_bytes 8 (v mod 2 ^ 64)) offset.

(** ethers [getBytes] on a string: ["0x"] followed by pairs of hex digits. *)
Fixpoint hex_pairs (s : string) : option bytes :=
  match s with
  | "" => Some []
  | String a (String b r) =>
      match digit_in_radix 16 a, digit_in_radix 16 b, hex_pairs r with
      | Some x, Some y, Some bs => Some (16 * x + y :: bs)
      | _, _, _ => None
      end
  | String _ "" => None
  end.

Definition getBytes (s : string) : result bytes :=
  match s with
  | String "0" (String c r) =>
      if (Ascii.eqb c "x" || Ascii.eqb c "X")%bool then
        match hex_pairs r with
        | Some bs => Ok bs
        | None => Err (InvalidBytesLike s)
        end
      else Err (InvalidBytesLike s)
  | _ => Err (InvalidBytesLike s)
  end.

(** ** Types of [src/types] used by the signing code *)

Record Limit := { tif : string }.

(** A trigger price reaches [orderTypeToWire] as a number or as a string
    and goes through [Number(...)] there. *)
Inductive Px :=
  | PxNumber (x : number)
  | PxString (s : string).

Definition Number_ (p : Px) : number :=
  match p with
  | PxNumber x => x
  | PxString s => StringToNumber s
  end.

Record Trigger := {
  isMarket : bool;
  triggerPx : Px;
  tpsl : string
}.

Record OrderType := {
  limit : option Limit;
  trigger : option Trigger
}.

(** What [orderTypeToWire] returns: an object with the single key [limit]
    or the single key [trigger]. *)
Inductive WireOrderType :=
  | WireLimit (l : Limit)
  | WireTrigger (isMarket : bool) (triggerPx : string) (tpsl : string).

Record Order := {
  coin : string;
  is_buy : bool;
  sz : number;
  limit_px : number;
  order_type : OrderType;
  reduce_only : bool;
  cloid : option string
}.

(** The wire order is an object whose keys are serialized in insertion
    order, so it is kept as the ordered list of its properties. *)
Inductive wire_value :=
  | WInt (n : Z)
  | WBool (b : bool)
  | WStr (s : string)
  | WType (t : WireOrderType).

Definition OrderWire := list (string * wire_value).

Fixpoint wire_set (k : string) (v : wire_value) (o : OrderWire) : OrderWire :=
  match o with
  | [] => [(k, v)]
  | (k', v') :: r =>
      if String.eqb k k' then (k', v) :: r else (k', v') :: wire_set k v r
  end.

Record Signature := { r : string; s : string; v : Z }.

Record Domain := {
  chainId : number;
  name : string;
  verifyingContract : string;
  version : string
}.

Record TypeField := { field_name : string; field_type : string }.

Definition Types := list (string * list TypeField).

Inductive Message :=
  | MAgent (source : string) (connectionId : string)
  | MAction (action : value).

Record TypedData := {
  domain : Domain;
  types : Types;
  primaryType : string;
  message : Message
}.

(** ** Signers

    What [signInner] looks at: whether the wallet is an object, whether it
    has a [signTypedData] member, whether that member is a function, and
    the function's [length]. *)
Inductive sign_args :=
  | ClientParams (d : Domain) (t : Types) (p : string) (m : Message)
  | DirectArgs (d : Domain) (t : Types) (m : Message).

Inductive member :=
  | NotCallable (v : value)
  | Function (arity : nat) (call : heap -> sign_args -> result string).

Inductive wallet :=
  | NotAnObject (v : value)
  | WalletObject (signTypedData : option member).

(** ** [src/utils/signing.ts] *)

Definition zero_address : string :=
  "0x0000000000000000000000000000000000000000".

Definition phantomDomain : Domain := {|
  chainId := of_Z 1337;
  name := "Exchange";
  verifyingContract := zero_address;
  version := "1"
|}.

Definition agentTypes : Types :=
  [("Agent", [ {| field_name := "source"; field_type := "string" |};
               {| field_name := "connectionId"; field_type := "bytes32" |} ])].

Definition floatToWire (x : number) : result string :=
  let rounded := toFixed x 8 in
  if geb (Math_abs (sub (parseFloat rounded) x)) lit_1e_12 then
    Err (FloatToWireRounding x)
  else
    let normalized := replace_trailing_zeros rounded in
    Ok (if String.eqb normalized "-0" then "0" else normalized).

(** [Math.pow(10, power)] for the powers the code uses: 10^power is an
    integer that is a Number exactly (up to 10^22). *)
Definition Math_pow10 (power : Z) : number := of_Z (10 ^ power).

Definition floatToInt (x : number) (power : Z) : result number :=
  let withDecimals := mul x (Math_pow10 power) in
  if geb (Math_abs (sub (Math_round withDecimals) withDecimals)) lit_1e_3 then
    Err (FloatToIntRounding x)
  else Ok (Math_round withDecimals).

Definition floatToIntForHashing (x : number) : result number := floatToInt x 8.

Definition floatToUsdInt (x : number) : result number := floatToInt x 6.

Definition orderTypeToWire (orderType : OrderType) : result WireOrderType :=
  match limit orderType with
  | Some l => Ok (WireLimit l)
  | None =>
      match trigger orderType with
      | Some t =>
          let* px := floatToWire (Number_ (triggerPx t)) in
          Ok (WireTrigger (isMarket t) px (tpsl t))
      | None => Err InvalidOrderType
      end
  end.

Definition orderToWire (order : Order) (asset : Z) : result OrderWire :=
  let* p := floatToWire (limit_px order) in
  let* s := floatToWire (sz order) in
  let* t := orderTypeToWire (order_type order) in
  let orderWire :=
    [("a", WInt asset); ("b", WBool (is_buy order)); ("p", WStr p);
     ("s", WStr s); ("r", WBool (reduce_only order)); ("t", WType t)] in
  Ok match cloid order with
     | Some c => wire_set "c" (WStr c) orderWire
     | None => orderWire
     end.

Definition constructPhantomAgent (hash : string) (isMainnet : bool) : Message :=
  MAgent (if isMainnet then "a" else "b") hash.

Definition isAbstractWalletClient (client : wallet) : bool :=
  match client with
  | WalletObject (Some (Function n _)) => (n =? 1)%nat
  | _ => false
  end.

Definition isAbstractSigner (client : wallet) : bool :=
  match client with
  | WalletObject (Some (Function n _)) => (n =? 3)%nat
  | _ => false
  end.

(** [wallet.signTypedData(...)], reached only behind one of the two guards
    above. *)
Definition call_signTypedData (w : wallet) (h : heap) (args : sign_args)
  : result string :=
  match w with
  | WalletObject (Some (Function _ call)) => call h args
  | _ => Err (External "signTypedData is not a function")
  end.

Section Signing.

(** Collaborators from outside the repository: the msgpack encoder (over
    whatever the type of actions is), Keccak-256 returning its hex
    string, and [ethers.Signature.from]. *)
Context {Action : Type}.
Variable encode : Action -> bytes.
Variable keccak256 : bytes -> string.
Variable Signature_from : string -> result Signature.

Definition addressToBytes (address : string) : result bytes :=
  getBytes address.

(** The buffer [data] that [actionHash] fills and hashes. *)
Definition actionHashData (action : Action) (vaultAddress : option string)
    (nonce : number) : result bytes :=
  let msgPackBytes := encode action in
  let additionalBytesLength :=
    match vaultAddress with None => 9%nat | Some _ => 29%nat end in
  let data := new_Uint8Array (length msgPackBytes + additionalBytesLength) in
  let* data := u8_set data msgPackBytes 0 in
  let* n := NumberToBigInt nonce in
  let* data := setBigUint64 data (length msgPackBytes) n in
  match vaultAddress with
  | None => setUint8 data (length msgPackBytes + 8) 0
  | Some address =>
      let* data := setUint8 data (length msgPackBytes + 8) 1 in
      let* addr := addressToBytes address in
      u8_set data addr (length msgPackBytes + 9)
  end.

Definition actionHash (action : Action) (vaultAddress : option string)
    (nonce : number) : result string :=
  let* data := actionHashData action vaultAddress nonce in
  Ok (keccak256 data).

Definition splitSig (sig : string) : result Signature :=
  let* sg := Signature_from sig in
  Ok {| r := r sg; s := s sg; v := v sg |}.

Definition signInner (w : wallet) (data : TypedData) (h : heap)
  : result Signature :=
  if isAbstractWalletClient w then
    let* signature :=
      call_signTypedData w h
        (ClientParams (domain data) (types data) (primaryType data)
                      (message data)) in
    splitSig signature
  else if isAbstractSigner w then
    let* signature :=
      call_signTypedData w h
        (DirectArgs (domain data) (types data) (message data)) in
    splitSig signature
  else Err UnsupportedWallet.

Definition l1TypedData (hash : string) (isMainnet : bool) : TypedData := {|
  domain := phantomDomain;
  types := agentTypes;
  primaryType := "Agent";
  message := constructPhantomAgent hash isMainnet
|}.

Definition signL1Action (w : wallet) (action : Action)
    (activePool : option string) (nonce : number) (isMainnet : bool)
    (h : heap) : result Signature :=
  let* hash := actionHash action activePool nonce in
  signInner w (l1TypedData hash isMainnet) h.

(** [getTxObject] of [mpcSigning.ts]: the same typed data, returned
    instead of signed. *)
Definition getTxObject (action : Action) (activePool : option string)
    (nonce : number) (isMainnet : bool) : result TypedData :=
  let* hash := actionHash action activePool nonce in
  Ok (l1TypedData hash isMainnet).

Record L1ActionTypedData := {
  l1_typed : TypedData;
  l1_action : Action;
  l1_nonce : number;
  l1_vaultAddress : option string;
  l1_hash : string
}.

Definition createL1ActionTypedData (action : Action)
    (vaultAddress : option string) (nonce : number) (isMainnet : bool)
  : result L1ActionTypedData :=
  let* hash := actionHash action vaultAddress nonce in
  Ok {| l1_typed := l1TypedData hash isMainnet;
        l1_action := action;
        l1_nonce := nonce;
        l1_vaultAddress := vaultAddress;
        l1_hash := hash |}.

(** ToString of a value, for [parseInt]. *)
Definition ToString (x : value) : string :=
  match x with
  | VUndefined => "undefined"
  | VNull => "null"
  | VBool b => if b then "true" else "false"
  | VNumber n => NumberToString n
  | VString s => s
  | VRef _ => "[object Object]"
  end.

Definition hexToNumber (hex : value) : number := parseInt16 (ToString hex).

Definition chain_name (isMainnet : bool) : value :=
  VString (if isMainnet then "Mainnet" else "Testnet").

Definition userSignedDomain (o : object) : Domain := {|
  name := "HyperliquidSignTransaction";
  version := "1";
  chainId := hexToNumber (obj_get "signatureChainId" o);
  verifyingContract := zero_address
|}.

(** [action.hyperliquidChain = ...] on the store: a write through the
    caller's reference; not an object, the write throws. *)
Definition stamp_chain (action : value) (isMainnet : bool) (h : heap)
  : result (object * heap) :=
  match action with
  | VRef l =>
      match h !! l with
      | Some o =>
          let o' := obj_set "hyperliquidChain" (chain_name isMainnet) o in
          Ok (o', <[l := o']> h)
      | None => Err (External "dangling reference")
      end
  | _ => Err (External "TypeError: cannot set property hyperliquidChain")
  end.

Definition signUserSignedAction (w : wallet) (action : value)
    (payloadTypes : list TypeField) (primaryType : string)
    (isMainnet : bool) (h : heap) : result Signature * heap :=
  match stamp_chain action isMainnet h with
  | Err e => (Err e, h)
  | Ok (o, h') =>
      let data := {|
        domain := userSignedDomain o;
        types := [(primaryType, payloadTypes)];
        primaryType := primaryType;
        message := MAction action
      |} in
      (signInner w data h', h')
  end.

Definition usdSendTypes : list TypeField :=
  [ {| field_name := "hyperliquidChain"; field_type := "string" |};
    {| field_name := "destination"; field_type := "string" |};
    {| field_name := "amount"; field_type := "string" |};
    {| field_name := "time"; field_type := "uint64" |} ].

Definition approveAgentTypes : list TypeField :=
  [ {| field_name := "hyperliquidChain"; field_type := "string" |};
    {| field_name := "agentAddress"; field_type := "address" |};
    {| field_name := "agentName"; field_type := "string" |};
    {| field_name := "nonce"; field_type := "uint64" |} ].

Definition signUsdTransferAction (w : wallet) (action : value)
    (isMainnet : bool) (h : heap) : result Signature * heap :=
  signUserSignedAction w action usdSendTypes
    "HyperliquidTransaction:UsdSend" isMainnet h.

Definition signWithdrawFromBridgeAction (w : wallet) (action : value)
    (isMainnet : bool) (h : heap) : result Signature * heap :=
  signUserSignedAction w action usdSendTypes
    "HyperliquidTransaction:Withdraw" isMainnet h.

Definition signAgent (w : wallet) (action : value)
    (isMainnet : bool) (h : heap) : result Signature * heap :=
  signUserSignedAction w action approveAgentTypes
    "HyperliquidTransaction:ApproveAgent" isMainnet h.

(** The object [createAgentTypedData] returns: the typed data and, under
    the key [action], the caller's action once more. *)
Record AgentTypedData := {
  agent_typed : TypedData;
  agent_action : value
}.

Definition createAgentTypedData (action : value) (isMainnet : bool)
    (h : heap) : result AgentTypedData * heap :=
  match stamp_chain action isMainnet h with
  | Err e => (Err e, h)
  | Ok (o, h') =>
      let primaryType := "HyperliquidTransaction:ApproveAgent" in
      (Ok {| agent_typed := {|
               domain := userSignedDomain o;
               types := [(primaryType, approveAgentTypes)];
               primaryType := primaryType;
               message := MAction action |};
             agent_action := action |}, h')
  end.

(** [submitSignedAction] of the typed-data variant of [exchange.ts]: a
    signature given as a string goes through [splitSig]. *)
Definition formatSignature (signature : Signature + string)
  : result Signature :=
  match signature with
  | inr str => splitSig str
  | inl sg => Ok sg
  end.

End Signing.

(** ** [src/rest/exchange.ts]: resolving the asset indices of a batch

    An [async] callback runs up to its first [await] when it is called;
    [Array.prototype.map] calls the callbacks one after the other, so every
    callback has run its first part before any continuation runs.  The
    external resolver [symbolConversion.getAssetIndex] is invoked in the
    first part of [this.getAssetIndex]; the state records these
    invocations. *)

Record resolve_state := {
  assetIndexCache : gmap string Z;
  lookups : list string
}.

Definition initial_state : resolve_state :=
  {| assetIndexCache := ∅; lookups := [] |}.

(** A callback after its first part: finished, or suspended on the
    resolver's promise. *)
Inductive callback :=
  | Finished (w : result OrderWire)
  | Awaiting (o : Order).

Definition invoke_resolver (symbol : string) (st : resolve_state)
  : resolve_state :=
  {| assetIndexCache := assetIndexCache st;
     lookups := lookups st ++ [symbol] |}.

Definition cache_set (symbol : string) (index : Z) (st : resolve_state)
  : resolve_state :=
  {| assetIndexCache := <[symbol := index]> (assetIndexCache st);
     lookups := lookups st |}.

Section Exchange.

(** The answer of [symbolConversion.getAssetIndex]; [None] stands for
    [undefined]. *)
Variable resolver : string -> option Z.

(** [this.getAssetIndex] once the resolver has answered. *)
Definition getAssetIndex_resume (symbol : string) : result Z :=
  match resolver symbol with
  | Some index => Ok index
  | None => Err (UnknownAsset symbol)
  end.

(** The callback of [placeOrder] and [getTxObjectPlaceOrder]. *)
Definition placeOrder_start (o : Order) (st : resolve_state)
  : callback * resolve_state :=
  match assetIndexCache st !! coin o with
  | Some assetIndex => (Finished (orderToWire o assetIndex), st)
  | None => (Awaiting o, invoke_resolver (coin o) st)
  end.

Definition placeOrder_resume (o : Order) (st : resolve_state)
  : result OrderWire * resolve_state :=
  match getAssetIndex_resume (coin o) with
  | Ok assetIndex =>
      (orderToWire o assetIndex, cache_set (coin o) assetIndex st)
  | Err e => (Err e, st)
  end.

(** The callback of [placeOrdersTpSl]: it awaits [this.getAssetIndex]
    first and never reads the cache; the branch on
    [assetIndex === undefined] that follows cannot be taken, since
    [this.getAssetIndex] throws instead of returning [undefined]. *)
Definition placeOrdersTpSl_start (o : Order) (st : resolve_state)
  : callback * resolve_state :=
  (Awaiting o, invoke_resolver (coin o) st).

Definition placeOrdersTpSl_resume (o : Order) (st : resolve_state)
  : result OrderWire * resolve_state :=
  match getAssetIndex_resume (coin o) with
  | Ok assetIndex => (orderToWire o assetIndex, st)
  | Err e => (Err e, st)
  end.

Section Batch.
Variable start : Order -> resolve_state -> callback * resolve_state.
Variable resume : Order -> resolve_state -> result OrderWire * resolve_state.

(** [ordersArray.map(async (o) => ...)]: the first part of every
    callback, in order. *)
Fixpoint map_start (orders : list Order) (st : resolve_state)
  : list callback * resolve_state :=
  match orders with
  | [] => ([], st)
  | o :: rest =>
      let '(c, st1) := start o st in
      let '(cs, st2) := map_start rest st1 in
      (c :: cs, st2)
  end.

(** The continuations, run as the awaited promises settle, here in the
    order of the calls. *)
Fixpoint settle (cs : list callback) (st : resolve_state)
  : list (result OrderWire) * resolve_state :=
  match cs with
  | [] => ([], st)
  | Finished w :: rest =>
      let '(ws, st1) := settle rest st in (w :: ws, st1)
  | Awaiting o :: rest =>
      let '(w, st1) := resume o st in
      let '(ws, st2) := settle rest st1 in
      (w :: ws, st2)
  end.

(** [Promise.all]: every result, or the first rejection. *)
Fixpoint all_results (ws : list (result OrderWire)) : result (list OrderWire) :=
  match ws with
  | [] => Ok []
  | w :: rest =>
      let* x := w in
      let* xs := all_results rest in
      Ok (x :: xs)
  end.

Definition resolve_batch (orders : list Order)
  : result (list OrderWire) * resolve_state :=
  let '(cs, st1) := map_start orders initial_state in
  let '(ws, st2) := settle cs st1 in
  (all_results ws, st2).
End Batch.

Definition placeOrder_orderWires (ordersArray : list Order) :=
  resolve_batch placeOrder_start placeOrder_resume ordersArray.

Definition getTxObjectPlaceOrder_orderWires (ordersArray : list Order) :=
  resolve_batch placeOrder_start placeOrder_resume ordersArray.

Definition placeOrdersTpSl_orderWires (ordersArray : list Order) :=
  resolve_batch placeOrdersTpSl_start placeOrdersTpSl_resume ordersArray.

End Exchange.

(** ** The encoder as the specification words it

    Format with 8 fractional digits, strip trailing zeros, then a trailing
    decimal point, and turn ["-0"] into ["0"]. *)

Definition spec_format8 (x : number) : string :=
  match x with
  | S754_finite sg m e =>
      ((if sg then "-" else "") ++
       fixed_string (nearest_scaled (mag_num m e) (mag_den e) 8) 8)%string
  | _ => toFixed x 8
  end.

Fixpoint strip_trailing_zeros (s : string) : string :=
  match s with
  | "" => ""
  | String c r =>
      match strip_trailing_zeros r with
      | "" => if Ascii.eqb c "0" then "" else String c ""
      | r' => String c r'
      end
  end.

Fixpoint strip_trailing_point (s : string) : string :=
  match s with
  | "" => ""
  | String c r =>
      match r with
      | "" => if Ascii.eqb c "." then "" else s
      | _ => String c (strip_trailing_point r)
      end
  end.

Definition spec_strip (s : string) : string :=
  strip_trailing_point (strip_trailing_zeros s).

Definition spec_decimalToWire (x : number) : result string :=
  let formatted := spec_format8 x in
  if geb (Math_abs (sub (parseFloat formatted) x)) lit_1e_12 then
    Err (FloatToWireRounding x)
  else
    let stripped := spec_strip formatted in
    Ok (if String.eqb stripped "-0" then "0" else stripped).

(** Finite and of magnitude below 10^21. *)
Definition below_1e21 (x : number) : Prop :=
  match x with
  | S754_finite _ m e => mag_num m e < ten21 * mag_den e
  | S754_zero _ => True
  | _ => False
  end.

(** Number literals used in the statements below. *)
Definition num_1_5 : number := Eval vm_compute in of_decimal false 15 (-1).
Definition num_2 : number := Eval vm_compute in of_Z 2.
Definition num_2500_123456785 : number :=
  Eval vm_compute in of_decimal false 2500123456785 (-9).
Definition num_2500_12345678 : number :=
  Eval vm_compute in of_decimal false 250012345678 (-8).
Definition num_1 : number := Eval vm_compute in of_Z 1.
Definition num_0_123456784 : number :=
  Eval vm_compute in of_decimal false 123456784 (-9).
Definition num_123456789012_5 : number :=
  Eval vm_compute in of_decimal false 1234567890125 (-1).
Definition num_1e21 : number := Eval vm_compute in of_decimal false 1 21.
Definition num_1e30 : number := Eval vm_compute in of_decimal false 1 30.

(** ** Predicates used in the statements and proofs *)

Definition is_digit (c : ascii) : bool :=
  match digit_value c with
  | Some _ => true
  | None => false
  end.

Fixpoint all_digits (s : string) : bool :=
  match s with
  | "" => true
  | String c r => is_digit c && all_digits r
  end.

Fixpoint ends_with_point (s : string) : bool :=
  match s with
  | "" => false
  | String c r =>
      match r with
      | "" => Ascii.eqb c "."
      | _ => ends_with_point r
      end
  end.

(** The integer a string of decimal digits reads as. *)
Fixpoint digits_value_from (acc : Z) (s : string) : Z :=
  match s with
  | "" => acc
  | String c r =>
      match digit_value c with
      | Some d => digits_value_from (10 * acc + d) r
      | None => acc
      end
  end.

Definition digits_value (s : string) : Z := digits_value_from 0 s.

(** The flag byte and the address bytes that follow it. *)
Definition vault_flag (vaultAddress : option string) : Z :=
  match vaultAddress with None => 0 | Some _ => 1 end.

Definition vault_bytes (vaultAddress : option string) : result bytes :=
  match vaultAddress with None => Ok [] | Some a => getBytes a end.

(** Null, or an address of 20 bytes. *)
Definition vault_ok (vaultAddress : option string) (addr : bytes) : Prop :=
  vault_bytes vaultAddress = Ok addr
  /\ (vaultAddress <> None -> length addr = 20%nat).

(** The numbers whose value is an integer [n]. *)
Definition integer_value (x : number) (n : Z) : Prop :=
  match x with
  | S754_zero _ => n = 0
  | S754_finite sg m e =>
      n * mag_den e = (if sg then - mag_num m e else mag_num m e)
  | _ => False
  end.

(** Where the nonce sits in the buffer. *)
Definition nonce_bytes (data : bytes) (offset : nat) : bytes :=
  firstn 8 (skipn offset data).

(** [orderWire[k]], [None] for an absent key. *)
Fixpoint wire_get (k : string) (o : OrderWire) : option wire_value :=
  match o with
  | [] => None
  | (k', v) :: r => if String.eqb k k' then Some v else wire_get k r
  end.

(** ** Values to run the functions on *)

(** Stand-ins for the collaborators from outside the repository: an
    encoder over actions that are already bytes, a digest that prints the
    length of what it is given, and a signature splitter that keeps the
    string as [r]. *)
Definition sample_encode (action : bytes) : bytes := action.

Definition sample_keccak256 (data : bytes) : string :=
  ("0x" ++ decimal_digits (Z.of_nat (length data)))%string.

Definition sample_Signature_from (sig : string) : result Signature :=
  Ok {| r := sig; s := ""; v := 27 |}.

Definition sample_vault : string :=
  "0x00000000000000000000000000000000000000ff".

Definition sample_nonce : number := Eval vm_compute in of_Z 1700000000000.

(** The order of the scenario: buy 1 ETH at 2500.12345678, good till
    cancelled, no client order id. *)
Definition scenario_order : Order := {|
  coin := "ETH";
  is_buy := true;
  sz := num_1;
  limit_px := num_2500_12345678;
  order_type := {| limit := Some {| tif := "Gtc" |}; trigger := None |};
  reduce_only := false;
  cloid := None
|}.

(** The agent approval action as [createAgentApprovalTypedData] builds it,
    without a [hyperliquidChain] key, stored at location 1. *)
Definition approval_action : object :=
  [("type", VString "approveAgent");
   ("agentAddress", VString sample_vault);
   ("agentName", VString "bot");
   ("signatureChainId", VString "0xa4b1");
   ("nonce", VNumber sample_nonce)].

Definition approval_heap : heap := {[ 1%positive := approval_action ]}.

(** A client-style wallet and a direct signer that sign with a fixed
    string. *)
Definition client_wallet : wallet :=
  WalletObject (Some (Function 1 (fun _ _ => Ok "0xsigned"))).

Definition direct_wallet : wallet :=
  WalletObject (Some (Function 3 (fun _ _ => Ok "0xsigned"))).

(** A trigger order whose price carries too many decimals, and an order
    type with neither variant. *)
Definition lossy_trigger : OrderType := {|
  limit := None;
  trigger := Some {| isMarket := true;
                     triggerPx := PxString "2500.123456785";
                     tpsl := "tp" |}
|}.

Definition empty_order_type : OrderType := {| limit := None; trigger := None |}.

Definition number_trigger : OrderType := {|
  limit := None;
  trigger := Some {| isMarket := true;
                     triggerPx := PxNumber num_2500_12345678;
                     tpsl := "tp" |}
|}.

Definition text_trigger : OrderType := {|
  limit := None;
  trigger := Some {| isMarket := false;
                     triggerPx := PxString "1950.50";
                     tpsl := "sl" |}
|}.

(** Two orders on the same coin. *)
Definition eth_pair : list Order := [scenario_order; scenario_order].

Definition sample_resolver (symbol : string) : option Z :=
  if String.eqb symbol "ETH" then Some 5 else None.

(** The distinct coins of a batch, in the order they first appear. *)
Fixpoint distinct_coins (seen : list string) (orders : list Order) : list string :=
  match orders with
  | [] => []
  | o :: rest =>
      if existsb (String.eqb (coin o)) seen then distinct_coins seen rest
      else coin o :: distinct_coins (coin o :: seen) rest
  end.

(** ** More of [src/rest/exchange.ts] and [src/rest/custom.ts]

    The methods below throw errors of their own next to those of the
    signing utilities. *)

Inductive thrown :=
  | Signing (e : error)       (* thrown by the signing utilities or by
                                 [this.getAssetIndex] *)
  | NonExistentAssets         (* Error('non-existent assets') *)
  | NoOrdersToCancel.         (* Error('No orders to cancel') *)

Inductive outcome (A : Type) :=
  | Done (a : A)
  | Throws (t : thrown).
Arguments Done {A} a.
Arguments Throws {A} t.

Definition lift {A} (r : result A) : outcome A :=
  match r with
  | Ok a => Done a
  | Err e => Throws (Signing e)
  end.

Record Modify := { modify_oid : Z; modify_order : Order }.

Record CancelOrderRequest := { cancel_coin : string; cancel_o : Z }.

(** An open order as [cancelAllOrders] reads it. *)
Record OpenOrder := { open_coin : string; open_oid : Z }.

Section ExchangeMethods.

Variable resolver : string -> option Z.

(** [Promise.all(xs.map((x) => this.getAssetIndex(...)))]: every index, or
    the first rejection. *)
Fixpoint all_indices (symbols : list string) : result (list Z) :=
  match symbols with
  | [] => Ok []
  | sym :: rest =>
      let* i := getAssetIndex_resume resolver sym in
      let* others := all_indices rest in
      Ok (i :: others)
  end.

(** The callback of [modifies.map((m, index) => ...)] in
    [batchModifyOrders], run over the array from left to right; a missing
    or falsy [assetIndices[index]] throws. *)
Fixpoint modify_wires (modifies : list Modify) (assetIndices : list Z)
  : outcome (list (Z * OrderWire)) :=
  match modifies with
  | [] => Done []
  | m :: rest =>
      match assetIndices with
      | [] => Throws NonExistentAssets
      | i :: others =>
          if i =? 0 then Throws NonExistentAssets
          else
            match orderToWire (modify_order m) i with
            | Err e => Throws (Signing e)
            | Ok w =>
                match modify_wires rest others with
                | Done ws => Done ((modify_oid m, w) :: ws)
                | Throws t => Throws t
                end
            end
      end
  end.

(** The [modifies] of the action [batchModifyOrders] signs. *)
Definition batchModifyOrders_modifies (modifies : list Modify)
  : outcome (list (Z * OrderWire)) :=
  match all_indices (map (fun m => coin (modify_order m)) modifies) with
  | Err e => Throws (Signing e)
  | Ok assetIndices => modify_wires modifies assetIndices
  end.

(** The [oid] and [order] of the action [modifyOrder] signs. *)
Definition modifyOrder_order (oid : Z) (orderRequest : Order)
  : outcome (Z * OrderWire) :=
  match getAssetIndex_resume resolver (coin orderRequest) with
  | Err e => Throws (Signing e)
  | Ok assetIndex =>
      match orderToWire orderRequest assetIndex with
      | Err e => Throws (Signing e)
      | Ok orderWire => Done (oid, orderWire)
      end
  end.

(** The [cancels] of the action [cancelOrder] signs: the pairs [{a, o}]. *)
Fixpoint cancelOrder_cancels (cancels : list CancelOrderRequest)
  : result (list (Z * Z)) :=
  match cancels with
  | [] => Ok []
  | req :: rest =>
      let* a := getAssetIndex_resume resolver (cancel_coin req) in
      let* cs := cancelOrder_cancels rest in
      Ok ((a, cancel_o req) :: cs)
  end.

(** [cancelAllOrders] of [custom.ts], from the open orders on:
    [convertSymbol] is the collaborator that renames coins. *)
Variable convertSymbol : string -> string.

Definition truthy_string (symbol : option string) : bool :=
  match symbol with
  | Some sym => negb (String.eqb sym "")
  | None => false
  end.

Definition ordersToCancel (symbol : option string) (openOrders : list OpenOrder)
  : list OpenOrder :=
  let converted :=
    map (fun o => {| open_coin := convertSymbol (open_coin o);
                     open_oid := open_oid o |}) openOrders in
  if truthy_string symbol then
    filter (fun o => symbol = Some (open_coin o)) converted
  else converted.

Definition cancelAllOrders (symbol : option string) (openOrders : list OpenOrder)
  : outcome (list (Z * Z)) :=
  let orders := ordersToCancel symbol openOrders in
  match orders with
  | [] => Throws NoOrdersToCancel
  | _ =>
      lift (cancelOrder_cancels
              (map (fun o => {| cancel_coin := open_coin o;
                                cancel_o := open_oid o |}) orders))
  end.

End ExchangeMethods.

(** The action objects the transfer methods of [exchange.ts] build; the
    [type] tag comes from [ExchangeType] of [src/types/constants]. *)
Definition signatureChainId_of (isMainnet : bool) : value :=
  VString (if isMainnet then "0xa4b1" else "0x66eee").

Definition transfer_action (type_tag : string) (isMainnet : bool)
    (destination : string) (amount : number) (now : number) : object :=
  [("type", VString type_tag);
   ("hyperliquidChain", chain_name isMainnet);
   ("signatureChainId", signatureChainId_of isMainnet);
   ("destination", VString destination);
   ("amount", VString (NumberToString amount));
   ("time", VNumber now)].

(** [spotTransfer] *)
Definition spot_transfer_action (type_tag : string) (isMainnet : bool)
    (destination token amount : string) (now : number) : object :=
  [("type", VString type_tag);
   ("hyperliquidChain", chain_name isMainnet);
   ("signatureChainId", signatureChainId_of isMainnet);
   ("destination", VString destination);
   ("token", VString token);
   ("amount", VString amount);
   ("time", VNumber now)].

Definition spotSendTypes : list TypeField :=
  [ {| field_name := "hyperliquidChain"; field_type := "string" |};
    {| field_name := "destination"; field_type := "string" |};
    {| field_name := "token"; field_type := "string" |};
    {| field_name := "amount"; field_type := "string" |};
    {| field_name := "time"; field_type := "uint64" |} ].

(** [transferBetweenSpotAndPerp] *)
Definition class_transfer_action (type_tag : string) (isMainnet : bool)
    (usdc : number) (toPerp : bool) (now : number) : object :=
  [("amount", VString (NumberToString usdc));
   ("hyperliquidChain", chain_name isMainnet);
   ("nonce", VNumber now);
   ("signatureChainId", signatureChainId_of isMainnet);
   ("toPerp", VBool toPerp);
   ("type", VString type_tag)].

Definition usdClassTransferTypes : list TypeField :=
  [ {| field_name := "hyperliquidChain"; field_type := "string" |};
    {| field_name := "amount"; field_type := "string" |};
    {| field_name := "toPerp"; field_type := "bool" |};
    {| field_name := "nonce"; field_type := "uint64" |} ].

(** [createAgentApprovalTypedData] of the typed-data variant of
    [exchange.ts]: the action it passes to [createAgentTypedData]. *)
Definition agent_approval_action (type_tag : string) (isMainnet : bool)
    (agentAddress agentName : string) (now : number) : object :=
  [("type", VString type_tag);
   ("agentAddress", VString agentAddress);
   ("agentName", VString agentName);
   ("signatureChainId", signatureChainId_of isMainnet);
   ("nonce", VNumber now)].

Definition keys (o : object) : list string := map fst o.

(** Every field of the schema has a value in the object. *)
Definition covers (schema : list TypeField) (o : object) : Prop :=
  Forall (fun f => field_name f ∈ keys o /\ obj_get (field_name f) o <> VUndefined)
         schema.

(** ** Further predicates *)

Definition is_finite (x : number) : bool :=
  match x with
  | S754_zero _ | S754_finite _ _ _ => true
  | _ => false
  end.

Fixpoint ends_with_zero (s : string) : bool :=
  match s with
  | "" => false
  | String c r =>
      match r with
      | "" => Ascii.eqb c "0"
      | _ => ends_with_zero r
      end
  end.

(** The text of a wire number: digits, then nothing or a point and
    digits. *)
Definition wire_text (neg : bool) (int frac : string) : string :=
  ((if neg then "-" else "") ++ int
   ++ match frac with "" => "" | _ => "." ++ frac end)%string.

(** The wire of one order once its coin is resolved. *)
Definition resolved_wire (resolver : string -> option Z) (o : Order)
  : result OrderWire :=
  rbind (getAssetIndex_resume resolver (coin o)) (orderToWire o).

(** The index of a request's coin, 0 when the resolver has none. *)
Definition resolved_index (resolver : string -> option Z) (m : Modify) : Z :=
  match resolver (coin (modify_order m)) with
  | Some i => i
  | None => 0
  end.

Definition zero_resolver (symbol : string) : option Z := Some 0.

(** * Proofs *)

(** ** The built-ins on known values *)

Example toFixed_examples :
  map (fun x => toFixed x 8)
      [num_1_5; num_2; S754_zero true; of_decimal true 1 (-9);
       num_2500_12345678; num_2500_123456785; of_decimal false 1 20;
       num_1e21; NaN; S754_infinity true]
  = ["1.50000000"; "2.00000000"; "0.00000000"; "-0.00000000";
     "2500.12345678"; "2500.12345679"; "100000000000000000000.00000000";
     "1e+21"; "NaN"; "-Infinity"].
Proof. vm_compute. reflexivity. Qed.

Example toFixed_ties :
  [toFixed (of_decimal false 1005 (-3)) 2; toFixed (of_decimal false 5 (-1)) 0;
   toFixed (of_decimal false 25 (-1)) 0; toFixed (of_decimal false 125 (-2)) 1]
  = ["1.00"; "1"; "3"; "1.3"].
Proof. vm_compute. reflexivity. Qed.

Example NumberToString_examples :
  map NumberToString
      [of_decimal false 1 (-1); of_decimal false 1 (-7);
       of_decimal false 1 (-6); of_decimal false 5 (-324);
       of_decimal false 17976931348623157 292; of_decimal false 1 20;
       of_decimal false 1 21; of_decimal false 1 23; of_Z 1337;
       sub (of_decimal false 3 (-1)) (of_decimal false 1 (-1));
       div (of_Z 1) (of_Z 3); of_Z 9007199254740993; of_decimal true 25 (-1)]
  = ["0.1"; "1e-7"; "0.000001"; "5e-324"; "1.7976931348623157e+308";
     "100000000000000000000"; "1e+21"; "1e+23"; "1337";
     "0.19999999999999998"; "0.3333333333333333"; "9007199254740992";
     "-2.5"].
Proof. vm_compute. reflexivity. Qed.

Example parseFloat_examples :
  map parseFloat ["1.5"; "  1.50000000"; "15e-1x"; ".5e1"; "-0.00000000";
                  "1e+21"; "abc"; "-Infinity"; "12e"; "."]
  = [num_1_5; num_1_5; num_1_5; of_Z 5; S754_zero true; num_1e21; NaN;
     S754_infinity true; of_Z 12; NaN].
Proof. vm_compute. reflexivity. Qed.

Example StringToNumber_examples :
  map StringToNumber ["1.5"; " 1.5 "; ""; "12px"; "0x1f"; "-0x1f"; "1e3"; "1e"]
  = [num_1_5; num_1_5; S754_zero false; NaN; of_Z 31; NaN; of_Z 1000; NaN].
Proof. vm_compute. reflexivity. Qed.

Example parseInt16_examples :
  map parseInt16 ["0xa4b1"; "0x66eee"; "ff"; "-0x10"; "undefined"; "0x"]
  = [of_Z 42161; of_Z 421614; of_Z 255; of_Z (-16); NaN; NaN].
Proof. vm_compute. reflexivity. Qed.

Example Math_round_examples :
  map Math_round
      [of_decimal false 25 (-1); of_decimal true 25 (-1);
       of_decimal true 26 (-1); of_decimal false 4 (-1);
       of_decimal true 4 (-1); of_decimal true 5 (-1);
       of_decimal false 49999999999999994 (-17); of_Z 7; NaN]
  = [of_Z 3; of_Z (-2); of_Z (-3); S754_zero false; S754_zero true;
     S754_zero true; S754_zero false; of_Z 7; NaN].
Proof. vm_compute. reflexivity. Qed.

Example NumberToBigInt_examples :
  map NumberToBigInt
      [sample_nonce; of_Z (-1); S754_zero true; num_1e30; num_1_5; NaN;
       S754_infinity false]
  = [Ok 1700000000000; Ok (-1); Ok 0; Ok 1000000000000000019884624838656;
     Err (BigIntRangeError IsFractional); Err (BigIntRangeError IsNaN);
     Err (BigIntRangeError IsInfinite)].
Proof. vm_compute. reflexivity. Qed.

Example replace_trailing_zeros_examples :
  map replace_trailing_zeros
      ["100.00000000"; "1.50000000"; "-0.00000000"; "10.01000000";
       "2500.12345678"; "1e+30"; "100"; "NaN"]
  = ["100"; "1.5"; "-0"; "10.01"; "2500.12345678"; "1e+3"; "1"; "NaN"].
Proof. vm_compute. reflexivity. Qed.

Example getBytes_examples :
  [getBytes "0x"; getBytes "0x01fF"; getBytes "0x1"; getBytes "01ff";
   getBytes "0xzz"]
  = [Ok []; Ok [1; 255]; Err (InvalidBytesLike "0x1");
     Err (InvalidBytesLike "01ff"); Err (InvalidBytesLike "0xzz")].
Proof. vm_compute. reflexivity. Qed.

Example floatToInt_examples :
  [floatToUsdInt num_1_5; floatToIntForHashing num_2500_12345678;
   floatToUsdInt (of_decimal false 12345678 (-7));
   floatToIntForHashing num_2500_123456785]
  = [Ok (of_Z 1500000); Ok (of_Z 250012345678);
     Err (FloatToIntRounding (of_decimal false 12345678 (-7)));
     Err (FloatToIntRounding num_2500_123456785)].
Proof. vm_compute. reflexivity. Qed.

(** ** Strings: the regular expression against the stripping of the
    specification *)

Lemma strip_trailing_zeros_empty (s : string) :
  strip_trailing_zeros s = "" <-> all_zeros s = true.
Proof.
  induction s as [|c r IH]; simpl.
  - split; reflexivity.
  - destruct (strip_trailing_zeros r) eqn:Hr.
    + destruct (Ascii.eqb c "0") eqn:Hc; simpl.
      * split; intros _; [apply IH|]; reflexivity.
      * split; discriminate.
    + rewrite andb_true_iff. split; [discriminate|].
      intros [_ Hz]. apply IH in Hz. discriminate.
Qed.

Lemma zeros_to_end_all_zeros (s : string) :
  zeros_to_end s = true <-> s <> "" /\ all_zeros s = true.
Proof.
  destruct s as [|c r]; simpl.
  - split; [discriminate | intros [H _]; contradiction].
  - split; [intros H; split; [discriminate | exact H] | intros [_ H]; exact H].
Qed.

Lemma matches_here_cases (c : ascii) (r : string) :
  matches_here (String c r) =
  (Ascii.eqb c "0" && all_zeros r) || (Ascii.eqb c "." && zeros_to_end r).
Proof.
  unfold matches_here.
  destruct (Ascii.eqb_spec c ".") as [->|Hne].
  - reflexivity.
  - rewrite orb_false_r.
    destruct c as [[] [] [] [] [] [] [] []]; try reflexivity.
    contradiction Hne; reflexivity.
Qed.

Lemma replace_trailing_zeros_strip (s : string) :
  ends_with_point s = false ->
  replace_trailing_zeros s = spec_strip s.
Proof.
  unfold spec_strip.
  induction s as [|c r IH]; intros Hend; [reflexivity|].
  cbn [replace_trailing_zeros strip_trailing_zeros].
  rewrite matches_here_cases.
  destruct (Ascii.eqb c "0" && all_zeros r) eqn:Hz; cbn [orb].
  { apply andb_true_iff in Hz as [Hc Hr].
    apply strip_trailing_zeros_empty in Hr. rewrite Hr, Hc. reflexivity. }
  destruct (Ascii.eqb c "." && zeros_to_end r) eqn:Hp.
  { apply andb_true_iff in Hp as [Hc Hr].
    apply zeros_to_end_all_zeros in Hr as [_ Hr].
    apply strip_trailing_zeros_empty in Hr. rewrite Hr.
    apply Ascii.eqb_eq in Hc. subst c. reflexivity. }
  destruct r as [|c' r'].
  { (* a single character, neither a zero nor a point *)
    simpl in Hend. simpl in Hz. rewrite andb_true_r in Hz.
    cbn. rewrite Hz. cbn. rewrite Hend. reflexivity. }
  assert (Hend' : ends_with_point (String c' r') = false) by exact Hend.
  rewrite (IH Hend').
  destruct (strip_trailing_zeros (String c' r')) as [|d t] eqn:Hs.
  - apply strip_trailing_zeros_empty in Hs.
    rewrite Hs, andb_true_r in Hz. rewrite Hz.
    assert (Hzz : zeros_to_end (String c' r') = true)
      by (apply zeros_to_end_all_zeros; split; [discriminate | exact Hs]).
    rewrite Hzz, andb_true_r in Hp.
    cbn. rewrite Hp. reflexivity.
  - reflexivity.
Qed.

(** ** Decimal digits and the shape of [toFixed]'s output *)

Lemma digit_char_is_digit (n : Z) :
  is_digit (digit_char (n mod 10)) = true.
Proof.
  pose proof (Z.mod_pos_bound n 10 ltac:(lia)) as Hb.
  assert (Hc : n mod 10 = 0 \/ n mod 10 = 1 \/ n mod 10 = 2 \/ n mod 10 = 3
               \/ n mod 10 = 4 \/ n mod 10 = 5 \/ n mod 10 = 6
               \/ n mod 10 = 7 \/ n mod 10 = 8 \/ n mod 10 = 9) by lia.
  repeat (destruct Hc as [Hc|Hc]; [rewrite Hc; reflexivity|]).
  rewrite Hc; reflexivity.
Qed.

Lemma digits_fuel_all_digits (fuel : nat) :
  forall n acc, all_digits acc = true ->
                all_digits (digits_fuel fuel n acc) = true.
Proof.
  induction fuel as [|f IH]; intros n acc Hacc; cbn [digits_fuel];
    [exact Hacc|].
  assert (Hacc' : all_digits (String (digit_char (n mod 10)) acc) = true)
    by (cbn [all_digits]; rewrite digit_char_is_digit, Hacc; reflexivity).
  destruct (n / 10 =? 0); [exact Hacc' | apply IH; exact Hacc'].
Qed.

Lemma digits_fuel_length (fuel : nat) :
  forall n acc, (String.length acc <= String.length (digits_fuel fuel n acc))%nat.
Proof.
  induction fuel as [|f IH]; intros n acc; cbn [digits_fuel]; [lia|].
  destruct (n / 10 =? 0); cbn [String.length]; [lia|].
  etransitivity; [|apply IH]. cbn [String.length]. lia.
Qed.

Lemma decimal_digits_all_digits (n : Z) : all_digits (decimal_digits n) = true.
Proof. apply digits_fuel_all_digits. reflexivity. Qed.

Lemma decimal_digits_nonempty (n : Z) :
  (1 <= String.length (decimal_digits n))%nat.
Proof.
  unfold decimal_digits. cbn [digits_fuel].
  destruct (n / 10 =? 0); cbn [String.length]; [lia|].
  etransitivity; [|apply digits_fuel_length]. cbn [String.length]. lia.
Qed.

Lemma all_digits_app (a b : string) :
  all_digits (a ++ b) = all_digits a && all_digits b.
Proof.
  induction a as [|c r IH]; simpl; [reflexivity|].
  rewrite IH, andb_assoc. reflexivity.
Qed.

Lemma zeros_all_digits (k : nat) : all_digits (zeros k) = true.
Proof. induction k; simpl; [reflexivity | exact IHk]. Qed.

Lemma zeros_length (k : nat) : String.length (zeros k) = k.
Proof. induction k; simpl; [reflexivity | f_equal; exact IHk]. Qed.

Lemma string_length_app (a b : string) :
  String.length (a ++ b) = (String.length a + String.length b)%nat.
Proof. induction a; simpl; [reflexivity | f_equal; assumption]. Qed.

Lemma str_drop_all_digits (k : nat) :
  forall s, all_digits s = true -> all_digits (str_drop k s) = true.
Proof.
  induction k as [|k IH]; intros [|c r] H; simpl; try exact H.
  apply IH. simpl in H. apply andb_true_iff in H as [_ H]. exact H.
Qed.

Lemma str_drop_length (k : nat) :
  forall s, String.length (str_drop k s) = (String.length s - k)%nat.
Proof.
  induction k as [|k IH]; intros [|c r]; simpl; try reflexivity; try lia.
  apply IH.
Qed.

Lemma all_digits_no_point (s : string) :
  all_digits s = true -> ends_with_point s = false.
Proof.
  induction s as [|c r IH]; simpl; [reflexivity|].
  intros H. apply andb_true_iff in H as [Hc Hr].
  destruct r as [|c' r'].
  - destruct (Ascii.eqb_spec c "."); [subst c; discriminate | reflexivity].
  - apply IH. exact Hr.
Qed.

Lemma ends_with_point_app (a b : string) :
  b <> "" -> ends_with_point (a ++ b) = ends_with_point b.
Proof.
  intros Hb. induction a as [|c r IH]; simpl; [reflexivity|].
  destruct (r ++ b) eqn:Hrb.
  - destruct r; destruct b; simpl in Hrb; try discriminate. contradiction.
  - exact IH.
Qed.

Lemma fixed_string_8_no_point (n : Z) :
  ends_with_point (fixed_string n 8) = false.
Proof.
  unfold fixed_string.
  set (m := decimal_digits n).
  set (m' := if (String.length m <=? 8)%nat
             then zeros (8 + 1 - String.length m) ++ m else m).
  assert (Hd : all_digits m' = true).
  { subst m'. destruct (String.length m <=? 8)%nat.
    - rewrite all_digits_app, zeros_all_digits. apply decimal_digits_all_digits.
    - apply decimal_digits_all_digits. }
  assert (Hl : (9 <= String.length m')%nat).
  { subst m'. pose proof (decimal_digits_nonempty n) as Hn. fold m in Hn.
    destruct (Nat.leb_spec (String.length m) 8).
    - rewrite string_length_app, zeros_length. lia.
    - lia. }
  set (d := str_drop (String.length m' - 8) m').
  assert (Hdl : String.length d = 8%nat)
    by (subst d; rewrite str_drop_length; lia).
  assert (Hdd : all_digits d = true)
    by (subst d; apply str_drop_all_digits; exact Hd).
  clearbody d.
  destruct d as [|c r]; [discriminate Hdl|].
  rewrite ends_with_point_app by discriminate.
  change ("." ++ String c r) with (String "." (String c r)).
  cbn [ends_with_point].
  apply (all_digits_no_point (String c r)). exact Hdd.
Qed.

Lemma toFixed_8_no_point (x : number) :
  below_1e21 x -> ends_with_point (toFixed x 8) = false.
Proof.
  destruct x as [sg|sg| |sg m e]; cbn [below_1e21 toFixed]; try contradiction.
  - intros _. apply fixed_string_8_no_point.
  - intros Hlt.
    destruct (Z.leb_spec (ten21 * mag_den e) (mag_num m e)); [lia|].
    pose proof (fixed_string_8_no_point
                  (nearest_scaled (mag_num m e) (mag_den e) 8)) as Hf.
    destruct sg.
    + rewrite ends_with_point_app; [exact Hf|].
      unfold fixed_string. destruct (str_take _ _); discriminate.
    + exact Hf.
Qed.

(** ** The numeric wire encoder *)

Lemma toFixed_spec_format8 (x : number) :
  below_1e21 x -> toFixed x 8 = spec_format8 x.
Proof.
  destruct x as [sg|sg| |sg m e]; cbn [below_1e21 toFixed spec_format8];
    try contradiction; try reflexivity.
  intros Hlt.
  destruct (Z.leb_spec (ten21 * mag_den e) (mag_num m e)); [lia|reflexivity].
Qed.

(** Below 10^21 the code is the encoder of the specification. *)
Lemma floatToWire_refines (x : number) :
  below_1e21 x -> floatToWire x = spec_decimalToWire x.
Proof.
  intros Hx. unfold floatToWire, spec_decimalToWire.
  rewrite <- (toFixed_spec_format8 x Hx).
  rewrite (replace_trailing_zeros_strip _ (toFixed_8_no_point x Hx)).
  reflexivity.
Qed.

(** C3 -- From 10^21 on floatToWire does not do what it does below: there
    toFixed(8) returns exponent notation, the guard compares the parse of
    that text with x and lets it pass, and the regular expression then
    strips the zeros that end the exponent.  floatToWire(1e30) returns
    "1e+3", which reads as 1000, without an error, where 1e30 formatted
    with 8 fractional digits and stripped is
    "1000000000000000019884624838656"; floatToWire(1e21) returns "1e+21"
    where the format gives "1000000000000000000000".  The four examples of
    the claim, all below 10^21, come out as the claim says, and the guard
    throws in both directions: on 2500.123456785, which toFixed rounds up,
    and on 0.123456784, which it rounds down; around 0.12345678 it lets
    through a distance of 5e-13 and throws at 1.5e-12, on either side. *)
Theorem floatToWire_exponent_notation :
  toFixed num_1e30 8 = "1e+30"
  /\ parseFloat "1e+30" = num_1e30
  /\ floatToWire num_1e30 = Ok "1e+3"
  /\ parseFloat "1e+3" = of_Z 1000
  /\ spec_decimalToWire num_1e30 = Ok "1000000000000000019884624838656"
  /\ floatToWire num_1e30 <> spec_decimalToWire num_1e30
  /\ toFixed num_1e21 8 = "1e+21"
  /\ floatToWire num_1e21 = Ok "1e+21"
  /\ spec_decimalToWire num_1e21 = Ok "1000000000000000000000"
  /\ floatToWire (S754_zero true) = Ok "0"
  /\ floatToWire num_1_5 = Ok "1.5"
  /\ floatToWire num_2 = Ok "2"
  /\ toFixed num_2500_123456785 8 = "2500.12345679"
  /\ floatToWire num_2500_123456785
     = Err (FloatToWireRounding num_2500_123456785)
  /\ toFixed num_0_123456784 8 = "0.12345678"
  /\ floatToWire num_0_123456784 = Err (FloatToWireRounding num_0_123456784)
  /\ map (fun x => is_ok (floatToWire x))
         [of_decimal false 1234567799985 (-13);
          of_decimal false 1234567799995 (-13);
          of_decimal false 1234567800005 (-13);
          of_decimal false 1234567800015 (-13)]
     = [false; true; true; false].
Proof.
  split; [vm_compute; reflexivity|].
  split; [vm_compute; reflexivity|].
  split; [vm_compute; reflexivity|].
  split; [vm_compute; reflexivity|].
  split; [vm_compute; reflexivity|].
  split; [vm_compute; discriminate|].
  split; [vm_compute; reflexivity|].
  split; [vm_compute; reflexivity|].
  split; [vm_compute; reflexivity|].
  split; [vm_compute; reflexivity|].
  split; [vm_compute; reflexivity|].
  split; [vm_compute; reflexivity|].
  split; [vm_compute; reflexivity|].
  split; [vm_compute; reflexivity|].
  split; [vm_compute; reflexivity|].
  split; [vm_compute; reflexivity|].
  vm_compute; reflexivity.
Qed.

(** ** Scaled integers *)

Lemma mag_den_pos (e : Z) : 0 < mag_den e.
Proof.
  unfold mag_den. destruct (0 <=? e) eqn:He; [lia|].
  apply Z.pow_pos_nonneg; lia.
Qed.

(** [round_half_up] is within one half of the value it rounds, the upper
    integer on a tie. *)
Lemma round_half_up_nearest (sg : bool) (m : positive) (e : Z) :
  let num := if sg then - mag_num m e else mag_num m e in
  let n := round_half_up sg m e in
  2 * n * mag_den e - mag_den e <= 2 * num < 2 * n * mag_den e + mag_den e.
Proof.
  intros num n. subst n. unfold round_half_up. fold num.
  pose proof (mag_den_pos e) as Hd.
  set (d := mag_den e) in *.
  pose proof (Z.div_mod (2 * num + d) (2 * d) ltac:(lia)) as Hdm.
  pose proof (Z.mod_pos_bound (2 * num + d) (2 * d) ltac:(lia)) as Hb.
  nia.
Qed.

(** *** Digits and exact integers *)

Lemma digits2_pos_size (p : positive) : digits2_pos p = Pos.size p.
Proof. induction p; cbn; [f_equal; assumption | f_equal; assumption | reflexivity]. Qed.

Lemma iter_xO_value (m k : positive) :
  Z.pos (Pos.iter xO m k) = Z.pos m * 2 ^ Z.pos k.
Proof.
  apply (Pos.iter_ind _ xO m (fun k a => Z.pos a = Z.pos m * 2 ^ Z.pos k)).
  - lia.
  - intros p a Ha. rewrite Pos2Z.inj_succ, Z.pow_succ_r by lia.
    rewrite Pos2Z.inj_xO, Ha. lia.
Qed.

Lemma iter_xO_digits (m k : positive) :
  Z.pos (digits2_pos (Pos.iter xO m k)) = Z.pos (digits2_pos m) + Z.pos k.
Proof.
  apply (Pos.iter_ind _ xO m
           (fun k a => Z.pos (digits2_pos a) = Z.pos (digits2_pos m) + Z.pos k)).
  - cbn [digits2_pos]. lia.
  - intros p a Ha. cbn [digits2_pos]. lia.
Qed.

Lemma digits2_pos_bound (m : positive) :
  Z.pos m < 2 ^ 53 -> Z.pos (digits2_pos m) <= 53.
Proof.
  intros Hm. rewrite digits2_pos_size.
  pose proof (Pos.size_le m) as Hle.
  assert (H : 2 ^ Z.pos (Pos.size m) <= 2 * Z.pos m).
  { rewrite <- Pos2Z.inj_pow. change (2 * Z.pos m) with (Z.pos m~0). lia. }
  destruct (Z.le_gt_cases (Z.pos (Pos.size m)) 53) as [|Hgt]; [assumption|].
  exfalso.
  assert (2 ^ 54 <= 2 ^ Z.pos (Pos.size m)) by (apply Z.pow_le_mono_r; lia).
  lia.
Qed.

(** An integer of magnitude below 2^53 is a Number exactly. *)
Lemma binary_round_exact (sg : bool) (m : positive) :
  Z.pos m < 2 ^ 53 ->
  NumberToBigInt (binary_round prec emax sg m 0)
  = Ok (if sg then - Z.pos m else Z.pos m).
Proof.
  intros Hm. pose proof (digits2_pos_bound m Hm) as Hd.
  unfold binary_round.
  set (d := Z.pos (digits2_pos m)) in *.
  assert (Hfexp : fexp prec emax (d + 0) = d - 53).
  { unfold fexp, emin, prec, emax. lia. }
  rewrite Hfexp. unfold shl_align.
  destruct (d - 53 - 0) as [|k|k] eqn:Hk; [|lia|].
  - (* 53 digits already *)
    assert (Hd53 : d = 53) by lia.
    unfold binary_round_aux, shr_fexp. cbn [Zdigits2]. fold d.
    assert (Hf0 : fexp prec emax (d + 0) - 0 = 0) by lia.
    rewrite Hf0. cbn [shr shr_record_of_loc shr_m loc_of_shr_record
                        round_nearest_even Zdigits2].
    fold d. rewrite Hf0. cbn [shr shr_record_of_loc shr_m fst snd].
    change (0 <=? emax - prec) with true. cbv iota.
    unfold NumberToBigInt, is_integral, mag_num, mag_den.
    cbn [Z.leb Z.compare]. rewrite Z.mod_1_r. cbn [Z.eqb].
    rewrite Z.div_1_r. f_equal. destruct sg; lia.
  - (* fewer digits: the mantissa is shifted left *)
    assert (Hmz : Z.pos (Pos.iter xO m k) = Z.pos m * 2 ^ Z.pos k)
      by apply iter_xO_value.
    assert (Hdz : Z.pos (digits2_pos (Pos.iter xO m k)) = d + Z.pos k)
      by apply iter_xO_digits.
    set (mz := Pos.iter xO m k) in *.
    unfold binary_round_aux, shr_fexp. cbn [Zdigits2]. rewrite Hdz.
    assert (Hf0 : fexp prec emax (d + Z.pos k + (d - 53)) - (d - 53) = 0).
    { unfold fexp, emin, prec, emax. lia. }
    rewrite Hf0. cbn [shr shr_record_of_loc shr_m loc_of_shr_record
                        round_nearest_even Zdigits2].
    rewrite Hdz, Hf0. cbn [shr shr_record_of_loc shr_m fst snd].
    assert (Hle : (d - 53 <=? emax - prec) = true)
      by (apply Z.leb_le; unfold emax, prec; lia).
    rewrite Hle.
    unfold NumberToBigInt, is_integral, mag_num, mag_den.
    assert (Hneg : (0 <=? d - 53) = false) by (apply Z.leb_gt; lia).
    rewrite Hneg.
    replace (- (d - 53)) with (Z.pos k) by lia.
    rewrite Hmz, Z.mod_mul by (apply Z.pow_nonzero; lia). cbn [Z.eqb].
    rewrite Z.div_mul by (apply Z.pow_nonzero; lia).
    f_equal.
Qed.

Lemma of_Z_exact (n : Z) :
  Z.abs n < 2 ^ 53 -> NumberToBigInt (of_Z n) = Ok n.
Proof.
  intros Hn. unfold of_Z, binary_normalize.
  destruct n as [|m|m].
  - reflexivity.
  - apply (binary_round_exact false m). lia.
  - apply (binary_round_exact true m). lia.
Qed.

Lemma round_half_up_integral (sg : bool) (m : positive) (e : Z) :
  is_integral m e = true ->
  round_half_up sg m e
  = (if sg then - (mag_num m e / mag_den e) else mag_num m e / mag_den e).
Proof.
  unfold is_integral, round_half_up. intros Hi. apply Z.eqb_eq in Hi.
  pose proof (mag_den_pos e) as Hd.
  set (num := mag_num m e) in *. set (den := mag_den e) in *.
  apply Z.mod_divide in Hi; [|lia]. destruct Hi as [q Hq].
  rewrite Hq, Z.div_mul by lia.
  replace (2 * (if sg then - (q * den) else q * den) + den)
    with ((if sg then - q else q) * (2 * den) + den) by (destruct sg; lia).
  rewrite Z.div_add_l by lia.
  rewrite (Z.div_small den (2 * den)) by lia.
  destruct sg; lia.
Qed.

(** *** Rounding to binary64

    What [binary_round_aux] does to a mantissa and an exponent, in exact
    integer arithmetic. *)

Lemma digits2_bounds (m : positive) :
  2 ^ (Z.pos (digits2_pos m) - 1) <= Z.pos m < 2 ^ Z.pos (digits2_pos m).
Proof.
  rewrite digits2_pos_size.
  pose proof (Pos.size_gt m) as Hgt. pose proof (Pos.size_le m) as Hle.
  assert (H1 : 2 ^ Z.pos (Pos.size m) <= 2 * Z.pos m).
  { rewrite <- Pos2Z.inj_pow. change (2 * Z.pos m) with (Z.pos m~0). lia. }
  assert (H2 : Z.pos m < 2 ^ Z.pos (Pos.size m)).
  { rewrite <- Pos2Z.inj_pow. lia. }
  split; [|exact H2].
  replace (Z.pos (Pos.size m)) with (Z.pos (Pos.size m) - 1 + 1) in H1 by lia.
  rewrite Z.pow_add_r in H1 by lia. lia.
Qed.

Lemma digits2_unique (m : positive) (d : Z) :
  2 ^ (d - 1) <= Z.pos m < 2 ^ d -> Z.pos (digits2_pos m) = d.
Proof.
  intros [Hlo Hhi]. pose proof (digits2_bounds m) as [Blo Bhi].
  set (d0 := Z.pos (digits2_pos m)) in *.
  assert (Hd : 0 < d).
  { destruct (Z.lt_ge_cases 0 d) as [|Hn]; [assumption|]. exfalso.
    destruct (Z.eq_dec d 0) as [->|]; [cbn in Hhi; lia|].
    rewrite (Z.pow_neg_r 2 d) in Hhi by lia. lia. }
  destruct (Z.lt_trichotomy d0 d) as [Hlt|[Heq|Hgt]]; [|exact Heq|].
  - exfalso. assert (2 ^ d0 <= 2 ^ (d - 1)) by (apply Z.pow_le_mono_r; lia). lia.
  - exfalso. assert (2 ^ d <= 2 ^ (d0 - 1)) by (apply Z.pow_le_mono_r; lia). lia.
Qed.

Lemma pow2_pred (k : Z) : 0 < k -> 2 ^ k = 2 ^ (k - 1) * 2.
Proof.
  intros Hk. replace k with (k - 1 + 1) at 1 by lia.
  rewrite Z.pow_add_r by lia. reflexivity.
Qed.

Lemma iter_pos_iter {A} (f : A -> A) (p : positive) :
  forall x, SpecFloat.iter_pos f p x = Pos.iter f x p.
Proof.
  induction p as [p IH|p IH|]; intros x; cbn [SpecFloat.iter_pos Pos.iter].
  - rewrite !IH, !Pos.iter_swap. reflexivity.
  - rewrite !IH. reflexivity.
  - reflexivity.
Qed.

Lemma shr_1_spec (m : Z) (r s : bool) :
  0 <= m ->
  shr_1 {| shr_m := m; shr_r := r; shr_s := s |}
  = {| shr_m := m / 2; shr_r := Z.odd m; shr_s := r || s |}.
Proof.
  intros Hm. rewrite <- Z.div2_div.
  destruct m as [|[p|p|]|]; try lia; reflexivity.
Qed.

Lemma shr_iter_spec (n : positive) (m : Z) :
  0 <= m ->
  Pos.iter shr_1 {| shr_m := m; shr_r := false; shr_s := false |} n
  = {| shr_m := m / 2 ^ Z.pos n;
       shr_r := Z.testbit m (Z.pos n - 1);
       shr_s := negb (m mod 2 ^ (Z.pos n - 1) =? 0) |}.
Proof.
  intros Hm. induction n as [|n IH] using Pos.peano_ind.
  - cbn [Pos.iter]. rewrite shr_1_spec by exact Hm.
    change (1 - 1) with 0.
    rewrite Z.pow_1_r, Z.pow_0_r, Z.mod_1_r, Z.bit0_odd. reflexivity.
  - rewrite Pos.iter_succ, IH.
    assert (Hp : 0 < 2 ^ Z.pos n) by (apply Z.pow_pos_nonneg; lia).
    assert (Hq : 0 < 2 ^ (Z.pos n - 1)) by (apply Z.pow_pos_nonneg; lia).
    rewrite shr_1_spec by (apply Z.div_pos; lia).
    replace (Z.pos (Pos.succ n) - 1) with (Z.pos n) by lia.
    f_equal.
    + rewrite Z.div_div by lia.
      replace (Z.pos (Pos.succ n)) with (Z.pos n + 1) by lia.
      rewrite Z.pow_add_r by lia. reflexivity.
    + rewrite Z.testbit_odd, Z.shiftr_div_pow2 by lia. reflexivity.
    + rewrite (pow2_pred (Z.pos n)) by lia.
      rewrite (Z.rem_mul_r m (2 ^ (Z.pos n - 1)) 2) by lia.
      rewrite <- (Z.testbit_spec' m (Z.pos n - 1)) by lia.
      pose proof (Z.mod_pos_bound m (2 ^ (Z.pos n - 1)) Hq) as Hb.
      destruct (Z.testbit m (Z.pos n - 1)); cbn [Z.b2z orb].
      * symmetry. apply negb_true_iff, Z.eqb_neq. lia.
      * rewrite Z.mul_0_r, Z.add_0_r. reflexivity.
Qed.

Lemma round_shift (m : Z) (n : positive) :
  0 <= m ->
  let mrs := SpecFloat.iter_pos shr_1 n {| shr_m := m; shr_r := false; shr_s := false |} in
  let q := round_nearest_even (shr_m mrs) (loc_of_shr_record mrs) in
  m / 2 ^ Z.pos n <= q <= m / 2 ^ Z.pos n + 1
  /\ 2 * Z.abs (q * 2 ^ Z.pos n - m) <= 2 ^ Z.pos n
  /\ (m mod 2 ^ Z.pos n = 0 -> q = m / 2 ^ Z.pos n).
Proof.
  intros Hm mrs q. subst q mrs. rewrite iter_pos_iter.
  rewrite shr_iter_spec by exact Hm.
  assert (Hq : 0 < 2 ^ (Z.pos n - 1)) by (apply Z.pow_pos_nonneg; lia).
  rewrite (pow2_pred (Z.pos n)) by lia.
  set (P := 2 ^ (Z.pos n - 1)) in *.
  pose proof (Z.rem_mul_r m P 2 ltac:(lia) ltac:(lia)) as HR.
  pose proof (Z.testbit_spec' m (Z.pos n - 1) ltac:(lia)) as Hbit.
  fold P in Hbit. rewrite <- Hbit in HR. clear Hbit.
  pose proof (Z.div_mod m (P * 2) ltac:(lia)) as Hdm.
  pose proof (Z.mod_pos_bound m P Hq) as Hlow.
  set (b := Z.testbit m (Z.pos n - 1)) in *.
  set (low := m mod P) in *. set (R := m mod (P * 2)) in *.
  set (d := m / (P * 2)) in *.
  cbn [shr_m loc_of_shr_record].
  destruct b; cbn [Z.b2z] in HR;
    destruct (Z.eqb_spec low 0) as [Hz|Hz]; cbn [negb round_nearest_even].
  - destruct (Z.even d); nia.
  - nia.
  - nia.
  - nia.
Qed.

Lemma fexp_eq (z : Z) : fexp prec emax z = Z.max (z - 53) (-1074).
Proof. reflexivity. Qed.

(** The second alignment of [binary_round_aux], on a mantissa that has at
    most one digit too many. *)
Lemma second_shift (sx : bool) (q : positive) (f : Z) (s : bool) (m : positive) (e : Z) :
  let d := Z.pos (digits2_pos q) in
  (fexp prec emax (d + f) = f \/ (d = 54 /\ Z.pos q = 2 ^ 53 /\ -1074 <= f)) ->
  (let '(mrs, e'') := shr_fexp prec emax (Z.pos q) f loc_Exact in
   match shr_m mrs with
   | 0 => S754_zero sx
   | Z.pos m0 => if e'' <=? emax - prec then S754_finite sx m0 e'' else S754_infinity sx
   | Z.neg _ => S754_nan
   end) = S754_finite s m e ->
  s = sx /\ valid_binary prec emax (S754_finite s m e) = true
  /\ f <= e /\ Z.pos m * 2 ^ (e - f) = Z.pos q.
Proof.
  intros d Hd. unfold shr_fexp. cbn [Zdigits2 shr_record_of_loc]. fold d.
  destruct Hd as [Hcan|(Hd54 & Hq & Hf)].
  - rewrite Hcan, Z.sub_diag. cbn [shr shr_m].
    destruct (Z.leb_spec f (emax - prec)) as [Hle|]; [|discriminate].
    intros [= <- <- <-]. split; [reflexivity|].
    split.
    { cbn [valid_binary]. unfold bounded, canonical_mantissa. fold d.
      rewrite Hcan, Z.eqb_refl. apply Z.leb_le. exact Hle. }
    split; [lia|]. rewrite Z.sub_diag. lia.
  - rewrite Hd54, fexp_eq.
    replace (Z.max (54 + f - 53) (-1074) - f) with 1 by lia.
    cbn [shr SpecFloat.iter_pos]. rewrite shr_1_spec by lia. cbn [shr_m].
    rewrite Hq. change (2 ^ 53 / 2) with (Z.pos (2 ^ 52)).
    destruct (Z.leb_spec (f + 1) (emax - prec)) as [Hle|]; [|discriminate].
    intros [= <- <- <-]. split; [reflexivity|].
    split.
    { cbn [valid_binary]. unfold bounded, canonical_mantissa.
      change (Z.pos (digits2_pos (2 ^ 52))) with 53. rewrite fexp_eq.
      replace (Z.max (53 + (f + 1) - 53) (-1074)) with (f + 1) by lia.
      rewrite Z.eqb_refl. apply Z.leb_le. exact Hle. }
    split; [lia|]. replace (f + 1 - f) with 1 by lia. reflexivity.
Qed.

Lemma binary_round_aux_finite (sx : bool) (M : positive) (E : Z)
    (s : bool) (m : positive) (e : Z) :
  let f := fexp prec emax (Z.pos (digits2_pos M) + E) in
  E <= f ->
  binary_round_aux prec emax sx (Z.pos M) E loc_Exact = S754_finite s m e ->
  s = sx
  /\ valid_binary prec emax (S754_finite s m e) = true
  /\ f <= e
  /\ 2 * Z.abs (Z.pos m * 2 ^ (e - E) - Z.pos M) <= 2 ^ (e - E)
  /\ (Z.pos M mod 2 ^ (f - E) = 0 -> Z.pos m * 2 ^ (e - E) = Z.pos M).
Proof.
  intros f Hf. unfold binary_round_aux.
  unfold shr_fexp at 1. cbn [Zdigits2 shr_record_of_loc]. fold f.
  pose proof (digits2_bounds M) as [Mlo Mhi].
  set (d := Z.pos (digits2_pos M)) in *.
  assert (Hfd : f = Z.max (d + E - 53) (-1074)) by reflexivity.
  destruct (f - E) as [|n|n] eqn:Hn; [| |lia].
  - (* no shift *)
    assert (HfE : f = E) by lia.
    cbn [shr shr_m loc_of_shr_record round_nearest_even].
    intros Hres.
    destruct (second_shift sx M E s m e) as (Hs & Hv & Hle & Hval).
    { left. fold d. fold f. exact HfE. }
    { exact Hres. }
    split; [exact Hs|]. split; [exact Hv|]. split; [lia|].
    rewrite Hval, Z.sub_diag.
    assert (0 < 2 ^ (e - E)) by (apply Z.pow_pos_nonneg; lia).
    split; [cbn [Z.abs]; lia|]. intros _. reflexivity.
  - (* a shift by n digits *)
    cbn [shr].
    pose proof (round_shift (Z.pos M) n ltac:(lia)) as (Hq & Hhalf & Hexact).
    cbv zeta in Hq, Hhalf, Hexact.
    set (mrs := SpecFloat.iter_pos shr_1 n
                  {| shr_m := Z.pos M; shr_r := false; shr_s := false |}) in *.
    set (q := round_nearest_even (shr_m mrs) (loc_of_shr_record mrs)) in *.
    replace (E + Z.pos n) with f by lia.
    assert (Hpn : 0 < 2 ^ Z.pos n) by (apply Z.pow_pos_nonneg; lia).
    assert (Hdiv : 0 <= Z.pos M / 2 ^ Z.pos n) by (apply Z.div_pos; lia).
    destruct q as [|qp|qp] eqn:Hqp; [| |lia].
    { (* rounded to zero *)
      unfold shr_fexp. cbn [Zdigits2 shr_record_of_loc].
      rewrite fexp_eq. 
      destruct (Z.max (0 + f - 53) (-1074) - f) eqn:Hz; try lia;
        cbn [shr shr_m]; discriminate. }
    intros Hres.
    (* the digits of the rounded mantissa *)
    assert (Hdn : Z.pos n <= d).
    { destruct (Z.le_gt_cases (Z.pos n) d) as [|Hgt]; [assumption|]. exfalso.
      assert (2 ^ d <= 2 ^ (Z.pos n - 1)) by (apply Z.pow_le_mono_r; lia).
      rewrite (pow2_pred (Z.pos n)) in Hhalf, Hpn by lia.
      nia. }
    set (t := d - Z.pos n) in *.
    assert (Hpt : 2 ^ d = 2 ^ t * 2 ^ Z.pos n).
    { rewrite <- Z.pow_add_r by lia. f_equal. lia. }
    assert (Hqhi : Z.pos qp <= 2 ^ t).
    { assert (Z.pos M / 2 ^ Z.pos n < 2 ^ t)
        by (apply Z.div_lt_upper_bound; lia).
      lia. }
    assert (Hqlo : 2 ^ (t - 1) <= Z.pos qp).
    { destruct (Z.eq_dec t 0) as [Ht0|Ht0].
      - rewrite Ht0. cbn. lia.
      - assert (2 ^ (t - 1) <= Z.pos M / 2 ^ Z.pos n).
        { apply Z.div_le_lower_bound; [lia|].
          replace (d - 1) with (Z.pos n + (t - 1)) in Mlo by lia.
          rewrite Z.pow_add_r in Mlo by lia. lia. }
        lia. }
    destruct (second_shift sx qp f s m e) as (Hs & Hv & Hle & Hval).
    { destruct (Z.eq_dec (Z.pos qp) (2 ^ t)) as [Heq|Hne].
      - (* the rounding carried into a new digit *)
        assert (Hdq : Z.pos (digits2_pos qp) = t + 1).
        { apply digits2_unique. replace (t + 1 - 1) with t by lia.
          rewrite Heq. split; [lia|]. rewrite Z.pow_add_r by lia. lia. }
        rewrite Hdq.
        destruct (Z.le_gt_cases (-1074) (d + E - 53)) as [Hnorm|Hsub].
        + right. assert (t = 53) by lia.
          split; [lia|]. split; [rewrite Heq; f_equal; lia | lia].
        + left. rewrite fexp_eq. lia.
      - left. 
        assert (Hdq : Z.pos (digits2_pos qp) = t).
        { apply digits2_unique. lia. }
        rewrite Hdq, fexp_eq. lia. }
    { exact Hres. }
    split; [exact Hs|]. split; [exact Hv|]. split; [exact Hle|].
    assert (He : 2 ^ (e - E) = 2 ^ (e - f) * 2 ^ Z.pos n).
    { rewrite <- Z.pow_add_r by lia. f_equal. lia. }
    assert (Hpe : 0 < 2 ^ (e - f)) by (apply Z.pow_pos_nonneg; lia).
    rewrite He. split.
    + replace (Z.pos m * (2 ^ (e - f) * 2 ^ Z.pos n))
        with (Z.pos qp * 2 ^ Z.pos n) by (rewrite <- Hval; ring).
      nia.
    + intros Hmod.
      replace (Z.pos m * (2 ^ (e - f) * 2 ^ Z.pos n))
        with (Z.pos qp * 2 ^ Z.pos n) by (rewrite <- Hval; ring).
      rewrite (Hexact Hmod).
      pose proof (Z.div_mod (Z.pos M) (2 ^ Z.pos n) ltac:(lia)). lia.
Qed.

Lemma valid_binary_bounds (sg : bool) (m : positive) (e : Z) :
  valid_binary prec emax (S754_finite sg m e) = true ->
  Z.pos m < 2 ^ 53 /\ -1074 <= e <= 971
  /\ (-1074 < e -> 2 ^ 52 <= Z.pos m).
Proof.
  cbn [valid_binary]. unfold bounded, canonical_mantissa.
  intros H. apply andb_true_iff in H as [Hc Hb].
  apply Z.eqb_eq in Hc. apply Z.leb_le in Hb. rewrite fexp_eq in Hc.
  pose proof (digits2_bounds m) as [Mlo Mhi].
  set (d := Z.pos (digits2_pos m)) in *.
  change (emax - prec) with 971 in Hb.
  assert (Hd : d <= 53) by lia.
  split.
  { assert (2 ^ d <= 2 ^ 53) by (apply Z.pow_le_mono_r; lia). lia. }
  split; [lia|].
  intros He. assert (d = 53) by lia.
  replace (d - 1) with 52 in Mlo by lia. exact Mlo.
Qed.

(** A mantissa below 2^53 at an exponent in range is a number exactly. *)
Lemma binary_round_small (sg : bool) (p : positive) (e : Z) :
  Z.pos p < 2 ^ 53 -> -1074 <= e <= 971 ->
  exists (m' : positive) (e' : Z),
    binary_round prec emax sg p e = S754_finite sg m' e'
    /\ valid_binary prec emax (S754_finite sg m' e') = true
    /\ e' <= e
    /\ Z.pos m' = Z.pos p * 2 ^ (e - e').
Proof.
  intros Hp He. pose proof (digits2_pos_bound p Hp) as Hd.
  unfold binary_round.
  set (d := Z.pos (digits2_pos p)) in *.
  rewrite fexp_eq. unfold shl_align.
  destruct (Z.max (d + e - 53) (-1074) - e) as [|k|k] eqn:Hk; [|lia|].
  - (* canonical already *)
    exists p, e.
    assert (Hcan : fexp prec emax (d + e) = e) by (rewrite fexp_eq; lia).
    split.
    { unfold binary_round_aux, shr_fexp. cbn [Zdigits2 shr_record_of_loc].
      fold d. rewrite Hcan, Z.sub_diag.
      cbn [shr shr_m loc_of_shr_record round_nearest_even Zdigits2].
      fold d. rewrite Hcan, Z.sub_diag. cbn [shr shr_m].
      destruct (Z.leb_spec e (emax - prec)) as [|Hgt]; [reflexivity|].
      change (emax - prec) with 971 in Hgt. lia. }
    split.
    { cbn [valid_binary]. unfold bounded, canonical_mantissa. fold d.
      rewrite Hcan, Z.eqb_refl. apply Z.leb_le.
      change (emax - prec) with 971. lia. }
    split; [lia|]. rewrite Z.sub_diag. lia.
  - (* fewer digits: the mantissa is shifted left *)
    set (f := Z.max (d + e - 53) (-1074)) in *.
    assert (Hmz : Z.pos (Pos.iter xO p k) = Z.pos p * 2 ^ Z.pos k)
      by apply iter_xO_value.
    assert (Hdz : Z.pos (digits2_pos (Pos.iter xO p k)) = d + Z.pos k)
      by apply iter_xO_digits.
    set (mz := Pos.iter xO p k) in *.
    exists mz, f.
    assert (Hcan : fexp prec emax (d + Z.pos k + f) = f)
      by (rewrite fexp_eq; lia).
    split.
    { unfold binary_round_aux, shr_fexp. cbn [Zdigits2 shr_record_of_loc].
      rewrite Hdz, Hcan, Z.sub_diag.
      cbn [shr shr_m loc_of_shr_record round_nearest_even Zdigits2].
      rewrite Hdz, Hcan, Z.sub_diag. cbn [shr shr_m].
      destruct (Z.leb_spec f (emax - prec)) as [|Hgt]; [reflexivity|].
      change (emax - prec) with 971 in Hgt. lia. }
    split.
    { cbn [valid_binary]. unfold bounded, canonical_mantissa.
      rewrite Hdz, Hcan, Z.eqb_refl. apply Z.leb_le.
      change (emax - prec) with 971. lia. }
    split; [lia|]. rewrite Hmz. f_equal. f_equal. lia.
Qed.

Lemma shl_align_value (mx : positive) (ex ez : Z) :
  ez <= ex -> Z.pos (fst (shl_align mx ex ez)) = Z.pos mx * 2 ^ (ex - ez).
Proof.
  intros Hle. unfold shl_align.
  destruct (ez - ex) as [|k|k] eqn:Hk; [|lia|]; cbn [fst].
  - replace (ex - ez) with 0 by lia. lia.
  - rewrite iter_xO_value. f_equal. f_equal. lia.
Qed.

(** The comparison with the literal [1e-3]. *)
Lemma geb_lit_1e_3 (m : positive) (e : Z) :
  valid_binary prec emax (S754_finite false m e) = true -> e <= 0 ->
  geb (S754_finite false m e) lit_1e_3
  = (4611686018427388 * 2 ^ (- e) <=? Z.pos m * 2 ^ 62).
Proof.
  intros Hv He. destruct (valid_binary_bounds _ _ _ Hv) as (Hm & Hr & Hn).
  unfold geb, lit_1e_3, SFleb, SFcompare.
  destruct (Z.compare_spec (-62) e) as [Heq|Hlt|Hgt].
  - subst e. change (- -62) with 62.
    change (Pos.compare_cont Eq 4611686018427388 m)
      with (Pos.compare 4611686018427388 m).
    rewrite Pos2Z.inj_compare.
    assert (H62 : 0 < 2 ^ 62) by (apply Z.pow_pos_nonneg; lia).
    destruct (Z.compare_spec 4611686018427388 (Z.pos m)) as [E|L|G];
      symmetry; [apply Z.leb_le | apply Z.leb_le | apply Z.leb_gt]; nia.
  - symmetry. apply Z.leb_le.
    specialize (Hn ltac:(lia)).
    assert (H : 2 ^ 62 = 2 ^ (- e) * 2 ^ (62 + e))
      by (rewrite <- Z.pow_add_r by lia; f_equal; lia).
    assert (H2 : 2 ^ 1 <= 2 ^ (62 + e)) by (apply Z.pow_le_mono_r; lia).
    assert (Hp : 0 < 2 ^ (- e)) by (apply Z.pow_pos_nonneg; lia).
    rewrite H. change (2 ^ 1) with 2 in H2. change (2 ^ 52) with 4503599627370496 in Hn.
    nia.
  - symmetry. apply Z.leb_gt.
    assert (H : 2 ^ (- e) = 2 ^ 62 * 2 ^ (- e - 62))
      by (rewrite <- Z.pow_add_r by lia; f_equal; lia).
    assert (H2 : 2 ^ 1 <= 2 ^ (- e - 62)) by (apply Z.pow_le_mono_r; lia).
    assert (Hp : 0 < 2 ^ 62) by (apply Z.pow_pos_nonneg; lia).
    rewrite H. change (2 ^ 1) with 2 in H2. change (2 ^ 53) with 9007199254740992 in Hm.
    nia.
Qed.

Lemma SFsub_diag (sg : bool) (m : positive) (e : Z) :
  sub (S754_finite sg m e) (S754_finite sg m e) = S754_zero false.
Proof.
  unfold sub, SFsub. cbv zeta. rewrite Z.min_id. unfold shl_align.
  rewrite Z.sub_diag. reflexivity.
Qed.

Lemma pow2_lt_inv (a b : Z) : 0 <= b -> 2 ^ a < 2 ^ b -> a < b.
Proof.
  intros Hb H. destruct (Z.lt_ge_cases a b) as [|Hge]; [assumption|].
  assert (2 ^ b <= 2 ^ a) by (apply Z.pow_le_mono_r; lia). lia.
Qed.

Lemma cond_Zopp_sub (sg : bool) (a b : Z) :
  cond_Zopp sg a - cond_Zopp sg b = cond_Zopp sg (a - b).
Proof. destruct sg; cbn [cond_Zopp]; lia. Qed.

Lemma binary_normalize_nonzero (D : Z) (e : Z) :
  D <> 0 ->
  binary_normalize prec emax D e false
  = binary_round prec emax (D <? 0) (Z.to_pos (Z.abs D)) e.
Proof. destruct D; [contradiction | reflexivity | reflexivity]. Qed.

(** The difference between a number that is not an integer and the integer
    next to it is computed exactly by the subtraction. *)
Lemma sub_rounded_magnitude (sg : bool) (p m : positive) (e : Z) :
  valid_binary prec emax (S754_finite sg m e) = true ->
  e < 0 ->
  Z.pos p < 2 ^ 53 ->
  2 * Z.abs (Z.pos p * 2 ^ (- e) - Z.pos m) <= 2 ^ (- e) ->
  Z.pos p * 2 ^ (- e) <> Z.pos m ->
  geb (Math_abs (sub (binary_round prec emax sg p 0) (S754_finite sg m e)))
      lit_1e_3
  = (4611686018427388 * 2 ^ (- e)
     <=? 2 ^ 62 * Z.abs (Z.pos p * 2 ^ (- e) - Z.pos m)).
Proof.
  intros Hv He Hp Hnear Hne.
  destruct (valid_binary_bounds _ _ _ Hv) as (Hm & Hr & Hn).
  assert (Hden : 0 < 2 ^ (- e)) by (apply Z.pow_pos_nonneg; lia).
  set (den := 2 ^ (- e)) in *.
  (* the number is at least one half, so its exponent is not small *)
  assert (He53 : -53 <= e).
  { assert (den < 2 ^ 54).
    { change (2 ^ 54) with (2 * 2 ^ 53). nia. }
    apply pow2_lt_inv in H; lia. }
  destruct (binary_round_small sg p 0 Hp ltac:(lia))
    as (mk & ek & Hk & Hvk & Hek & Hmk).
  rewrite Hk.
  destruct (valid_binary_bounds _ _ _ Hvk) as (Hmk53 & Hrk & _).
  rewrite Z.sub_0_l in Hmk.
  assert (Hpk : 0 < 2 ^ (- ek)) by (apply Z.pow_pos_nonneg; lia).
  assert (Hek52 : -53 < ek).
  { assert (2 ^ (- ek) < 2 ^ 53) by nia.
    apply pow2_lt_inv in H; lia. }
  unfold sub, SFsub. cbv zeta.
  set (ez := Z.min ek e).
  rewrite (shl_align_value mk ek ez), (shl_align_value m e ez) by lia.
  rewrite cond_Zopp_sub.
  assert (Hpz : 0 < 2 ^ (e - ez)) by (apply Z.pow_pos_nonneg; lia).
  set (F := 2 ^ (e - ez)) in *.
  assert (HA : Z.pos mk * 2 ^ (ek - ez) = Z.pos p * den * F).
  { rewrite Hmk. unfold den, F.
    rewrite <- !Z.mul_assoc, <- !Z.pow_add_r by lia.
    f_equal. f_equal. lia. }
  rewrite HA.
  replace (Z.pos p * den * F - Z.pos m * F)
    with ((Z.pos p * den - Z.pos m) * F) by ring.
  set (delta := Z.pos p * den - Z.pos m) in *.
  assert (HF : den * F = 2 ^ (- ez)).
  { unfold den, F. rewrite <- Z.pow_add_r by lia. f_equal. lia. }
  assert (HF53 : den * F <= 2 ^ 53).
  { rewrite HF. apply Z.pow_le_mono_r; lia. }
  set (D := cond_Zopp sg (delta * F)).
  assert (HD : Z.abs D = Z.abs delta * F).
  { unfold D. destruct sg; cbn [cond_Zopp];
      rewrite ?Z.abs_opp, Z.abs_mul, (Z.abs_eq F); lia. }
  assert (HD0 : D <> 0).
  { intros H0. rewrite H0 in HD. cbn [Z.abs] in HD.
    assert (Z.abs delta = 0) by nia. lia. }
  rewrite (binary_normalize_nonzero D ez HD0).
  assert (HDpos : Z.pos (Z.to_pos (Z.abs D)) = Z.abs D)
    by (apply Z2Pos.id; lia).
  destruct (binary_round_small (D <? 0) (Z.to_pos (Z.abs D)) ez)
    as (mD & eD & HrD & HvD & HeD & HmD).
  { rewrite HDpos, HD. change (2 ^ 53) with 9007199254740992 in *. nia. }
  { lia. }
  rewrite HrD. cbn [Math_abs SFabs].
  rewrite geb_lit_1e_3 by (exact HvD || lia).
  rewrite HmD, HDpos, HD.
  assert (HG : 0 < 2 ^ (ez - eD)) by (apply Z.pow_pos_nonneg; lia).
  set (G := 2 ^ (ez - eD)) in *.
  assert (HeDp : 2 ^ (- eD) = den * F * G).
  { rewrite HF. unfold G. rewrite <- Z.pow_add_r by lia. f_equal. lia. }
  rewrite HeDp.
  apply Bool.eq_iff_eq_true. rewrite !Z.leb_le.
  assert (HFG : 0 < F * G) by (apply Z.mul_pos_pos; assumption).
  replace (4611686018427388 * (den * F * G))
    with (4611686018427388 * den * (F * G)) by ring.
  replace (Z.abs delta * F * G * 2 ^ 62)
    with (2 ^ 62 * Z.abs delta * (F * G)) by ring.
  symmetry. apply Z.mul_le_mono_pos_r. exact HFG.
Qed.

Lemma not_integral_fraction (m : positive) (e : Z) :
  is_integral m e = false ->
  e < 0 /\ mag_num m e = Z.pos m /\ mag_den e = 2 ^ (- e)
  /\ forall k : Z, k * 2 ^ (- e) <> Z.pos m.
Proof.
  unfold is_integral, mag_num, mag_den. intros Hi.
  destruct (Z.leb_spec 0 e) as [|He].
  - rewrite Z.mod_1_r in Hi. discriminate Hi.
  - repeat split; [exact He|].
    intros k Hk. apply Z.eqb_neq in Hi. apply Hi.
    rewrite <- Hk. apply Z.mod_mul.
    apply Z.pow_nonzero; lia.
Qed.

Lemma floatToInt_guard (sg : bool) (m : positive) (e : Z) :
  valid_binary prec emax (S754_finite sg m e) = true ->
  let w := S754_finite sg m e in
  let den := mag_den e in
  let snum := if sg then - mag_num m e else mag_num m e in
  let k := round_half_up sg m e in
  geb (Math_abs (sub (Math_round w) w)) lit_1e_3
  = (4611686018427388 * den <=? 2 ^ 62 * Z.abs (k * den - snum)).
Proof.
  intros Hv w den snum k.
  pose proof (round_half_up_nearest sg m e) as Hnear. cbv zeta in Hnear.
  fold den in Hnear. fold snum in Hnear. fold k in Hnear.
  pose proof (mag_den_pos e) as Hden. fold den in Hden.
  subst w. cbn [Math_round].
  destruct (is_integral m e) eqn:Hi.
  - (* an integer already *)
    rewrite SFsub_diag.
    assert (Hk : k * den - snum = 0).
    { subst k. rewrite (round_half_up_integral sg m e Hi).
      unfold is_integral in Hi. apply Z.eqb_eq in Hi.
      pose proof (Z.div_mod (mag_num m e) (mag_den e) ltac:(lia)) as Hdm.
      rewrite Hi in Hdm. subst snum den. destruct sg; lia. }
    rewrite Hk. cbn [Z.abs]. rewrite Z.mul_0_r.
    symmetry. apply Z.leb_gt. lia.
  - destruct (not_integral_fraction m e Hi) as (He & Hnum & Hd & Hfrac).
    assert (Hsnum : snum = if sg then - Z.pos m else Z.pos m)
      by (subst snum; rewrite Hnum; reflexivity).
    assert (Hd' : den = 2 ^ (- e)) by exact Hd.
    clearbody snum den. subst snum den.
    destruct (valid_binary_bounds _ _ _ Hv) as (Hm & _ & _).
    fold k. destruct k as [|p|p] eqn:Hk.
    + (* rounds to zero *)
      change (sub (S754_zero sg) (S754_finite sg m e))
        with (S754_finite (negb sg) m e).
      cbn [Math_abs SFabs]. rewrite geb_lit_1e_3 by (exact Hv || lia).
      f_equal. rewrite Z.mul_0_l, Z.sub_0_l, Z.abs_opp.
      destruct sg; rewrite ?Z.abs_opp;
        change (Z.abs (Z.pos m)) with (Z.pos m); ring.
    + (* a positive integer: the number is positive *)
      assert (sg = false) by (destruct sg; [nia | reflexivity]). subst sg.
      change (of_Z (Z.pos p)) with (binary_round prec emax false p 0).
      apply sub_rounded_magnitude; [exact Hv | exact He | | | apply Hfrac].
      * change (2 ^ 53) with 9007199254740992 in *. nia.
      * lia.
    + (* a negative integer: the number is negative *)
      assert (sg = true) by (destruct sg; [reflexivity | nia]). subst sg.
      change (of_Z (Z.neg p)) with (binary_round prec emax true p 0).
      replace (Z.abs (Z.neg p * 2 ^ (- e) - - Z.pos m))
        with (Z.abs (Z.pos p * 2 ^ (- e) - Z.pos m)) by lia.
      apply sub_rounded_magnitude; [exact Hv | exact He | | | apply Hfrac].
      * change (2 ^ 53) with 9007199254740992 in *. nia.
      * lia.
Qed.

Lemma mag_num_split (m : positive) (t : Z) :
  mag_num m t = Z.pos m * (if 0 <=? t then 2 ^ t else 1).
Proof. unfold mag_num. destruct (0 <=? t); lia. Qed.

Lemma pow2_ratio (e ex u : Z) :
  0 <= u -> 0 <= e - ex + u ->
  2 ^ (e - ex + u) * ((if 0 <=? ex then 2 ^ ex else 1) * mag_den e)
  = (if 0 <=? e then 2 ^ e else 1) * mag_den ex * 2 ^ u.
Proof.
  intros Hu Ha. unfold mag_den.
  destruct (Z.leb_spec 0 ex), (Z.leb_spec 0 e);
    rewrite ?Z.mul_1_r, ?Z.mul_1_l, <- ?Z.pow_add_r by lia;
    f_equal; lia.
Qed.

Lemma scale_bound (m X Pa A Q U : Z) :
  0 < U -> 0 < A -> Pa * A = Q * U ->
  2 * Z.abs (m * Pa - X * U) <= Pa ->
  2 * Z.abs (m * Q - X * A) <= Q.
Proof.
  intros HU HA Heq Hb.
  assert (E1 : (m * Pa - X * U) * A = (m * Q - X * A) * U).
  { replace ((m * Pa - X * U) * A) with (m * (Pa * A) - X * U * A) by ring.
    rewrite Heq. ring. }
  assert (E2 : Z.abs (m * Pa - X * U) * A = Z.abs (m * Q - X * A) * U).
  { rewrite <- (Z.abs_eq A) at 1 by lia. rewrite <- (Z.abs_eq U) at 2 by lia.
    rewrite <- !Z.abs_mul, E1. reflexivity. }
  apply (Z.mul_le_mono_pos_r _ _ U HU).
  rewrite <- Heq. nia.
Qed.

Lemma digits2_shift (x y : positive) (k : Z) :
  0 <= k -> Z.pos y = Z.pos x * 2 ^ k ->
  Z.pos (digits2_pos y) = Z.pos (digits2_pos x) + k.
Proof.
  intros Hk Hy. apply digits2_unique.
  pose proof (digits2_bounds x) as [Lo Hi].
  set (d := Z.pos (digits2_pos x)) in *.
  assert (Hpk : 0 < 2 ^ k) by (apply Z.pow_pos_nonneg; lia).
  replace (d + k - 1) with (d - 1 + k) by lia.
  rewrite !Z.pow_add_r, Hy by lia. nia.
Qed.

Lemma digits2_mul (x y : positive) :
  Z.pos (digits2_pos x) + Z.pos (digits2_pos y) - 1
  <= Z.pos (digits2_pos (x * y)).
Proof.
  pose proof (digits2_bounds x) as [Lx _].
  pose proof (digits2_bounds y) as [Ly _].
  pose proof (digits2_bounds (x * y)) as [_ Hxy].
  set (dx := Z.pos (digits2_pos x)) in *.
  set (dy := Z.pos (digits2_pos y)) in *.
  set (d := Z.pos (digits2_pos (x * y))) in *.
  destruct (Z.le_gt_cases (dx + dy - 1) d) as [|Hgt]; [assumption|]. exfalso.
  assert (H : 2 ^ d <= 2 ^ (dx - 1 + (dy - 1)))
    by (apply Z.pow_le_mono_r; lia).
  rewrite Z.pow_add_r in H by lia.
  rewrite Pos2Z.inj_mul in Hxy. nia.
Qed.

(** The product with a number of mantissa [T * 2^u], 53 digits long, and
    exponent [-u] is the correctly rounded [T]-fold. *)
Lemma mul_scaled (sx : bool) (mx : positive) (ex : Z) (my : positive)
    (T u : Z) (sg : bool) (m : positive) (e : Z) :
  Z.pos (digits2_pos my) = 53 -> 0 < T -> 0 <= u -> Z.pos my = T * 2 ^ u ->
  mul (S754_finite sx mx ex) (S754_finite false my (- u))
  = S754_finite sg m e ->
  sg = sx
  /\ valid_binary prec emax (S754_finite sg m e) = true
  /\ 2 * Z.abs (mag_num m e * mag_den ex - mag_num mx ex * T * mag_den e)
     <= (if 0 <=? e then 2 ^ e else 1) * mag_den ex
  /\ (forall n : Z,
        mag_num mx ex * T = n * mag_den ex -> n < 2 ^ 53 ->
        mag_num m e = n * mag_den e).
Proof.
  intros Hdy HT Hu Hmy Hmul.
  unfold mul, SFmul in Hmul. rewrite xorb_false_r in Hmul.
  set (M := (mx * my)%positive) in *. set (E := ex + - u) in *.
  pose proof (digits2_mul mx my) as HdM. fold M in HdM. rewrite Hdy in HdM.
  assert (Hdx : 1 <= Z.pos (digits2_pos mx)) by lia.
  destruct (binary_round_aux_finite sx M E sg m e) as (Hs & Hv & Hfe & Hhalf & Hexact).
  { rewrite fexp_eq. lia. }
  { exact Hmul. }
  cbv zeta in Hfe, Hexact.
  assert (HfE : E <= fexp prec emax (Z.pos (digits2_pos M) + E))
    by (rewrite fexp_eq; lia).
  split; [exact Hs|]. split; [exact Hv|].
  assert (HU : 0 < 2 ^ u) by (apply Z.pow_pos_nonneg; lia).
  pose proof (mag_den_pos e) as Hde. pose proof (mag_den_pos ex) as Hdex.
  assert (HNex : 0 < (if 0 <=? ex then 2 ^ ex else 1)).
  { destruct (Z.leb_spec 0 ex); [apply Z.pow_pos_nonneg; lia | lia]. }
  pose proof (pow2_ratio e ex u Hu ltac:(unfold E in *; lia)) as Hratio.
  replace (e - ex + u) with (e - E) in Hratio by (unfold E; lia).
  assert (HM : Z.pos M = Z.pos mx * T * 2 ^ u).
  { unfold M. rewrite Pos2Z.inj_mul, Hmy. ring. }
  rewrite !mag_num_split.
  set (Nx := if 0 <=? ex then 2 ^ ex else 1) in *.
  set (Ne := if 0 <=? e then 2 ^ e else 1) in *.
  split.
  - replace (Z.pos m * Ne * mag_den ex - Z.pos mx * Nx * T * mag_den e)
      with (Z.pos m * (Ne * mag_den ex) - Z.pos mx * T * (Nx * mag_den e))
      by ring.
    apply (scale_bound (Z.pos m) (Z.pos mx * T) (2 ^ (e - E))
             (Nx * mag_den e) (Ne * mag_den ex) (2 ^ u));
      [exact HU | nia | exact Hratio |].
    rewrite <- HM. exact Hhalf.
  - intros n Hprod Hn.
    assert (Hnpos : 0 < n) by nia.
    (* M * Nx = n * (mag_den ex * 2^u), all factors but M and n powers of 2 *)
    assert (C1 : Z.pos M * Nx = n * (mag_den ex * 2 ^ u)).
    { rewrite HM. replace (Z.pos mx * T * 2 ^ u * Nx)
        with (Z.pos mx * Nx * T * 2 ^ u) by ring.
      rewrite Hprod. ring. }
    destruct n as [|np|np]; [lia| |lia].
    pose proof (digits2_pos_bound np Hn) as Hdn.
    assert (Hdig : Z.pos (digits2_pos M) + E = Z.pos (digits2_pos np)
                   /\ (E < 0 -> Z.pos M = Z.pos np * 2 ^ (- E))).
    { unfold E, Nx, mag_den in *.
      destruct (Z.leb_spec 0 ex) as [Hex|Hex].
      - rewrite Z.mul_1_l in C1.
        set (V := Z.to_pos (Z.pos M * 2 ^ ex)).
        assert (HV : Z.pos V = Z.pos M * 2 ^ ex).
        { unfold V. apply Z2Pos.id.
          assert (0 < 2 ^ ex) by (apply Z.pow_pos_nonneg; lia). nia. }
        pose proof (digits2_shift M V ex Hex HV) as D1.
        pose proof (digits2_shift np V u Hu ltac:(lia)) as D2.
        split; [lia|]. intros Hneg.
        assert (H2 : 2 ^ u = 2 ^ ex * 2 ^ (- (ex + - u)))
          by (rewrite <- Z.pow_add_r by lia; f_equal; lia).
        assert (0 < 2 ^ ex) by (apply Z.pow_pos_nonneg; lia).
        rewrite H2 in C1. nia.
      - rewrite Z.mul_1_r in C1.
        assert (H2 : 2 ^ (- ex) * 2 ^ u = 2 ^ (- (ex + - u)))
          by (rewrite <- Z.pow_add_r by lia; f_equal; lia).
        rewrite H2 in C1.
        pose proof (digits2_shift np M (- (ex + - u)) ltac:(lia) C1) as D1.
        split; [lia|]. intros _. exact C1. }
    destruct Hdig as [Hdig HME].
    assert (Hmod : Z.pos M mod 2 ^ (fexp prec emax (Z.pos (digits2_pos M) + E) - E)
                   = 0).
    { rewrite Hdig, fexp_eq.
      pose proof (digits2_bounds np) as _.
      assert (1 <= Z.pos (digits2_pos np)) by lia.
      replace (Z.max (Z.pos (digits2_pos np) - 53) (-1074))
        with (Z.pos (digits2_pos np) - 53) by lia.
      set (sh := Z.pos (digits2_pos np) - 53 - E).
      assert (0 <= sh) by (rewrite Hdig, fexp_eq in HfE; unfold sh; lia).
      destruct (Z.eq_dec sh 0) as [->|Hsh]; [apply Z.mod_1_r|].
      rewrite (HME ltac:(unfold sh in *; lia)).
      replace (- E) with (53 - Z.pos (digits2_pos np) + sh) by (unfold sh; lia).
      rewrite Z.pow_add_r, Z.mul_assoc by lia.
      apply Z.mod_mul. apply Z.pow_nonzero; lia. }
    specialize (Hexact Hmod).
    (* cancel the common power of two *)
    assert (Hc : Z.pos m * Ne * (mag_den ex * 2 ^ u)
                 = Z.pos np * mag_den e * (mag_den ex * 2 ^ u)).
    { replace (Z.pos m * Ne * (mag_den ex * 2 ^ u))
        with (Z.pos m * (Ne * mag_den ex * 2 ^ u)) by ring.
      rewrite <- Hratio.
      replace (Z.pos m * (2 ^ (e - E) * (Nx * mag_den e)))
        with (Z.pos m * 2 ^ (e - E) * Nx * mag_den e) by ring.
      rewrite Hexact, C1. ring. }
    apply Z.mul_cancel_r in Hc; [exact Hc | nia].
Qed.

(** The literal [1e-3] against the fraction 1/1000: no difference of a
    number and its rounding lies between the two. *)
Lemma threshold_1e_3 (sg : bool) (m : positive) (e : Z) :
  valid_binary prec emax (S754_finite sg m e) = true ->
  let den := mag_den e in
  let snum := if sg then - mag_num m e else mag_num m e in
  let k := round_half_up sg m e in
  (4611686018427388 * den <=? 2 ^ 62 * Z.abs (k * den - snum))
  = (den <=? 1000 * Z.abs (k * den - snum)).
Proof.
  intros Hv den snum k.
  pose proof (round_half_up_nearest sg m e) as Hnear. cbv zeta in Hnear.
  fold den in Hnear. fold snum in Hnear. fold k in Hnear.
  pose proof (mag_den_pos e) as Hden. fold den in Hden.
  destruct (valid_binary_bounds _ _ _ Hv) as (Hm & _ & _).
  apply Bool.eq_iff_eq_true. rewrite !Z.leb_le.
  set (j := Z.abs (k * den - snum)) in *.
  assert (Hj : 0 <= j) by (unfold j; lia).
  change (2 ^ 62) with 4611686018427387904.
  split; [nia|]. intros Hge.
  destruct (Z.leb_spec 0 e) as [He|He].
  { (* an integer: no difference at all *)
    assert (den = 1) by (unfold den, mag_den; destruct (Z.leb_spec 0 e); lia).
    nia. }
  assert (Hd : den = 2 ^ (- e))
    by (unfold den, mag_den; destruct (Z.leb_spec 0 e); lia).
  assert (Hs : Z.abs snum = Z.pos m).
  { unfold snum, mag_num. destruct (Z.leb_spec 0 e); [lia|].
    destruct sg; lia. }
  destruct (Z.le_gt_cases (- e) 62) as [Ht|Ht].
  - assert (H62 : 4611686018427387904 = den * 2 ^ (62 + e)).
    { rewrite Hd, <- Z.pow_add_r by lia.
      replace (- e + (62 + e)) with 62 by lia. reflexivity. }
    assert (HH : 0 < 2 ^ (62 + e)) by (apply Z.pow_pos_nonneg; lia).
    set (H := 2 ^ (62 + e)) in *.
    assert (Hy : 4611686018427388 <= H * j) by nia.
    rewrite H62. nia.
  - exfalso.
    assert (H63 : 2 ^ 63 <= den) by (rewrite Hd; apply Z.pow_le_mono_r; lia).
    change (2 ^ 63) with 9223372036854775808 in H63.
    change (2 ^ 53) with 9007199254740992 in Hm.
    assert (Hk : k = 0) by nia.
    unfold j in Hge. rewrite Hk in Hge. 
    replace (0 * den - snum) with (- snum) in Hge by lia.
    rewrite Z.abs_opp, Hs in Hge. lia.
Qed.

Lemma Math_round_integer (sg : bool) (m : positive) (e : Z) :
  valid_binary prec emax (S754_finite sg m e) = true ->
  NumberToBigInt (Math_round (S754_finite sg m e))
  = Ok (round_half_up sg m e).
Proof.
  intros Hv. cbn [Math_round].
  destruct (is_integral m e) eqn:Hi.
  - cbn [NumberToBigInt]. rewrite Hi.
    rewrite (round_half_up_integral sg m e Hi). reflexivity.
  - destruct (not_integral_fraction m e Hi) as (He & Hnum & Hd & _).
    destruct (valid_binary_bounds _ _ _ Hv) as (Hm & _ & _).
    pose proof (round_half_up_nearest sg m e) as Hnear. cbv zeta in Hnear.
    rewrite Hnum, Hd in Hnear.
    assert (H2 : 2 ^ 1 <= 2 ^ (- e)) by (apply Z.pow_le_mono_r; lia).
    change (2 ^ 1) with 2 in H2.
    change (2 ^ 53) with 9007199254740992 in Hm.
    set (k := round_half_up sg m e) in *.
    assert (Hk : Z.abs k < 2 ^ 53).
    { change (2 ^ 53) with 9007199254740992. destruct sg; nia. }
    destruct k as [|p|p] eqn:Hkv.
    + reflexivity.
    + change (NumberToBigInt (of_Z (Z.pos p)) = Ok (Z.pos p)).
      apply of_Z_exact. exact Hk.
    + change (NumberToBigInt (of_Z (Z.neg p)) = Ok (Z.neg p)).
      apply of_Z_exact. exact Hk.
Qed.

(** C9 (as amended) -- For a finite number x whose binary64 product w
    with 10^8 (floatToIntForHashing) or 10^6 (floatToUsdInt) is finite: w
    is the correctly rounded product, a valid binary64 number of the sign
    of x within half a unit in its last place of x * 10^p; Math.round
    gives the integer k nearest to w, the upper one on a tie, and gives it
    exactly; the encoder throws the rounding error exactly when k differs
    from w by at least 1/1000 and returns k otherwise; and when x * 10^p
    is itself an integer n below 2^53, w is n and the encoder returns
    n.  A zero is returned as it is. *)
Theorem floatToInt_scaled_rounding (sx : bool) (mx : positive) (ex : Z)
    (power : Z) (sg : bool) (m : positive) (e : Z) :
  power = 8 \/ power = 6 ->
  mul (S754_finite sx mx ex) (Math_pow10 power) = S754_finite sg m e ->
  let x := S754_finite sx mx ex in
  let w := S754_finite sg m e in
  let num := mag_num m e in
  let den := mag_den e in
  let snum := if sg then - num else num in
  let k := round_half_up sg m e in
  let lossy := den <=? 1000 * Z.abs (k * den - snum) in
  let encoded :=
    if power =? 8 then floatToIntForHashing x else floatToUsdInt x in
  (sg = sx
   /\ valid_binary prec emax w = true
   /\ 2 * Z.abs (num * mag_den ex - mag_num mx ex * 10 ^ power * den)
      <= (if 0 <=? e then 2 ^ e else 1) * mag_den ex)
  /\ 2 * k * den - den <= 2 * snum < 2 * k * den + den
  /\ encoded
     = (if lossy then Err (FloatToIntRounding x) else Ok (Math_round w))
  /\ NumberToBigInt (Math_round w) = Ok k
  /\ (forall n : Z,
        mag_num mx ex * 10 ^ power = n * mag_den ex -> n < 2 ^ 53 ->
        num = n * den
        /\ k = (if sx then - n else n)
        /\ encoded = Ok (Math_round w))
  /\ (forall s : bool,
        floatToIntForHashing (S754_zero s) = Ok (S754_zero s)
        /\ floatToUsdInt (S754_zero s) = Ok (S754_zero s)).
Proof.
  intros Hpower Hmul x w num den snum k lossy encoded.
  assert (Hzero : forall s : bool,
            floatToIntForHashing (S754_zero s) = Ok (S754_zero s)
            /\ floatToUsdInt (S754_zero s) = Ok (S754_zero s)).
  { intros s. destruct s; split; reflexivity. }
  assert (Henc : encoded = floatToInt x power).
  { subst encoded. destruct Hpower as [-> | ->]; reflexivity. }
  clearbody encoded. subst encoded.
  assert (Hscaled : exists (my : positive) (u : Z),
            Math_pow10 power = S754_finite false my (- u)
            /\ Z.pos (digits2_pos my) = 53 /\ 0 <= u
            /\ Z.pos my = 10 ^ power * 2 ^ u).
  { destruct Hpower as [-> | ->].
    - exists 6710886400000000%positive, 26. repeat split; lia.
    - exists 8589934592000000%positive, 33. repeat split; lia. }
  destruct Hscaled as (my & u & Hy & Hdy & Hu & Hmy).
  assert (HT : 0 < 10 ^ power) by (destruct Hpower as [-> | ->]; lia).
  pose proof Hmul as Hmul'. rewrite Hy in Hmul'.
  destruct (mul_scaled sx mx ex my (10 ^ power) u sg m e Hdy HT Hu Hmy Hmul')
    as (Hs & Hv & Hhalf & Hexact).
  pose proof (round_half_up_nearest sg m e) as Hnear. cbv zeta in Hnear.
  assert (Hguard : floatToInt x power
     = (if lossy then Err (FloatToIntRounding x) else Ok (Math_round w))).
  { unfold floatToInt. subst x. rewrite Hmul.
    rewrite (floatToInt_guard sg m e Hv), (threshold_1e_3 sg m e Hv).
    reflexivity. }
  split; [split; [exact Hs | split; [exact Hv | exact Hhalf]]|].
  split; [exact Hnear|].
  split; [exact Hguard|].
  split; [apply Math_round_integer; exact Hv|].
  split; [|exact Hzero].
  intros n Hprod Hn. specialize (Hexact n Hprod Hn).
  pose proof (mag_den_pos e) as Hden.
  assert (Hk : k = if sx then - n else n).
  { fold num den in Hnear, Hexact. fold k in Hnear. fold den in Hden.
    rewrite Hexact in Hnear. rewrite <- Hs. clearbody k den.
    destruct sg.
    - assert (2 * k - 1 <= 2 * - n)
        by (apply (Z.mul_le_mono_pos_r _ _ den Hden); lia).
      assert (2 * - n < 2 * k + 1)
        by (apply (Z.mul_lt_mono_pos_r den _ _ Hden); lia).
      lia.
    - assert (2 * k - 1 <= 2 * n)
        by (apply (Z.mul_le_mono_pos_r _ _ den Hden); lia).
      assert (2 * n < 2 * k + 1)
        by (apply (Z.mul_lt_mono_pos_r den _ _ Hden); lia).
      lia. }
  split; [exact Hexact|]. split; [exact Hk|].
  assert (Hz : k * den - snum = 0).
  { rewrite Hk, <- Hs. unfold snum, num, den. rewrite Hexact.
    destruct sg; ring. }
  rewrite Hguard. unfold lossy. rewrite Hz.
  cbn [Z.abs]. rewrite Z.mul_0_r.
  destruct (Z.leb_spec den 0); [lia | reflexivity].
Qed.

Lemma floatToInt_scaled_rounding_witness :
  floatToIntForHashing num_2500_12345678 = Ok (of_Z 250012345678)
  /\ floatToIntForHashing num_0_123456784
     = Err (FloatToIntRounding num_0_123456784)
  /\ floatToUsdInt num_1_5 = Ok (of_Z 1500000).
Proof.
  split; [|split].
  - destruct (floatToInt_scaled_rounding false 5497829623210276 (-41) 8
                false 8192404543176705 (-15))
      as (_ & _ & Hguard & _).
    + left. reflexivity.
    + vm_compute. reflexivity.
    + etransitivity; [exact Hguard | vm_compute; reflexivity].
  - destruct (floatToInt_scaled_rounding false 8895998822700157 (-56) 8
                false 6628035621866701 (-29))
      as (_ & _ & Hguard & _).
    + left. reflexivity.
    + vm_compute. reflexivity.
    + etransitivity; [exact Hguard | vm_compute; reflexivity].
  - destruct (floatToInt_scaled_rounding false 6755399441055744 (-52) 6
                false 6442450944000000 (-32))
      as (_ & _ & _ & _ & Hexact & _).
    + right. reflexivity.
    + vm_compute. reflexivity.
    + destruct (Hexact 1500000) as (_ & _ & Hok).
      * vm_compute. reflexivity.
      * vm_compute. reflexivity.
      * etransitivity; [exact Hok | vm_compute; reflexivity].
Defined.

(** On NaN and on an infinity the encoders return the input, which is not
    an integer, and throw nothing.  On 123456789012.5, where x * 10^8 is
    the integer 12345678901250000000 exactly, floatToIntForHashing returns
    12345678901250000896 without an error: the product is rounded to
    binary64 before the guard looks at it. *)
Lemma floatToInt_scaled_counterexample :
  floatToIntForHashing NaN = Ok NaN
  /\ NumberToBigInt NaN = Err (BigIntRangeError IsNaN)
  /\ floatToUsdInt (S754_infinity false) = Ok (S754_infinity false)
  /\ num_123456789012_5 = S754_finite false 8090864124723200 (-16)
  /\ mag_num 8090864124723200 (-16) * 10 ^ 8
     = 12345678901250000000 * mag_den (-16)
  /\ (exists r : number,
        floatToIntForHashing num_123456789012_5 = Ok r
        /\ NumberToBigInt r = Ok 12345678901250000896).
Proof.
  split; [vm_compute; reflexivity|].
  split; [vm_compute; reflexivity|].
  split; [vm_compute; reflexivity|].
  split; [vm_compute; reflexivity|].
  split; [vm_compute; reflexivity|].
  exists (S754_finite false 6028163526000977 11).
  split; vm_compute; reflexivity.
Qed.

(** ** Bytes *)

Local Open Scope list_scope.

Lemma u8_set_splice (pre mid post src : bytes) :
  length mid = length src ->
  u8_set (pre ++ mid ++ post) src (length pre) = Ok (pre ++ src ++ post).
Proof.
  intros Hlen. unfold u8_set.
  rewrite !length_app, Hlen.
  destruct (Nat.leb_spec (length pre + length src)
              (length pre + (length src + length post))); [|lia].
  rewrite take_app_length, drop_app_add.
  rewrite <- Hlen, drop_app_length. reflexivity.
Qed.

Lemma be_bytes_length (n : nat) (v : Z) : length (be_bytes n v) = n.
Proof. induction n; simpl; [reflexivity | f_equal; exact IHn]. Qed.

Lemma be_value_be_bytes (n : nat) (v : Z) :
  be_value (be_bytes n v) = v mod 2 ^ (8 * Z.of_nat n).
Proof.
  induction n as [|k IH].
  - cbn [be_bytes be_value]. rewrite Z.mul_0_r, Z.pow_0_r, Z.mod_1_r.
    reflexivity.
  - cbn [be_bytes be_value]. rewrite be_bytes_length, IH.
    change 255 with (Z.ones 8).
    rewrite Z.land_ones, Z.shiftr_div_pow2 by lia.
    replace (8 * Z.of_nat (S k)) with (8 * Z.of_nat k + 8) by lia.
    rewrite Z.pow_add_r by lia.
    rewrite (Z.rem_mul_r v (2 ^ (8 * Z.of_nat k)) (2 ^ 8)) by lia.
    lia.
Qed.

(** BigInt(x) is the integer value of [x] when it has one, and throws
    otherwise. *)
Lemma NumberToBigInt_integer (x : number) (n : Z) :
  integer_value x n -> NumberToBigInt x = Ok n.
Proof.
  destruct x as [sg|sg| |sg m e]; cbn [integer_value NumberToBigInt];
    try contradiction.
  - intros ->. reflexivity.
  - intros Hint. pose proof (mag_den_pos e) as Hd.
    assert (Hnum : mag_num m e = (if sg then - n else n) * mag_den e)
      by (destruct sg; lia).
    unfold is_integral. rewrite Hnum, Z.mod_mul by lia. cbn [Z.eqb].
    rewrite Z.div_mul by lia. f_equal. destruct sg; lia.
Qed.

Lemma NumberToBigInt_not_integer (x : number) :
  (forall n : Z, ~ integer_value x n) ->
  exists c, NumberToBigInt x = Err (BigIntRangeError c).
Proof.
  intros Hnot.
  destruct x as [sg|sg| |sg m e]; cbn [NumberToBigInt].
  - exfalso. apply (Hnot 0). reflexivity.
  - eexists; reflexivity.
  - eexists; reflexivity.
  - destruct (is_integral m e) eqn:Hi; [|eexists; reflexivity].
    exfalso. unfold is_integral in Hi. apply Z.eqb_eq in Hi.
    pose proof (mag_den_pos e) as Hd.
    apply Z.mod_divide in Hi; [|lia]. destruct Hi as [q Hq].
    apply (Hnot (if sg then - q else q)). cbn [integer_value].
    destruct sg; lia.
Qed.

Section ActionHashProofs.

Context {Action : Type}.
Variable encode : Action -> bytes.
Variable keccak256 : bytes -> string.

(** The buffer once the nonce converts to a BigInt. *)
Lemma actionHashData_layout (action : Action) (vaultAddress : option string)
    (nonce : number) (n : Z) (addr : bytes) :
  NumberToBigInt nonce = Ok n ->
  vault_ok vaultAddress addr ->
  actionHashData encode action vaultAddress nonce =
  Ok (encode action ++ be_bytes 8 (n mod 2 ^ 64)
        ++ [vault_flag vaultAddress] ++ addr).
Proof.
  intros Hn [Hbytes Hlen]. unfold actionHashData.
  set (msg := encode action).
  set (be := be_bytes 8 (n mod 2 ^ 64)).
  assert (Hbe : length be = 8%nat) by apply be_bytes_length.
  rewrite Hn.
  destruct vaultAddress as [a|]; cbn [vault_flag vault_bytes] in *.
  - specialize (Hlen ltac:(discriminate)).
    replace (new_Uint8Array (length msg + 29))
      with ([] ++ repeat 0 (length msg) ++ repeat 0 29)
      by (unfold new_Uint8Array; rewrite repeat_app; reflexivity).
    rewrite (u8_set_splice [] _ _ msg) by apply repeat_length.
    cbn [rbind app]. unfold setBigUint64. fold be.
    change (repeat 0 29) with (repeat 0 8 ++ repeat 0 21).
    rewrite (u8_set_splice msg (repeat 0 8) _ be) by (rewrite Hbe; reflexivity).
    cbn [rbind]. unfold setUint8.
    replace (length msg + 8)%nat with (length (msg ++ be))
      by (rewrite length_app, Hbe; reflexivity).
    replace (msg ++ be ++ repeat 0 21)
      with ((msg ++ be) ++ [0] ++ repeat 0 20)
      by (rewrite <- app_assoc; reflexivity).
    rewrite (u8_set_splice (msg ++ be) [0] _ [1 mod 256]) by reflexivity.
    cbn [rbind]. unfold addressToBytes. rewrite Hbytes. cbn [rbind].
    replace (length msg + 9)%nat with (length ((msg ++ be) ++ [1 mod 256]))
      by (rewrite !length_app, Hbe; cbn [length]; lia).
    replace ((msg ++ be) ++ [1 mod 256] ++ repeat 0 20)
      with (((msg ++ be) ++ [1 mod 256]) ++ repeat 0 20 ++ [])
      by (rewrite app_nil_r, <- !app_assoc; reflexivity).
    rewrite (u8_set_splice _ (repeat 0 20) [] addr)
      by (rewrite Hlen; reflexivity).
    rewrite app_nil_r, <- !app_assoc. reflexivity.
  - injection Hbytes as <-.
    replace (new_Uint8Array (length msg + 9))
      with ([] ++ repeat 0 (length msg) ++ repeat 0 9)
      by (unfold new_Uint8Array; rewrite repeat_app; reflexivity).
    rewrite (u8_set_splice [] _ _ msg) by apply repeat_length.
    cbn [rbind app]. unfold setBigUint64. fold be.
    change (repeat 0 9) with (repeat 0 8 ++ repeat 0 1).
    rewrite (u8_set_splice msg (repeat 0 8) _ be) by (rewrite Hbe; reflexivity).
    cbn [rbind]. unfold setUint8.
    replace (length msg + 8)%nat with (length (msg ++ be))
      by (rewrite length_app, Hbe; reflexivity).
    replace (msg ++ be ++ repeat 0 1) with ((msg ++ be) ++ [0] ++ [])
      by (rewrite <- app_assoc; reflexivity).
    rewrite (u8_set_splice (msg ++ be) [0] [] [0 mod 256]) by reflexivity.
    rewrite <- !app_assoc. reflexivity.
Qed.

(** A nonce that does not convert makes the call throw, whatever the
    vault address. *)
Lemma actionHashData_nonce_error (action : Action)
    (vaultAddress : option string) (nonce : number) (e : error) :
  NumberToBigInt nonce = Err e ->
  actionHashData encode action vaultAddress nonce = Err e.
Proof.
  intros Hn. unfold actionHashData.
  set (msg := encode action).
  assert (Hset : forall k, u8_set (new_Uint8Array (length msg + k)) msg 0
                           = Ok (msg ++ repeat 0 k)).
  { intros k.
    replace (new_Uint8Array (length msg + k))
      with ([] ++ repeat 0 (length msg) ++ repeat 0 k)
      by (unfold new_Uint8Array; rewrite repeat_app; reflexivity).
    rewrite (u8_set_splice [] _ _ msg) by apply repeat_length.
    reflexivity. }
  destruct vaultAddress; rewrite Hset; cbn [rbind]; rewrite Hn; reflexivity.
Qed.

(** C1 (as amended) -- For every action, every vaultAddress (null or a
    20-byte address) and every nonce whose value is an integer n,
    actionHash applies Keccak-256 to exactly: the msgpack bytes of the
    action, the 8 big-endian bytes of n modulo 2^64, one flag byte (0 for
    null, 1 otherwise) and, only when present, the 20 address bytes.  The
    buffer has serializedLength + 9 bytes for a null vaultAddress and
    serializedLength + 29 otherwise, with no other framing. *)
Theorem actionHash_buffer (action : Action) (vaultAddress : option string)
    (nonce : number) (n : Z) (addr : bytes) :
  integer_value nonce n ->
  vault_ok vaultAddress addr ->
  let buffer := encode action ++ be_bytes 8 (n mod 2 ^ 64)
                  ++ [vault_flag vaultAddress] ++ addr in
  actionHashData encode action vaultAddress nonce = Ok buffer
  /\ actionHash encode keccak256 action vaultAddress nonce
     = Ok (keccak256 buffer)
  /\ length buffer =
     (length (encode action)
      + match vaultAddress with None => 9 | Some _ => 29 end)%nat
  /\ (vaultAddress = None -> addr = []).
Proof.
  intros Hint Hv buffer.
  pose proof (actionHashData_layout action vaultAddress nonce n addr
                (NumberToBigInt_integer nonce n Hint) Hv) as Hdata.
  fold buffer in Hdata.
  split; [exact Hdata|].
  split; [unfold actionHash; rewrite Hdata; reflexivity|].
  destruct Hv as [Hbytes Hlen].
  subst buffer. rewrite !length_app, be_bytes_length. cbn [length].
  destruct vaultAddress as [a|].
  - rewrite (Hlen ltac:(discriminate)). split; [lia | discriminate].
  - injection Hbytes as <-. cbn [length]. split; [lia | reflexivity].
Qed.

(** C10 -- actionHash goes through only for integer-valued nonces: a
    nonce of integer value n (negative ones included) is stored as the 8
    big-endian bytes of n modulo 2^64, so a negative or too large nonce
    wraps without an error; any other nonce makes the call throw the
    RangeError of the BigInt conversion; for 0 <= n < 2^64 the stored
    bytes are the big-endian encoding of n itself. *)
Theorem actionHash_nonce (action : Action) (vaultAddress : option string)
    (nonce : number) (addr : bytes) :
  vault_ok vaultAddress addr ->
  (forall n : Z, integer_value nonce n ->
     exists data,
       actionHashData encode action vaultAddress nonce = Ok data
       /\ actionHash encode keccak256 action vaultAddress nonce
          = Ok (keccak256 data)
       /\ nonce_bytes data (length (encode action))
          = be_bytes 8 (n mod 2 ^ 64)
       /\ be_value (nonce_bytes data (length (encode action)))
          = n mod 2 ^ 64
       /\ (0 <= n < 2 ^ 64 ->
           be_value (nonce_bytes data (length (encode action))) = n))
  /\ ((forall n : Z, ~ integer_value nonce n) ->
      exists c,
        actionHash encode keccak256 action vaultAddress nonce
        = Err (BigIntRangeError c)).
Proof.
  intros Hv. split.
  - intros n Hint.
    pose proof (NumberToBigInt_integer nonce n Hint) as Hn.
    pose proof (actionHashData_layout action vaultAddress nonce n addr Hn Hv)
      as Hdata.
    eexists. split; [exact Hdata|].
    split; [unfold actionHash; rewrite Hdata; reflexivity|].
    assert (Hstored :
      nonce_bytes (encode action ++ be_bytes 8 (n mod 2 ^ 64)
                     ++ [vault_flag vaultAddress] ++ addr)
                  (length (encode action))
      = be_bytes 8 (n mod 2 ^ 64)).
    { unfold nonce_bytes. rewrite drop_app_length.
      pose proof (be_bytes_length 8 (n mod 2 ^ 64)) as Hl.
      rewrite <- Hl at 1. apply take_app_length. }
    rewrite Hstored.
    assert (Hval : be_value (be_bytes 8 (n mod 2 ^ 64)) = n mod 2 ^ 64).
    { rewrite be_value_be_bytes. change (8 * Z.of_nat 8) with 64.
      apply Z.mod_mod. lia. }
    split; [reflexivity|].
    split; [exact Hval|].
    intros Hrange. rewrite Hval. apply Z.mod_small. exact Hrange.
  - intros Hnot.
    pose proof (NumberToBigInt_not_integer nonce Hnot) as Herr.
    destruct Herr as [c Hc]. exists c.
    unfold actionHash.
    rewrite (actionHashData_nonce_error action vaultAddress nonce _ Hc).
    reflexivity.
Qed.

End ActionHashProofs.

Lemma actionHash_buffer_witness :
  actionHashData sample_encode [1; 2; 3] (Some sample_vault) sample_nonce
  = Ok ([1; 2; 3] ++ [0; 0; 1; 139; 207; 229; 104; 0] ++ [1]
        ++ [0; 0; 0; 0; 0; 0; 0; 0; 0; 0; 0; 0; 0; 0; 0; 0; 0; 0; 0; 255])
  /\ actionHash sample_encode sample_keccak256 [1; 2; 3] (Some sample_vault)
       sample_nonce = Ok "0x32".
Proof.
  destruct (actionHash_buffer sample_encode sample_keccak256 [1; 2; 3]
              (Some sample_vault) sample_nonce 1700000000000
              [0; 0; 0; 0; 0; 0; 0; 0; 0; 0; 0; 0; 0; 0; 0; 0; 0; 0; 0; 255])
    as (Hdata & Hhash & _).
  - vm_compute. reflexivity.
  - split; [vm_compute; reflexivity | intros _; reflexivity].
  - split; [exact Hdata | exact Hhash].
Defined.

(** A nonce with a fractional part never reaches the hash: BigInt(1.5)
    throws. *)
Lemma actionHash_fractional_nonce :
  NumberToBigInt num_1_5 = Err (BigIntRangeError IsFractional)
  /\ actionHashData sample_encode [1; 2; 3] None num_1_5
     = Err (BigIntRangeError IsFractional)
  /\ actionHash sample_encode sample_keccak256 [1; 2; 3] None num_1_5
     = Err (BigIntRangeError IsFractional).
Proof. repeat split; vm_compute; reflexivity. Qed.

Lemma actionHash_nonce_witness :
  exists data,
    actionHashData sample_encode [1; 2; 3] None (of_Z (-1)) = Ok data
    /\ be_value (nonce_bytes data 3) = 2 ^ 64 - 1.
Proof.
  destruct (actionHash_nonce sample_encode sample_keccak256 [1; 2; 3] None
              (of_Z (-1)) []) as [Hint _].
  - split; [reflexivity | intros H; contradiction H; reflexivity].
  - destruct (Hint (-1)) as (data & Hdata & _ & _ & Hval & _).
    + vm_compute. reflexivity.
    + exists data. split; [exact Hdata | exact Hval].
Defined.

(** ** Typed data and the signer adapter *)

Section SigningProofs.

Context {Action : Type}.
Variable encode : Action -> bytes.
Variable keccak256 : bytes -> string.
Variable Signature_from : string -> result Signature.

(** What the two kinds of signer receive from [signInner]. *)
Lemma signInner_client (call : heap -> sign_args -> result string)
    (data : TypedData) (h : heap) :
  signInner Signature_from (WalletObject (Some (Function 1 call))) data h
  = rbind (call h (ClientParams (domain data) (types data) (primaryType data)
                     (message data)))
          (splitSig Signature_from).
Proof. reflexivity. Qed.

Lemma signInner_direct (call : heap -> sign_args -> result string)
    (data : TypedData) (h : heap) :
  signInner Signature_from (WalletObject (Some (Function 3 call))) data h
  = rbind (call h (DirectArgs (domain data) (types data) (message data)))
          (splitSig Signature_from).
Proof. reflexivity. Qed.

(** C2 -- For every action, vaultAddress, nonce and mainnet flag,
    signL1Action, createL1ActionTypedData and getTxObject build the typed
    data whose domain is the phantom-agent domain (chainId 1337, name
    "Exchange", version "1", the zero address as verifying contract),
    whose primary type is Agent with the schema [source: string,
    connectionId: bytes32] in this order, and whose message is source "a"
    on mainnet and "b" otherwise with the actionHash digest as
    connectionId; signL1Action hands exactly this to the signer, as one
    parameter object to a client-style signer and as (domain, types,
    message) to a direct one.  When actionHash throws, so do they. *)
Theorem l1_action_typed_data (w : wallet) (action : Action)
    (vaultAddress : option string) (nonce : number) (isMainnet : bool)
    (h : heap) (call : heap -> sign_args -> result string) :
  let dom := {| chainId := of_Z 1337; name := "Exchange";
                verifyingContract :=
                  "0x0000000000000000000000000000000000000000";
                version := "1" |} in
  let schema :=
    [("Agent", [ {| field_name := "source"; field_type := "string" |};
                 {| field_name := "connectionId"; field_type := "bytes32" |} ])] in
  let agent hash := MAgent (if isMainnet then "a" else "b") hash in
  let typed hash := {| domain := dom; types := schema;
                       primaryType := "Agent"; message := agent hash |} in
  let digest := actionHash encode keccak256 action vaultAddress nonce in
  signL1Action encode keccak256 Signature_from w action vaultAddress nonce
    isMainnet h
  = rbind digest (fun hash => signInner Signature_from w (typed hash) h)
  /\ signL1Action encode keccak256 Signature_from
       (WalletObject (Some (Function 1 call))) action vaultAddress nonce
       isMainnet h
     = rbind digest (fun hash =>
         rbind (call h (ClientParams dom schema "Agent" (agent hash)))
               (splitSig Signature_from))
  /\ signL1Action encode keccak256 Signature_from
       (WalletObject (Some (Function 3 call))) action vaultAddress nonce
       isMainnet h
     = rbind digest (fun hash =>
         rbind (call h (DirectArgs dom schema (agent hash)))
               (splitSig Signature_from))
  /\ getTxObject encode keccak256 action vaultAddress nonce isMainnet
     = rbind digest (fun hash => Ok (typed hash))
  /\ createL1ActionTypedData encode keccak256 action vaultAddress nonce
       isMainnet
     = rbind digest (fun hash =>
         Ok {| l1_typed := typed hash; l1_action := action;
               l1_nonce := nonce; l1_vaultAddress := vaultAddress;
               l1_hash := hash |}).
Proof.
  intros dom schema agent typed digest.
  assert (Htyped : forall hash, l1TypedData hash isMainnet = typed hash)
    by reflexivity.
  unfold signL1Action, getTxObject, createL1ActionTypedData.
  fold digest.
  destruct digest as [hash|e]; cbn [rbind].
  - rewrite !Htyped, signInner_client, signInner_direct.
    repeat split; reflexivity.
  - repeat split; reflexivity.
Qed.

(** C7 -- signInner dispatches on the arity of the signer's
    signTypedData member: arity 1 gets the single parameter object
    {domain, types, primaryType, message}, arity 3 gets (domain, types,
    message), and every other shape (no object, no such member, a member
    that is not a function, another arity) fails with the unsupported
    wallet error.  In both branches the raw signature goes through
    splitSig, the routine that also splits a signature supplied as a
    string. *)
Theorem signInner_dispatch (w : wallet) (data : TypedData) (h : heap) :
  signInner Signature_from w data h =
  match w with
  | WalletObject (Some (Function 1 call)) =>
      rbind (call h (ClientParams (domain data) (types data)
                       (primaryType data) (message data)))
            (splitSig Signature_from)
  | WalletObject (Some (Function 3 call)) =>
      rbind (call h (DirectArgs (domain data) (types data) (message data)))
            (splitSig Signature_from)
  | _ => Err UnsupportedWallet
  end
  /\ (forall sig : string,
        formatSignature Signature_from (inr sig)
        = splitSig Signature_from sig)
  /\ (forall sig : string,
        splitSig Signature_from sig =
        rbind (Signature_from sig)
              (fun sg => Ok {| r := r sg; s := s sg; v := v sg |})).
Proof.
  split; [|split; reflexivity].
  unfold signInner.
  destruct w as [x|[[x|[|[|[|[|n]]]] call]|]]; reflexivity.
Qed.

(** *** The store across the user-signed paths *)

Lemma obj_get_set_other (k k' : string) (x : value) (o : object) :
  k' <> k -> obj_get k' (obj_set k x o) = obj_get k' o.
Proof.
  intros Hne. induction o as [|[k0 v0] o IH]; cbn [obj_set obj_get].
  - destruct (String.eqb_spec k' k); [contradiction | reflexivity].
  - destruct (String.eqb_spec k k0) as [->|Hk]; cbn [obj_get].
    + destruct (String.eqb_spec k' k0); [contradiction | reflexivity].
    + destruct (String.eqb_spec k' k0); [reflexivity | exact IH].
Qed.



End SigningProofs.

Example signInner_examples :
  let data := l1TypedData "0xdigest" true in
  [signInner sample_Signature_from client_wallet data ∅;
   signInner sample_Signature_from direct_wallet data ∅;
   signInner sample_Signature_from (NotAnObject VUndefined) data ∅;
   signInner sample_Signature_from (WalletObject None) data ∅;
   signInner sample_Signature_from
     (WalletObject (Some (NotCallable (VString "signTypedData")))) data ∅;
   signInner sample_Signature_from
     (WalletObject (Some (Function 2 (fun _ _ => Ok "0xsigned")))) data ∅]
  = [Ok {| r := "0xsigned"; s := ""; v := 27 |};
     Ok {| r := "0xsigned"; s := ""; v := 27 |};
     Err UnsupportedWallet; Err UnsupportedWallet; Err UnsupportedWallet;
     Err UnsupportedWallet].
Proof. vm_compute. reflexivity. Qed.



(** ** The order wire mapper *)

Lemma floatToWire_error (x : number) (e : error) :
  floatToWire x = Err e -> e = FloatToWireRounding x.
Proof.
  unfold floatToWire.
  destruct (geb _ _); [intros [= <-]; reflexivity | discriminate].
Qed.

(** C4 -- For every order and asset index, orderToWire returns the wire
    structure with the keys a (asset index), b (side), p (price through
    floatToWire), s (size through floatToWire), r (reduce-only flag), t
    (order type through orderTypeToWire) in this order, followed by the key
    c holding the cloid exactly when the order has one; without a cloid
    there is no key c at all.  A failure of one of the three encoders
    propagates.  The order of the scenario, with asset index 5, maps to
    {a:5, b:true, p:"2500.12345678", s:"1", r:false, t:{limit:{tif:"Gtc"}}}. *)
Theorem orderToWire_structure (order : Order) (asset : Z) :
  orderToWire order asset =
    rbind (floatToWire (limit_px order)) (fun p =>
    rbind (floatToWire (sz order)) (fun s =>
    rbind (orderTypeToWire (order_type order)) (fun t =>
      Ok ([("a", WInt asset); ("b", WBool (is_buy order)); ("p", WStr p);
           ("s", WStr s); ("r", WBool (reduce_only order)); ("t", WType t)]
          ++ match cloid order with
             | Some c => [("c", WStr c)]
             | None => []
             end))))
  /\ (forall w : OrderWire,
        orderToWire order asset = Ok w ->
        map fst w = ["a"; "b"; "p"; "s"; "r"; "t"]
                    ++ match cloid order with Some _ => ["c"] | None => [] end
        /\ wire_get "c" w = option_map WStr (cloid order)
        /\ ("c" ∈ map fst w <-> cloid order <> None))
  /\ orderToWire scenario_order 5 =
       Ok [("a", WInt 5); ("b", WBool true); ("p", WStr "2500.12345678");
           ("s", WStr "1"); ("r", WBool false);
           ("t", WType (WireLimit {| tif := "Gtc" |}))].
Proof.
  assert (Heq : orderToWire order asset =
    rbind (floatToWire (limit_px order)) (fun p =>
    rbind (floatToWire (sz order)) (fun s =>
    rbind (orderTypeToWire (order_type order)) (fun t =>
      Ok ([("a", WInt asset); ("b", WBool (is_buy order)); ("p", WStr p);
           ("s", WStr s); ("r", WBool (reduce_only order)); ("t", WType t)]
          ++ match cloid order with
             | Some c => [("c", WStr c)]
             | None => []
             end))))).
  { unfold orderToWire.
    destruct (floatToWire (limit_px order)); [|reflexivity].
    destruct (floatToWire (sz order)); [|reflexivity].
    destruct (orderTypeToWire (order_type order)); [|reflexivity].
    cbn [rbind]. destruct (cloid order); reflexivity. }
  split; [exact Heq|]. split; [|vm_compute; reflexivity].
  intros w. rewrite Heq.
  destruct (floatToWire (limit_px order)) as [p|]; [|discriminate].
  destruct (floatToWire (sz order)) as [s|]; [|discriminate].
  destruct (orderTypeToWire (order_type order)) as [t|]; [|discriminate].
  cbn [rbind]. intros [= <-].
  destruct (cloid order) as [c|]; cbn.
  - split; [reflexivity|]. split; [reflexivity|].
    split; [discriminate|]. intros _. set_solver.
  - split; [reflexivity|]. split; [reflexivity|].
    split; [|intros H; contradiction H; reflexivity].
    intros H. exfalso. revert H. rewrite !elem_of_cons, elem_of_nil.
    intros H. repeat (destruct H as [H|H]; [discriminate H|]). exact H.
Qed.

Lemma orderToWire_structure_witness :
  map fst [("a", WInt 5); ("b", WBool true); ("p", WStr "2500.12345678");
           ("s", WStr "1"); ("r", WBool false);
           ("t", WType (WireLimit {| tif := "Gtc" |}))]
  = ["a"; "b"; "p"; "s"; "r"; "t"].
Proof.
  destruct (orderToWire_structure scenario_order 5) as (_ & Hkeys & Hscenario).
  destruct (Hkeys _ Hscenario) as (Hmap & _).
  exact Hmap.
Defined.

(** ** Asset index resolution of a batch *)

Section ExchangeProofs.

Variable resolver : string -> option Z.

Lemma map_start_placeOrder (orders : list Order) :
  forall st : resolve_state,
    (forall o, o ∈ orders -> assetIndexCache st !! coin o = None) ->
    lookups (snd (map_start placeOrder_start orders st))
    = lookups st ++ map coin orders
    /\ assetIndexCache (snd (map_start placeOrder_start orders st))
       = assetIndexCache st.
Proof.
  induction orders as [|o rest IH]; intros st Hmiss; cbn [map_start].
  - rewrite app_nil_r. split; reflexivity.
  - assert (Hs : placeOrder_start o st
                 = (Awaiting o, invoke_resolver (coin o) st)).
    { unfold placeOrder_start.
      rewrite (Hmiss o) by (left; reflexivity). reflexivity. }
    rewrite Hs. cbv beta iota.
    destruct (IH (invoke_resolver (coin o) st)) as [Hl Hc].
    { intros o' Ho'. cbn. apply Hmiss. right. exact Ho'. }
    destruct (map_start placeOrder_start rest (invoke_resolver (coin o) st))
      as [cs st2].
    cbn [snd] in *. rewrite Hl, Hc. cbn. rewrite <- app_assoc.
    split; reflexivity.
Qed.

Lemma map_start_placeOrdersTpSl (orders : list Order) :
  forall st : resolve_state,
    lookups (snd (map_start placeOrdersTpSl_start orders st))
    = lookups st ++ map coin orders.
Proof.
  induction orders as [|o rest IH]; intros st; cbn [map_start].
  - rewrite app_nil_r. reflexivity.
  - change (placeOrdersTpSl_start o st)
      with (Awaiting o, invoke_resolver (coin o) st).
    cbv beta iota.
    specialize (IH (invoke_resolver (coin o) st)).
    destruct (map_start placeOrdersTpSl_start rest
                (invoke_resolver (coin o) st)) as [cs st2].
    cbn [snd] in *. rewrite IH. cbn. rewrite <- app_assoc. reflexivity.
Qed.

Lemma settle_lookups (resume : Order -> resolve_state ->
                               result OrderWire * resolve_state)
    (cs : list callback) :
  (forall o st, lookups (snd (resume o st)) = lookups st) ->
  forall st, lookups (snd (settle resume cs st)) = lookups st.
Proof.
  intros Hres. induction cs as [|[w|o] rest IH]; intros st; cbn [settle].
  - reflexivity.
  - specialize (IH st). destruct (settle resume rest st). exact IH.
  - specialize (Hres o st). destruct (resume o st) as [w st1].
    specialize (IH st1). destruct (settle resume rest st1).
    cbn [snd] in *. congruence.
Qed.

Lemma placeOrder_resume_lookups (o : Order) (st : resolve_state) :
  lookups (snd (placeOrder_resume resolver o st)) = lookups st.
Proof.
  unfold placeOrder_resume. destruct (getAssetIndex_resume resolver (coin o));
    reflexivity.
Qed.

Lemma placeOrdersTpSl_resume_lookups (o : Order) (st : resolve_state) :
  lookups (snd (placeOrdersTpSl_resume resolver o st)) = lookups st.
Proof.
  unfold placeOrdersTpSl_resume.
  destruct (getAssetIndex_resume resolver (coin o)); reflexivity.
Qed.

(** The resolver is invoked once per order of the batch, in all three
    paths. *)
Lemma batch_lookups (ordersArray : list Order) :
  lookups (snd (placeOrder_orderWires resolver ordersArray))
  = map coin ordersArray
  /\ lookups (snd (getTxObjectPlaceOrder_orderWires resolver ordersArray))
     = map coin ordersArray
  /\ lookups (snd (placeOrdersTpSl_orderWires resolver ordersArray))
     = map coin ordersArray.
Proof.
  assert (H1 : lookups (snd (placeOrder_orderWires resolver ordersArray))
               = map coin ordersArray).
  { unfold placeOrder_orderWires, resolve_batch.
    destruct (map_start_placeOrder ordersArray initial_state) as [Hl _].
    { intros o _. apply lookup_empty. }
    destruct (map_start placeOrder_start ordersArray initial_state)
      as [cs st1].
    pose proof (settle_lookups (placeOrder_resume resolver) cs
                  placeOrder_resume_lookups st1) as Hs.
    destruct (settle (placeOrder_resume resolver) cs st1) as [ws st2].
    cbn [snd] in *. rewrite Hs, Hl. reflexivity. }
  split; [exact H1|]. split; [exact H1|].
  unfold placeOrdersTpSl_orderWires, resolve_batch.
  pose proof (map_start_placeOrdersTpSl ordersArray initial_state) as Hl.
  destruct (map_start placeOrdersTpSl_start ordersArray initial_state)
    as [cs st1].
  pose proof (settle_lookups (placeOrdersTpSl_resume resolver) cs
                placeOrdersTpSl_resume_lookups st1) as Hs.
  destruct (settle (placeOrdersTpSl_resume resolver) cs st1) as [ws st2].
  cbn [snd] in *. rewrite Hs, Hl. reflexivity.
Qed.

End ExchangeProofs.

(** C6 -- On a batch of two orders for the one coin ETH, placeOrder,
    getTxObjectPlaceOrder and placeOrdersTpSl each invoke the external
    resolver twice for ETH, although the batch has a single distinct coin:
    the per-batch memo is filled only after every callback has already
    asked. *)
Theorem batch_resolver_invoked_per_order :
  distinct_coins [] eth_pair = ["ETH"]
  /\ lookups (snd (placeOrder_orderWires sample_resolver eth_pair))
     = ["ETH"; "ETH"]
  /\ lookups (snd (getTxObjectPlaceOrder_orderWires sample_resolver eth_pair))
     = ["ETH"; "ETH"]
  /\ lookups (snd (placeOrdersTpSl_orderWires sample_resolver eth_pair))
     = ["ETH"; "ETH"]
  /\ is_ok (fst (placeOrder_orderWires sample_resolver eth_pair)) = true.
Proof.
  destruct (batch_lookups sample_resolver eth_pair) as (H1 & H2 & H3).
  split; [reflexivity|].
  split; [exact H1|]. split; [exact H2|]. split; [exact H3|].
  vm_compute. reflexivity.
Qed.

(** * Further properties of the code *)

Local Open Scope string_scope.

(** ** The shape of a wire number *)

Lemma strip_trailing_zeros_point (b : string) :
  strip_trailing_zeros (String "." b) = String "." (strip_trailing_zeros b).
Proof.
  cbn [strip_trailing_zeros]. destruct (strip_trailing_zeros b); reflexivity.
Qed.

Lemma strip_trailing_zeros_app (pre t : string) :
  strip_trailing_zeros t <> "" ->
  strip_trailing_zeros (pre ++ t) = pre ++ strip_trailing_zeros t.
Proof.
  intros Ht. induction pre as [|c r IH]; [reflexivity|].
  change (String c r ++ t) with (String c (r ++ t)).
  change (String c r ++ strip_trailing_zeros t)
    with (String c (r ++ strip_trailing_zeros t)).
  change (strip_trailing_zeros (String c (r ++ t)))
    with (match strip_trailing_zeros (r ++ t) with
          | "" => if Ascii.eqb c "0" then "" else String c ""
          | r' => String c r'
          end).
  rewrite IH.
  destruct (r ++ strip_trailing_zeros t) eqn:E; [|reflexivity].
  destruct r; cbn in E; [contradiction | discriminate].
Qed.

Lemma strip_trailing_point_app (pre : string) :
  strip_trailing_point (pre ++ ".") = pre.
Proof.
  induction pre as [|c r IH]; [reflexivity|].
  change (String c r ++ ".") with (String c (r ++ ".")).
  change (strip_trailing_point (String c (r ++ ".")))
    with (match r ++ "." with
          | "" => if Ascii.eqb c "." then "" else String c (r ++ ".")
          | _ => String c (strip_trailing_point (r ++ "."))
          end).
  rewrite IH.
  destruct (r ++ ".") eqn:E; [|reflexivity].
  destruct r; discriminate.
Qed.

Lemma strip_trailing_point_id (t : string) :
  ends_with_point t = false -> strip_trailing_point t = t.
Proof.
  induction t as [|c r IH]; [reflexivity|].
  cbn [ends_with_point strip_trailing_point].
  destruct r as [|c' r'].
  - intros ->. reflexivity.
  - intros H. rewrite (IH H). reflexivity.
Qed.

Lemma strip_trailing_zeros_digits (b : string) :
  all_digits b = true ->
  all_digits (strip_trailing_zeros b) = true
  /\ (String.length (strip_trailing_zeros b) <= String.length b)%nat
  /\ ends_with_zero (strip_trailing_zeros b) = false.
Proof.
  induction b as [|c r IH]; [intros _; repeat split; reflexivity || lia|].
  cbn [all_digits]. intros H. apply andb_true_iff in H as [Hc Hr].
  destruct (IH Hr) as (Hd & Hl & Hz).
  cbn [strip_trailing_zeros].
  destruct (strip_trailing_zeros r) as [|c' r'] eqn:E.
  - destruct (Ascii.eqb c "0") eqn:Hc0.
    + repeat split; cbn; lia || reflexivity.
    + split; [cbn [all_digits]; rewrite Hc; reflexivity|].
      split; [cbn [String.length]; lia|].
      cbn [ends_with_zero]. exact Hc0.
  - split; [cbn [all_digits]; rewrite Hc; exact Hd|].
    split; [cbn [String.length] in *; lia|].
    exact Hz.
Qed.

Lemma str_take_all_digits (k : nat) :
  forall t, all_digits t = true -> all_digits (str_take k t) = true.
Proof.
  induction k as [|k IH]; intros [|c r] H; cbn [str_take]; try reflexivity.
  cbn [all_digits] in *. apply andb_true_iff in H as [Hc Hr].
  rewrite Hc, (IH r Hr). reflexivity.
Qed.

Lemma str_take_drop (k : nat) : forall t, str_take k t ++ str_drop k t = t.
Proof.
  induction k as [|k IH]; intros [|c r]; try reflexivity.
  change (String c (str_take k r ++ str_drop k r) = String c r).
  f_equal. apply IH.
Qed.

(** [toFixed(8)]'s digits: an integer part and 8 fractional digits. *)
Lemma fixed_string_8_parts (n : Z) :
  exists int frac : string,
    fixed_string n 8 = int ++ "." ++ frac
    /\ int <> "" /\ all_digits int = true
    /\ all_digits frac = true /\ String.length frac = 8%nat.
Proof.
  unfold fixed_string.
  set (m := decimal_digits n).
  set (m' := if (String.length m <=? 8)%nat
             then zeros (8 + 1 - String.length m) ++ m else m).
  assert (Hd : all_digits m' = true).
  { subst m'. destruct (String.length m <=? 8)%nat.
    - rewrite all_digits_app, zeros_all_digits. apply decimal_digits_all_digits.
    - apply decimal_digits_all_digits. }
  assert (Hl : (9 <= String.length m')%nat).
  { subst m'. pose proof (decimal_digits_nonempty n) as Hn. fold m in Hn.
    destruct (Nat.leb_spec (String.length m) 8).
    - rewrite string_length_app, zeros_length. lia.
    - lia. }
  exists (str_take (String.length m' - 8) m'),
         (str_drop (String.length m' - 8) m').
  split; [reflexivity|].
  split.
  - intros E.
    pose proof (str_take_drop (String.length m' - 8) m') as Htd.
    rewrite E in Htd. apply (f_equal String.length) in Htd.
    rewrite string_length_app, str_drop_length in Htd.
    cbn [String.length] in Htd. lia.
  - split; [apply str_take_all_digits; exact Hd|].
    split; [apply str_drop_all_digits; exact Hd|].
    rewrite str_drop_length. lia.
Qed.

Lemma string_app_assoc (a b c : string) : (a ++ b) ++ c = a ++ (b ++ c).
Proof.
  induction a as [|x a IH]; [reflexivity|].
  change (String x ((a ++ b) ++ c) = String x (a ++ (b ++ c))).
  f_equal. exact IH.
Qed.

Lemma string_app_nil_r (a : string) : a ++ "" = a.
Proof.
  induction a as [|x a IH]; [reflexivity|].
  change (String x (a ++ "") = String x a). f_equal. exact IH.
Qed.

(** Stripping [pre ++ "." ++ frac]: the zeros at the end of [frac] go, and
    the point with them when nothing is left of [frac]. *)
Lemma spec_strip_parts (pre frac : string) :
  all_digits frac = true ->
  spec_strip (pre ++ "." ++ frac)
  = pre ++ match strip_trailing_zeros frac with
           | "" => ""
           | f => "." ++ f
           end.
Proof.
  intros Hd. unfold spec_strip.
  change ("." ++ frac) with (String "." frac).
  rewrite strip_trailing_zeros_app
    by (rewrite strip_trailing_zeros_point; discriminate).
  rewrite strip_trailing_zeros_point.
  destruct (strip_trailing_zeros_digits frac Hd) as (Hfd & _ & _).
  destruct (strip_trailing_zeros frac) as [|c r] eqn:E.
  - change (String "." "") with ".". rewrite strip_trailing_point_app.
    rewrite string_app_nil_r. reflexivity.
  - apply strip_trailing_point_id.
    change (String "." (String c r)) with ("." ++ String c r).
    rewrite <- string_app_assoc.
    rewrite ends_with_point_app by discriminate.
    apply all_digits_no_point. exact Hfd.
Qed.

Lemma spec_format8_sign (x : number) :
  below_1e21 x ->
  exists (neg : bool) (n : Z),
    spec_format8 x = (if neg then "-" else "") ++ fixed_string n 8.
Proof.
  destruct x as [sg|sg| |sg m e]; cbn [below_1e21]; try contradiction; intros _.
  - exists false, 0. reflexivity.
  - exists sg, (nearest_scaled (mag_num m e) (mag_den e) 8). reflexivity.
Qed.

(** X1 -- Whenever floatToWire succeeds on a number below 10^21, the string
    is canonical: an optional minus sign, at least one digit, and then
    either nothing or a point followed by 1 to 8 digits of which the last
    is not 0; it never ends in a point or in a fractional zero, and it is
    never "-0". *)
Theorem floatToWire_canonical (x : number) (w : string) :
  below_1e21 x ->
  floatToWire x = Ok w ->
  exists (neg : bool) (int frac : string),
    w = wire_text neg int frac
    /\ int <> "" /\ all_digits int = true
    /\ all_digits frac = true /\ (String.length frac <= 8)%nat
    /\ ends_with_zero frac = false
    /\ w <> "-0".
Proof.
  intros Hx Hw. rewrite (floatToWire_refines x Hx) in Hw.
  unfold spec_decimalToWire in Hw.
  destruct (geb _ _); [discriminate|]. injection Hw as <-.
  destruct (spec_format8_sign x Hx) as (neg & n & ->).
  destruct (fixed_string_8_parts n) as (int & frac & -> & Hne & Hdi & Hdf & Hlf).
  rewrite <- string_app_assoc.
  rewrite (spec_strip_parts _ frac Hdf).
  destruct (strip_trailing_zeros_digits frac Hdf) as (Hsd & Hsl & Hsz).
  set (f := strip_trailing_zeros frac) in *.
  assert (Hshape : ((if neg then "-" else "") ++ int)
                   ++ match f with "" => "" | String a b => "." ++ String a b end
                   = wire_text neg int f)
    by (unfold wire_text; rewrite string_app_assoc; destruct f; reflexivity).
  rewrite Hshape.
  destruct (String.eqb_spec (wire_text neg int f) "-0") as [E|E].
  - exists false, "0", "". repeat split; try reflexivity; try discriminate.
    cbn. lia.
  - exists neg, int, f. repeat split; try assumption. lia.
Qed.

Lemma floatToWire_canonical_witness :
  exists (neg : bool) (int frac : string),
    "2500.12345678" = wire_text neg int frac
    /\ all_digits int = true /\ ends_with_zero frac = false.
Proof.
  destruct (floatToWire_canonical num_2500_12345678 "2500.12345678")
    as (neg & int & frac & Hw & _ & Hdi & _ & _ & Hz & _).
  - vm_compute. reflexivity.
  - vm_compute. reflexivity.
  - exists neg, int, frac. repeat split; assumption.
Defined.

(** ** The trigger price on the wire *)

Section TriggerPrice.

Local Open Scope Z_scope.

Lemma digits_value_from_acc (s : string) :
  forall acc : Z,
    all_digits s = true ->
    digits_value_from acc s
    = acc * 10 ^ Z.of_nat (String.length s) + digits_value s.
Proof.
  unfold digits_value.
  induction s as [|c r IH]; intros acc Hd; cbn [digits_value_from String.length].
  - cbn. lia.
  - cbn [all_digits] in Hd. apply andb_true_iff in Hd as [Hc Hr].
    unfold is_digit in Hc. destruct (digit_value c) as [d|]; [|discriminate].
    rewrite (IH (10 * acc + d) Hr), (IH (10 * 0 + d) Hr).
    rewrite Nat2Z.inj_succ, Z.pow_succ_r by lia. ring.
Qed.

Lemma digits_value_from_app (a b : string) :
  all_digits a = true ->
  forall acc : Z,
    digits_value_from acc (a ++ b)
    = digits_value_from (digits_value_from acc a) b.
Proof.
  induction a as [|c r IH]; intros Ha acc; [reflexivity|].
  change (String c r ++ b) with (String c (r ++ b)).
  cbn [digits_value_from]. cbn [all_digits] in Ha.
  apply andb_true_iff in Ha as [Hc Hr].
  unfold is_digit in Hc. destruct (digit_value c) as [d|]; [|discriminate].
  apply IH. exact Hr.
Qed.

Lemma digits_value_app (a b : string) :
  all_digits a = true -> all_digits b = true ->
  digits_value (a ++ b)
  = digits_value a * 10 ^ Z.of_nat (String.length b) + digits_value b.
Proof.
  intros Ha Hb. unfold digits_value at 1.
  rewrite (digits_value_from_app a b Ha 0).
  apply digits_value_from_acc. exact Hb.
Qed.

Lemma digits_value_zeros (k : nat) : digits_value (zeros k) = 0.
Proof.
  unfold digits_value. induction k as [|k IH]; [reflexivity|].
  cbn [zeros digits_value_from]. exact IH.
Qed.

Lemma digit_value_digit_char (d : Z) :
  0 <= d <= 9 -> digit_value (digit_char d) = Some d.
Proof.
  intros Hd.
  assert (Hc : d = 0 \/ d = 1 \/ d = 2 \/ d = 3 \/ d = 4 \/ d = 5 \/ d = 6
               \/ d = 7 \/ d = 8 \/ d = 9) by lia.
  repeat (destruct Hc as [Hc|Hc]; [rewrite Hc; reflexivity|]).
  rewrite Hc; reflexivity.
Qed.

Lemma digits_fuel_value (fuel : nat) :
  forall (n : Z) (acc : string),
    0 <= n < 2 ^ Z.of_nat fuel -> all_digits acc = true ->
    digits_value (digits_fuel fuel n acc)
    = n * 10 ^ Z.of_nat (String.length acc) + digits_value acc.
Proof.
  induction fuel as [|f IH]; intros n acc Hn Hacc; cbn [digits_fuel].
  - change (2 ^ Z.of_nat 0) with 1 in Hn. assert (n = 0) by lia. subst n. lia.
  - pose proof (Z.div_mod n 10 ltac:(lia)) as Hdm.
    pose proof (Z.mod_pos_bound n 10 ltac:(lia)) as Hb.
    assert (Hv : digits_value (String (digit_char (n mod 10)) acc)
                 = n mod 10 * 10 ^ Z.of_nat (String.length acc)
                   + digits_value acc).
    { unfold digits_value at 1. cbn [digits_value_from].
      rewrite digit_value_digit_char by lia.
      rewrite (digits_value_from_acc acc _ Hacc). ring. }
    assert (Hacc' : all_digits (String (digit_char (n mod 10)) acc) = true).
    { cbn [all_digits]. rewrite digit_char_is_digit, Hacc. reflexivity. }
    destruct (Z.eqb_spec (n / 10) 0) as [Hz|Hz].
    + rewrite Hv. f_equal. f_equal. lia.
    + rewrite IH; [| |exact Hacc'].
      * rewrite Hv. cbn [String.length].
        rewrite Nat2Z.inj_succ, Z.pow_succ_r by lia. lia.
      * rewrite Nat2Z.inj_succ, Z.pow_succ_r in Hn by lia.
        split; [apply Z.div_pos; lia|].
        apply Z.div_lt_upper_bound; lia.
Qed.

Lemma decimal_digits_value (n : Z) :
  0 <= n -> digits_value (decimal_digits n) = n.
Proof.
  intros Hn. unfold decimal_digits.
  rewrite digits_fuel_value; [cbn; lia | | reflexivity].
  split; [exact Hn|].
  destruct (Z.eq_dec n 0) as [->|Hne]; [cbn; lia|].
  rewrite Nat2Z.inj_succ, Z2Nat.id by apply Z.log2_nonneg.
  apply Z.log2_spec. lia.
Qed.

(** [toFixed(8)]'s digits read back as the integer they were made from. *)
Lemma fixed_string_8_value (n : Z) :
  0 <= n ->
  exists int frac : string,
    fixed_string n 8 = int ++ "." ++ frac
    /\ int <> "" /\ all_digits int = true
    /\ all_digits frac = true /\ String.length frac = 8%nat
    /\ digits_value int * 10 ^ 8 + digits_value frac = n.
Proof.
  intros Hn. unfold fixed_string.
  set (m := decimal_digits n).
  set (m' := if (String.length m <=? 8)%nat
             then zeros (8 + 1 - String.length m) ++ m else m).
  assert (Hdm : all_digits m = true) by apply decimal_digits_all_digits.
  assert (Hd : all_digits m' = true).
  { subst m'. destruct (String.length m <=? 8)%nat.
    - rewrite all_digits_app, zeros_all_digits. exact Hdm.
    - exact Hdm. }
  assert (Hl : (9 <= String.length m')%nat).
  { subst m'. pose proof (decimal_digits_nonempty n) as Hne. fold m in Hne.
    destruct (Nat.leb_spec (String.length m) 8).
    - rewrite string_length_app, zeros_length. lia.
    - lia. }
  assert (Hv : digits_value m' = n).
  { subst m'. destruct (String.length m <=? 8)%nat.
    - rewrite digits_value_app by (exact Hdm || apply zeros_all_digits).
      rewrite digits_value_zeros. unfold m.
      rewrite decimal_digits_value by exact Hn. lia.
    - apply decimal_digits_value. exact Hn. }
  pose proof (str_take_drop (String.length m' - 8) m') as Htd.
  set (int := str_take (String.length m' - 8) m') in *.
  set (frac := str_drop (String.length m' - 8) m') in *.
  assert (Hdi : all_digits int = true)
    by (apply str_take_all_digits; exact Hd).
  assert (Hdf : all_digits frac = true)
    by (apply str_drop_all_digits; exact Hd).
  assert (Hlf : String.length frac = 8%nat)
    by (unfold frac; rewrite str_drop_length; lia).
  exists int, frac.
  split; [reflexivity|].
  split.
  { intros E. rewrite E in Htd. apply (f_equal String.length) in Htd.
    rewrite string_length_app, Hlf in Htd.
    cbn [String.length] in Htd. lia. }
  split; [exact Hdi|]. split; [exact Hdf|]. split; [exact Hlf|].
  rewrite <- Hv, <- Htd, (digits_value_app int frac Hdi Hdf), Hlf.
  reflexivity.
Qed.

Lemma strip_trailing_zeros_all_zeros (s : string) :
  all_zeros s = true -> s = zeros (String.length s).
Proof.
  induction s as [|c r IH]; [reflexivity|].
  cbn [all_zeros String.length zeros]. intros H.
  apply andb_true_iff in H as [Hc Hr].
  apply Ascii.eqb_eq in Hc. subst c. f_equal. apply IH. exact Hr.
Qed.

(** What stripping removes is a run of zeros. *)
Lemma strip_trailing_zeros_split (b : string) :
  b = strip_trailing_zeros b
      ++ zeros (String.length b - String.length (strip_trailing_zeros b)).
Proof.
  induction b as [|c r IH]; [reflexivity|].
  cbn [strip_trailing_zeros].
  destruct (strip_trailing_zeros r) as [|c' r'] eqn:E.
  - apply strip_trailing_zeros_empty in E.
    apply strip_trailing_zeros_all_zeros in E.
    destruct (Ascii.eqb_spec c "0") as [->|Hc].
    + cbn [String.length]. rewrite Nat.sub_0_r.
      change ("" ++ zeros (S (String.length r)))
        with (String "0" (zeros (String.length r))).
      f_equal. exact E.
    + cbn [String.length]. change (String c "" ++ ?z) with (String c z).
      f_equal. replace (S (String.length r) - 1)%nat with (String.length r) by lia.
      exact E.
  - change (String c (String c' r') ++ ?z) with (String c (String c' r' ++ z)).
    f_equal. cbn [String.length] in *.
    replace (S (String.length r) - S (S (String.length r')))%nat
      with (String.length r - S (String.length r'))%nat by lia.
    exact IH.
Qed.

Lemma strip_trailing_zeros_value (b : string) :
  all_digits b = true ->
  digits_value b
  = digits_value (strip_trailing_zeros b)
    * 10 ^ (Z.of_nat (String.length b)
            - Z.of_nat (String.length (strip_trailing_zeros b))).
Proof.
  intros Hb.
  destruct (strip_trailing_zeros_digits b Hb) as (Hd & Hl & _).
  rewrite (strip_trailing_zeros_split b) at 1.
  rewrite digits_value_app by (exact Hd || apply zeros_all_digits).
  rewrite digits_value_zeros, zeros_length, Z.add_0_r.
  f_equal. f_equal. lia.
Qed.

Lemma nearest_scaled_nearest (num den : Z) (f : nat) :
  0 <= num -> 0 < den ->
  let N := nearest_scaled num den f in
  0 <= N
  /\ 2 * N * den - den <= 2 * num * 10 ^ Z.of_nat f < 2 * N * den + den.
Proof.
  intros Hnum Hden N. subst N. unfold nearest_scaled.
  assert (Hp : 0 < 10 ^ Z.of_nat f) by (apply Z.pow_pos_nonneg; lia).
  set (P := 10 ^ Z.of_nat f) in *.
  pose proof (Z.div_mod (2 * num * P + den) (2 * den) ltac:(lia)) as Hdm.
  pose proof (Z.mod_pos_bound (2 * num * P + den) (2 * den) ltac:(lia)) as Hb.
  split; [apply Z.div_pos; nia | nia].
Qed.

Lemma wire_text_minus_zero (neg : bool) (int frac : string) :
  int <> "" -> all_digits int = true ->
  wire_text neg int frac = "-0" -> int = "0" /\ frac = "".
Proof.
  intros Hne Hd. unfold wire_text. destruct neg.
  - change ("-" ++ ?t) with (String "-" t). intros [= H].
    destruct int as [|c r]; [contradiction|].
    change (String c r ++ ?t) with (String c (r ++ t)) in H.
    injection H as -> H.
    destruct r; [|discriminate H].
    split; [reflexivity|].
    destruct frac; [reflexivity | discriminate H].
  - change ("" ++ ?t) with t.
    destruct int as [|c r]; [contradiction|].
    change (String c r ++ ?t) with (String c (r ++ t)).
    intros [= -> _]. discriminate Hd.
Qed.

(** The text floatToWire returns for a number below 10^21 reads as the
    multiple of 10^-8 nearest to the number, the one of larger magnitude on
    a tie, with the sign of the number unless that multiple is zero. *)
Lemma floatToWire_nearest_decimal (sg : bool) (m : positive) (e : Z)
    (w : string) :
  below_1e21 (S754_finite sg m e) ->
  floatToWire (S754_finite sg m e) = Ok w ->
  exists (neg : bool) (int frac : string),
    w = wire_text neg int frac
    /\ all_digits int = true /\ all_digits frac = true
    /\ (String.length frac <= 8)%nat
    /\ (let N := digits_value int * 10 ^ 8
                 + digits_value frac
                   * 10 ^ (8 - Z.of_nat (String.length frac)) in
        2 * N * mag_den e - mag_den e <= 2 * mag_num m e * 10 ^ 8
          < 2 * N * mag_den e + mag_den e
        /\ neg = sg && negb (N =? 0)).
Proof.
  intros Hx Hw. rewrite (floatToWire_refines _ Hx) in Hw.
  unfold spec_decimalToWire in Hw.
  set (formatted := spec_format8 (S754_finite sg m e)) in Hw.
  destruct (geb _ _); [discriminate|]. injection Hw as <-.
  assert (Hfmt : formatted
                 = (if sg then "-" else "")
                   ++ fixed_string
                        (nearest_scaled (mag_num m e) (mag_den e) 8) 8)
    by reflexivity.
  clearbody formatted. subst formatted.
  pose proof (mag_den_pos e) as Hden.
  assert (Hnum : 0 <= mag_num m e).
  { unfold mag_num. destruct (0 <=? e); [|lia].
    apply Z.mul_nonneg_nonneg; [lia | apply Z.pow_nonneg; lia]. }
  destruct (nearest_scaled_nearest (mag_num m e) (mag_den e) 8 Hnum Hden)
    as [Hn0 Hnear].
  change (Z.of_nat 8) with 8 in Hnear.
  set (n := nearest_scaled (mag_num m e) (mag_den e) 8) in *.
  destruct (Z.eq_dec n 0) as [Hz|Hz].
  { (* the digits of zero are stripped down to "0", or to "-0" *)
    rewrite Hz in *.
    exists false, "0", "".
    split; [destruct sg; vm_compute; reflexivity|].
    split; [reflexivity|]. split; [reflexivity|].
    split; [cbn; lia|].
    change (digits_value "0" * 10 ^ 8
            + digits_value "" * 10 ^ (8 - Z.of_nat (String.length "")))
      with 0.
    split; [exact Hnear|]. rewrite andb_false_r. reflexivity. }
  destruct (fixed_string_8_value n Hn0)
    as (int & frac & Hfs & Hne & Hdi & Hdf & Hlf & Hval).
  rewrite Hfs, <- string_app_assoc.
  rewrite (spec_strip_parts _ frac Hdf).
  destruct (strip_trailing_zeros_digits frac Hdf) as (Hsd & Hsl & _).
  pose proof (strip_trailing_zeros_value frac Hdf) as Hsv.
  rewrite Hlf in Hsv, Hsl. change (Z.of_nat 8) with 8 in Hsv.
  set (f := strip_trailing_zeros frac) in *.
  assert (Hshape : ((if sg then "-" else "") ++ int)
                   ++ match f with "" => "" | String a b => "." ++ String a b end
                   = wire_text sg int f)
    by (unfold wire_text; rewrite string_app_assoc; destruct f; reflexivity).
  rewrite Hshape.
  destruct (String.eqb_spec (wire_text sg int f) "-0") as [E|E].
  - exfalso.
    destruct (wire_text_minus_zero sg int f Hne Hdi E) as [Hi Hf].
    apply Hz. rewrite <- Hval, Hsv, Hi, Hf. reflexivity.
  - exists sg, int, f.
    split; [reflexivity|]. split; [exact Hdi|]. split; [exact Hsd|].
    split; [exact Hsl|].
    cbv zeta. rewrite <- Hsv, Hval. split; [exact Hnear|].
    destruct (Z.eqb_spec n 0) as [Hz'|_]; [contradiction|].
    rewrite andb_true_r. reflexivity.
Qed.

(** C5 -- orderTypeToWire returns the limit variant, its time-in-force
    untouched, when limit is set; otherwise, when trigger is set, the
    trigger variant with the same isMarket flag and tpsl tag and with
    triggerPx re-encoded: a number x goes through floatToWire as it is, a
    string through the number it reads as, and nothing else of the input
    reaches the wire (a rounding error of floatToWire propagates); it
    throws the invalid order type error exactly when neither limit nor
    trigger is set.  For a numeric trigger price below 10^21 the text on
    the wire reads as the multiple of 10^-8 nearest to that price, with
    its sign unless that multiple is zero.  The trigger price
    2500.12345678 goes out as "2500.12345678", the text "1950.50" as
    "1950.5", and the text "2500.123456785" is refused. *)
Theorem orderTypeToWire_cases (orderType : OrderType) :
  orderTypeToWire orderType =
    match limit orderType, trigger orderType with
    | Some l, _ => Ok (WireLimit {| tif := tif l |})
    | None, Some t =>
        rbind (floatToWire (Number_ (triggerPx t)))
              (fun px => Ok (WireTrigger (isMarket t) px (tpsl t)))
    | None, None => Err InvalidOrderType
    end
  /\ (orderTypeToWire orderType = Err InvalidOrderType
      <-> limit orderType = None /\ trigger orderType = None)
  /\ (forall (t : Trigger) (x : number),
        limit orderType = None -> trigger orderType = Some t ->
        triggerPx t = PxNumber x ->
        orderTypeToWire orderType
        = match floatToWire x with
          | Ok px => Ok (WireTrigger (isMarket t) px (tpsl t))
          | Err _ => Err (FloatToWireRounding x)
          end)
  /\ (forall (t : Trigger) (text : string),
        limit orderType = None -> trigger orderType = Some t ->
        triggerPx t = PxString text ->
        orderTypeToWire orderType
        = match floatToWire (StringToNumber text) with
          | Ok px => Ok (WireTrigger (isMarket t) px (tpsl t))
          | Err _ => Err (FloatToWireRounding (StringToNumber text))
          end)
  /\ (forall (w : WireOrderType),
        orderTypeToWire orderType = Ok w ->
        match w with
        | WireLimit l => limit orderType = Some l
        | WireTrigger im px tp =>
            limit orderType = None
            /\ exists t, trigger orderType = Some t
                         /\ im = isMarket t /\ tp = tpsl t
                         /\ match triggerPx t with
                            | PxNumber x => floatToWire x = Ok px
                            | PxString text =>
                                floatToWire (StringToNumber text) = Ok px
                            end
        end)
  /\ (forall (t : Trigger) (sg : bool) (m : positive) (e : Z)
             (im : bool) (px tp : string),
        limit orderType = None -> trigger orderType = Some t ->
        triggerPx t = PxNumber (S754_finite sg m e) ->
        below_1e21 (S754_finite sg m e) ->
        orderTypeToWire orderType = Ok (WireTrigger im px tp) ->
        exists (neg : bool) (int frac : string),
          px = wire_text neg int frac
          /\ all_digits int = true /\ all_digits frac = true
          /\ (String.length frac <= 8)%nat
          /\ (let N := digits_value int * 10 ^ 8
                       + digits_value frac
                         * 10 ^ (8 - Z.of_nat (String.length frac)) in
              2 * N * mag_den e - mag_den e <= 2 * mag_num m e * 10 ^ 8
                < 2 * N * mag_den e + mag_den e
              /\ neg = sg && negb (N =? 0)))
  /\ orderTypeToWire number_trigger
     = Ok (WireTrigger true "2500.12345678" "tp")
  /\ orderTypeToWire text_trigger = Ok (WireTrigger false "1950.5" "sl")
  /\ orderTypeToWire lossy_trigger
     = Err (FloatToWireRounding num_2500_123456785).
Proof.
  assert (Hpx : forall (t : Trigger) (y : number),
            Number_ (triggerPx t) = y ->
            rbind (floatToWire (Number_ (triggerPx t)))
                  (fun px => Ok (WireTrigger (isMarket t) px (tpsl t)))
            = match floatToWire y with
              | Ok px => Ok (WireTrigger (isMarket t) px (tpsl t))
              | Err _ => Err (FloatToWireRounding y)
              end).
  { intros t y Hy. rewrite Hy.
    destruct (floatToWire y) as [px|e] eqn:Hf; cbn [rbind]; [reflexivity|].
    apply floatToWire_error in Hf. subst e. reflexivity. }
  assert (Hinst : orderTypeToWire number_trigger
                  = Ok (WireTrigger true "2500.12345678" "tp")
                  /\ orderTypeToWire text_trigger
                     = Ok (WireTrigger false "1950.5" "sl")
                  /\ orderTypeToWire lossy_trigger
                     = Err (FloatToWireRounding num_2500_123456785)).
  { split; [vm_compute; reflexivity|].
    split; vm_compute; reflexivity. }
  assert (Hnear : forall (t : Trigger) (sg : bool) (m : positive) (e : Z)
             (im : bool) (px tp : string),
        limit orderType = None -> trigger orderType = Some t ->
        triggerPx t = PxNumber (S754_finite sg m e) ->
        below_1e21 (S754_finite sg m e) ->
        orderTypeToWire orderType = Ok (WireTrigger im px tp) ->
        exists (neg : bool) (int frac : string),
          px = wire_text neg int frac
          /\ all_digits int = true /\ all_digits frac = true
          /\ (String.length frac <= 8)%nat
          /\ (let N := digits_value int * 10 ^ 8
                       + digits_value frac
                         * 10 ^ (8 - Z.of_nat (String.length frac)) in
              2 * N * mag_den e - mag_den e <= 2 * mag_num m e * 10 ^ 8
                < 2 * N * mag_den e + mag_den e
              /\ neg = sg && negb (N =? 0))).
  { intros t sg m e im px tp Hl Ht Hx Hbelow. unfold orderTypeToWire.
    rewrite Hl, Ht, Hx. cbn [Number_].
    destruct (floatToWire (S754_finite sg m e)) as [px'|] eqn:Hf;
      cbn [rbind]; [|discriminate].
    intros [= _ <- _].
    apply (floatToWire_nearest_decimal sg m e px' Hbelow Hf). }
  revert Hnear Hinst.
  unfold orderTypeToWire.
  destruct (limit orderType) as [[tf]|]; intros Hnear Hinst.
  - split; [reflexivity|].
    split; [split; [discriminate | intros [H _]; discriminate H]|].
    split; [intros t x H; discriminate H|].
    split; [intros t x H; discriminate H|].
    split; [intros w [= <-]; reflexivity|].
    split; [exact Hnear | exact Hinst].
  - destruct (trigger orderType) as [t|].
    + split; [reflexivity|].
      split.
      { split; [|intros [_ H]; discriminate H].
        destruct (floatToWire (Number_ (triggerPx t))) as [px|e] eqn:Hf;
          cbn [rbind]; [discriminate|].
        apply floatToWire_error in Hf. subst e. discriminate. }
      split.
      { intros t' x _ [= <-] Hx. apply Hpx. rewrite Hx. reflexivity. }
      split.
      { intros t' text _ [= <-] Hx. apply Hpx. rewrite Hx. reflexivity. }
      split; [|split; [exact Hnear | exact Hinst]].
      intros w.
      destruct (floatToWire (Number_ (triggerPx t))) as [px|e] eqn:Hf;
        cbn [rbind]; [|discriminate].
      intros [= <-]. split; [reflexivity|].
      exists t. repeat split.
      destruct (triggerPx t); exact Hf.
    + split; [reflexivity|].
      split; [split; [intros _; split; reflexivity | reflexivity]|].
      split; [intros t x _ H; discriminate H|].
      split; [intros t x _ H; discriminate H|].
      split; [intros w H; discriminate H|].
      split; [exact Hnear | exact Hinst].
Qed.

End TriggerPrice.

Lemma orderTypeToWire_cases_witness :
  orderTypeToWire empty_order_type = Err InvalidOrderType
  /\ orderTypeToWire lossy_trigger <> Err InvalidOrderType
  /\ orderTypeToWire number_trigger
     = Ok (WireTrigger true "2500.12345678" "tp")
  /\ orderTypeToWire text_trigger = Ok (WireTrigger false "1950.5" "sl").
Proof.
  split; [|split; [|split]].
  - apply (proj1 (proj2 (orderTypeToWire_cases empty_order_type))).
    split; reflexivity.
  - intros H. apply (proj1 (proj2 (orderTypeToWire_cases lossy_trigger))) in H.
    destruct H as [_ H]. discriminate H.
  - destruct (orderTypeToWire_cases number_trigger) as (_ & _ & Hnum & _).
    rewrite (Hnum _ num_2500_12345678 eq_refl eq_refl eq_refl).
    vm_compute. reflexivity.
  - destruct (orderTypeToWire_cases text_trigger) as (_ & _ & _ & Htext & _).
    rewrite (Htext _ "1950.50" eq_refl eq_refl eq_refl).
    vm_compute. reflexivity.
Defined.

(** ** What the rounding guards let through *)

(** X2 -- The rounding guards never fire on NaN or on an infinity:
    floatToWire returns the text "NaN", "Infinity" or "-Infinity",
    floatToIntForHashing and floatToUsdInt return the number itself, and an
    order with such a price is mapped to a wire order whose p is that
    text. *)
Theorem guards_pass_non_finite (x : number) (order : Order) (asset : Z) :
  is_finite x = false ->
  limit_px order = x ->
  floatToWire x = Ok (NumberToString x)
  /\ (NumberToString x = "NaN" \/ NumberToString x = "Infinity"
      \/ NumberToString x = "-Infinity")
  /\ floatToIntForHashing x = Ok x
  /\ floatToUsdInt x = Ok x
  /\ (forall w : OrderWire,
        orderToWire order asset = Ok w ->
        wire_get "p" w = Some (WStr (NumberToString x))).
Proof.
  intros Hfin Hpx.
  assert (Hw : floatToWire x = Ok (NumberToString x)).
  { destruct x as [sg|[|]| |sg m e]; try discriminate Hfin;
      vm_compute; reflexivity. }
  split; [exact Hw|].
  split.
  { destruct x as [sg|[|]| |sg m e]; try discriminate Hfin; cbn; tauto. }
  split.
  { destruct x as [sg|[|]| |sg m e]; try discriminate Hfin;
      vm_compute; reflexivity. }
  split.
  { destruct x as [sg|[|]| |sg m e]; try discriminate Hfin;
      vm_compute; reflexivity. }
  intros w. unfold orderToWire. rewrite Hpx, Hw. cbn [rbind].
  destruct (floatToWire (sz order)) as [sw|]; [|discriminate].
  destruct (orderTypeToWire (order_type order)) as [t|]; [|discriminate].
  cbn [rbind]. intros [= <-].
  destruct (cloid order); reflexivity.
Qed.

Lemma guards_pass_non_finite_witness :
  floatToWire NaN = Ok "NaN"
  /\ orderToWire
       {| coin := "ETH"; is_buy := true; sz := num_1; limit_px := NaN;
          order_type := {| limit := Some {| tif := "Gtc" |}; trigger := None |};
          reduce_only := false; cloid := None |} 5
     = Ok [("a", WInt 5); ("b", WBool true); ("p", WStr "NaN");
           ("s", WStr "1"); ("r", WBool false);
           ("t", WType (WireLimit {| tif := "Gtc" |}))].
Proof.
  destruct (guards_pass_non_finite NaN
              {| coin := "ETH"; is_buy := true; sz := num_1; limit_px := NaN;
                 order_type := {| limit := Some {| tif := "Gtc" |};
                                  trigger := None |};
                 reduce_only := false; cloid := None |} 5)
    as (Hw & _).
  - reflexivity.
  - reflexivity.
  - split; [exact Hw | vm_compute; reflexivity].
Defined.

(** X3 -- orderToWire fails only in four ways, tried in this order: the
    rounding error of the price, the rounding error of the size, the
    rounding error of the trigger price (for an order type without limit),
    and the invalid order type error (for an order type with neither limit
    nor trigger).  It succeeds exactly when floatToWire accepts price and
    size and orderTypeToWire accepts the order type. *)
Theorem orderToWire_failures (order : Order) (asset : Z) :
  (forall e : error,
     orderToWire order asset = Err e ->
     e = FloatToWireRounding (limit_px order)
     \/ (is_ok (floatToWire (limit_px order)) = true
         /\ e = FloatToWireRounding (sz order))
     \/ (is_ok (floatToWire (limit_px order)) = true
         /\ is_ok (floatToWire (sz order)) = true
         /\ limit (order_type order) = None
         /\ ((exists t, trigger (order_type order) = Some t
                        /\ e = FloatToWireRounding (Number_ (triggerPx t)))
             \/ (trigger (order_type order) = None /\ e = InvalidOrderType))))
  /\ (is_ok (orderToWire order asset)
      = is_ok (floatToWire (limit_px order))
        && is_ok (floatToWire (sz order))
        && is_ok (orderTypeToWire (order_type order)))
  /\ (forall asset' : Z,
        is_ok (orderToWire order asset') = is_ok (orderToWire order asset)).
Proof.
  assert (Hok : forall a : Z,
            is_ok (orderToWire order a)
            = is_ok (floatToWire (limit_px order))
              && is_ok (floatToWire (sz order))
              && is_ok (orderTypeToWire (order_type order))).
  { intros a. unfold orderToWire.
    destruct (floatToWire (limit_px order)); [|reflexivity].
    destruct (floatToWire (sz order)); [|reflexivity].
    destruct (orderTypeToWire (order_type order)); reflexivity. }
  split; [|split; [apply Hok | intros a; rewrite !Hok; reflexivity]].
  intros e. unfold orderToWire.
  destruct (floatToWire (limit_px order)) as [p|e1] eqn:Hp; cbn [rbind].
  2:{ intros [= <-]. left. apply (floatToWire_error _ _ Hp). }
  destruct (floatToWire (sz order)) as [sw|e2] eqn:Hs; cbn [rbind].
  2:{ intros [= <-]. right. left. split; [reflexivity|].
      apply (floatToWire_error _ _ Hs). }
  unfold orderTypeToWire.
  destruct (limit (order_type order)) as [l|]; cbn [rbind]; [discriminate|].
  destruct (trigger (order_type order)) as [t|].
  - destruct (floatToWire (Number_ (triggerPx t))) as [px|e3] eqn:Ht;
      cbn [rbind]; [discriminate|].
    intros [= <-]. right. right. repeat split.
    left. exists t. split; [reflexivity | apply (floatToWire_error _ _ Ht)].
  - cbn [rbind]. intros [= <-]. right. right. repeat split.
    right. split; reflexivity.
Qed.

Lemma orderToWire_failures_witness :
  orderToWire
    {| coin := "ETH"; is_buy := true; sz := num_2500_123456785;
       limit_px := num_1; order_type := empty_order_type;
       reduce_only := false; cloid := None |} 5
  = Err (FloatToWireRounding num_2500_123456785).
Proof.
  set (o := {| coin := "ETH"; is_buy := true; sz := num_2500_123456785;
               limit_px := num_1; order_type := empty_order_type;
               reduce_only := false; cloid := None |}).
  destruct (orderToWire o 5) as [w|e] eqn:Hr.
  - exfalso. vm_compute in Hr. discriminate Hr.
  - destruct (proj1 (orderToWire_failures o 5) e Hr)
      as [He|[[_ He]|(_ & Hs & _)]].
    + exfalso. rewrite He in Hr. vm_compute in Hr. discriminate Hr.
    + rewrite He. reflexivity.
    + exfalso. vm_compute in Hs. discriminate Hs.
Defined.

(** ** More on the hashed buffer *)

Local Open Scope list_scope.
Local Open Scope Z_scope.

Section BufferProofs.

Context {Action : Type}.
Variable encode : Action -> bytes.
Variable keccak256 : bytes -> string.

(** With a vault address, the buffer just before the address is copied
    in. *)
Lemma actionHashData_before_address (action : Action) (address : string)
    (nonce : number) (n : Z) :
  NumberToBigInt nonce = Ok n ->
  actionHashData encode action (Some address) nonce =
  rbind (getBytes address) (fun addr =>
    u8_set ((encode action ++ be_bytes 8 (n mod 2 ^ 64) ++ [1])
              ++ repeat 0 20)
           addr
           (length (encode action ++ be_bytes 8 (n mod 2 ^ 64) ++ [1]))).
Proof.
  intros Hn. unfold actionHashData.
  set (msg := encode action).
  set (be := be_bytes 8 (n mod 2 ^ 64)).
  assert (Hbe : length be = 8%nat) by apply be_bytes_length.
  rewrite Hn.
  replace (new_Uint8Array (length msg + 29))
    with ([] ++ repeat 0 (length msg) ++ repeat 0 29)
    by (unfold new_Uint8Array; rewrite repeat_app; reflexivity).
  rewrite (u8_set_splice [] _ _ msg) by apply repeat_length.
  cbn [rbind app]. unfold setBigUint64. fold be.
  change (repeat 0 29) with (repeat 0 8 ++ repeat 0 21).
  rewrite (u8_set_splice msg (repeat 0 8) _ be) by (rewrite Hbe; reflexivity).
  cbn [rbind]. unfold setUint8.
  replace (length msg + 8)%nat with (length (msg ++ be))
    by (rewrite length_app, Hbe; reflexivity).
  replace (msg ++ be ++ repeat 0 21)
    with ((msg ++ be) ++ [0] ++ repeat 0 20)
    by (rewrite <- app_assoc; reflexivity).
  rewrite (u8_set_splice (msg ++ be) [0] _ [1 mod 256]) by reflexivity.
  cbn [rbind]. unfold addressToBytes.
  replace (length msg + 9)%nat with (length (msg ++ be ++ [1]))
    by (rewrite !length_app, Hbe; cbn [length]; lia).
  change (1 mod 256) with 1.
  replace ((msg ++ be) ++ [1] ++ repeat 0 20)
    with ((msg ++ be ++ [1]) ++ repeat 0 20)
    by (rewrite <- !app_assoc; reflexivity).
  reflexivity.
Qed.

(** X4 -- With a vault address that is not 20 bytes long actionHash does
    not check the length: an address of fewer than 20 bytes is hashed as if
    padded with zero bytes on the right (the buffer keeps its
    serializedLength + 29 bytes), an address of more than 20 bytes makes
    data.set throw the offset RangeError, and a string that is not "0x"
    followed by pairs of hex digits makes getBytes throw. *)
Theorem actionHash_vault_length (action : Action) (address : string)
    (nonce : number) (n : Z) :
  integer_value nonce n ->
  let head := encode action ++ be_bytes 8 (n mod 2 ^ 64) ++ [1] in
  (forall addr : bytes,
     getBytes address = Ok addr ->
     (length addr <= 20)%nat ->
     let buffer := head ++ addr ++ repeat 0 (20 - length addr) in
     actionHashData encode action (Some address) nonce = Ok buffer
     /\ actionHash encode keccak256 action (Some address) nonce
        = Ok (keccak256 buffer)
     /\ length buffer = (length (encode action) + 29)%nat)
  /\ (forall addr : bytes,
        getBytes address = Ok addr ->
        (20 < length addr)%nat ->
        actionHash encode keccak256 action (Some address) nonce
        = Err OffsetRangeError)
  /\ (forall e : error,
        getBytes address = Err e ->
        actionHash encode keccak256 action (Some address) nonce = Err e).
Proof.
  intros Hint head.
  pose proof (actionHashData_before_address action address nonce n
                (NumberToBigInt_integer nonce n Hint)) as Hdata.
  fold head in Hdata.
  split; [|split].
  - intros addr Hb Hlen buffer.
    assert (Hd : actionHashData encode action (Some address) nonce = Ok buffer).
    { rewrite Hdata, Hb. cbn [rbind].
      replace (repeat 0 20)
        with (repeat 0 (length addr) ++ repeat 0 (20 - length addr))
        by (rewrite <- repeat_app; f_equal; lia).
      apply u8_set_splice. apply repeat_length. }
    split; [exact Hd|].
    split; [unfold actionHash; rewrite Hd; reflexivity|].
    subst buffer head.
    rewrite !length_app, be_bytes_length, repeat_length. cbn [length]. lia.
  - intros addr Hb Hlen. unfold actionHash.
    rewrite Hdata, Hb. cbn [rbind]. unfold u8_set.
    rewrite length_app, repeat_length.
    destruct (Nat.leb_spec (length head + length addr) (length head + 20));
      [lia | reflexivity].
  - intros e Hb. unfold actionHash. rewrite Hdata, Hb. reflexivity.
Qed.

Lemma be_bytes_inj (a b : Z) :
  be_bytes 8 (a mod 2 ^ 64) = be_bytes 8 (b mod 2 ^ 64) ->
  a mod 2 ^ 64 = b mod 2 ^ 64.
Proof.
  intros H. apply (f_equal be_value) in H.
  rewrite !be_value_be_bytes in H.
  change (8 * Z.of_nat 8) with 64 in H.
  rewrite !Z.mod_mod in H by lia. exact H.
Qed.

(** X5 -- For one action, two calls of actionHash hash the same buffer
    exactly when the nonces agree modulo 2^64, the vault addresses are both
    null or both present, and the address bytes are the same: nothing else
    of the inputs reaches the hash, and nonces 2^64 apart collide. *)
Theorem actionHash_buffer_equal (action : Action)
    (vault1 vault2 : option string) (nonce1 nonce2 : number)
    (n1 n2 : Z) (addr1 addr2 : bytes) :
  integer_value nonce1 n1 ->
  integer_value nonce2 n2 ->
  vault_ok vault1 addr1 ->
  vault_ok vault2 addr2 ->
  actionHashData encode action vault1 nonce1
  = actionHashData encode action vault2 nonce2
  <-> n1 mod 2 ^ 64 = n2 mod 2 ^ 64
      /\ vault_flag vault1 = vault_flag vault2
      /\ addr1 = addr2.
Proof.
  intros H1 H2 Hv1 Hv2.
  rewrite (actionHashData_layout encode action vault1 nonce1 n1 addr1
             (NumberToBigInt_integer _ _ H1) Hv1).
  rewrite (actionHashData_layout encode action vault2 nonce2 n2 addr2
             (NumberToBigInt_integer _ _ H2) Hv2).
  split.
  - intros H.
    apply (f_equal (fun res => match res with Ok d => d | Err _ => [] end))
      in H.
    cbv beta iota in H. apply app_inv_head in H.
    apply app_inj_1 in H; [|rewrite !be_bytes_length; reflexivity].
    destruct H as [Hbe Hrest]. injection Hrest as Hf Ha.
    split; [apply be_bytes_inj; exact Hbe|]. split; assumption.
  - intros (Hn & Hf & Ha). rewrite Hn, Hf, Ha. reflexivity.
Qed.

End BufferProofs.

Lemma actionHash_vault_length_witness :
  actionHashData sample_encode [1; 2; 3] (Some "0x0102") sample_nonce
  = Ok ([1; 2; 3; 0; 0; 1; 139; 207; 229; 104; 0; 1] ++ [1; 2] ++ repeat 0 18).
Proof.
  destruct (actionHash_vault_length sample_encode sample_keccak256 [1; 2; 3]
              "0x0102" sample_nonce 1700000000000) as (Hshort & _).
  - vm_compute. reflexivity.
  - destruct (Hshort [1; 2]) as (Hdata & _).
    + reflexivity.
    + cbn [length]. lia.
    + exact Hdata.
Defined.

Lemma actionHash_buffer_equal_witness :
  actionHashData sample_encode [1; 2; 3] None (of_Z 4096)
  = actionHashData sample_encode [1; 2; 3] None (of_Z (4096 + 2 ^ 64)).
Proof.
  apply (actionHash_buffer_equal sample_encode [1; 2; 3] None None
           (of_Z 4096) (of_Z (4096 + 2 ^ 64)) 4096 (4096 + 2 ^ 64) [] []).
  - vm_compute. reflexivity.
  - vm_compute. reflexivity.
  - split; [reflexivity | intros H; contradiction H; reflexivity].
  - split; [reflexivity | intros H; contradiction H; reflexivity].
  - repeat split.
Defined.

(** ** The wires of a batch *)

Lemma all_results_Ok (rs : list (result OrderWire)) (ws : list OrderWire) :
  all_results rs = Ok ws <-> rs = map Ok ws.
Proof.
  revert ws. induction rs as [|[w|e] rs IH]; intros ws; cbn [all_results rbind].
  - split; [intros [= <-]; reflexivity | destruct ws; [reflexivity|discriminate]].
  - destruct (all_results rs) as [xs|e'] eqn:Hrs; cbn [rbind].
    + split.
      * intros [= <-]. cbn [map]. f_equal. apply IH. reflexivity.
      * destruct ws as [|w' ws']; [discriminate|]. cbn [map].
        intros [= -> Hrest]. apply IH in Hrest. congruence.
    + split; [discriminate|].
      destruct ws as [|w' ws']; [discriminate|]. cbn [map].
      intros [= -> Hrest]. apply IH in Hrest. discriminate.
  - split; [discriminate | destruct ws; discriminate].
Qed.

Lemma all_results_Err (rs : list (result OrderWire)) (e : error) :
  Err e ∈ rs -> is_ok (all_results rs) = false.
Proof.
  induction rs as [|[w|e'] rs IH]; intros Hin.
  - inversion Hin.
  - cbn [all_results rbind].
    apply elem_of_cons in Hin as [Hin|Hin]; [discriminate|].
    specialize (IH Hin). destruct (all_results rs); [discriminate|reflexivity].
  - reflexivity.
Qed.

Section BatchWires.

Variable resolver : string -> option Z.

Lemma map_start_placeOrder_awaiting (orders : list Order) :
  forall st : resolve_state,
    (forall o, o ∈ orders -> assetIndexCache st !! coin o = None) ->
    fst (map_start placeOrder_start orders st) = map Awaiting orders.
Proof.
  induction orders as [|o rest IH]; intros st Hmiss; cbn [map_start].
  - reflexivity.
  - assert (Hs : placeOrder_start o st
                 = (Awaiting o, invoke_resolver (coin o) st)).
    { unfold placeOrder_start.
      rewrite (Hmiss o) by (left; reflexivity). reflexivity. }
    rewrite Hs. cbv beta iota.
    specialize (IH (invoke_resolver (coin o) st)).
    destruct (map_start placeOrder_start rest (invoke_resolver (coin o) st))
      as [cs st2].
    cbn [fst map] in *. rewrite IH; [reflexivity|].
    intros o' Ho'. cbn. apply Hmiss. right. exact Ho'.
Qed.

Lemma map_start_placeOrdersTpSl_awaiting (orders : list Order) :
  forall st : resolve_state,
    fst (map_start placeOrdersTpSl_start orders st) = map Awaiting orders.
Proof.
  induction orders as [|o rest IH]; intros st; cbn [map_start].
  - reflexivity.
  - change (placeOrdersTpSl_start o st)
      with (Awaiting o, invoke_resolver (coin o) st).
    cbv beta iota.
    specialize (IH (invoke_resolver (coin o) st)).
    destruct (map_start placeOrdersTpSl_start rest
                (invoke_resolver (coin o) st)) as [cs st2].
    cbn [fst map] in *. rewrite IH. reflexivity.
Qed.

Lemma settle_awaiting
    (resume : Order -> resolve_state -> result OrderWire * resolve_state)
    (orders : list Order) :
  (forall o st, fst (resume o st) = resolved_wire resolver o) ->
  forall st,
    fst (settle resume (map Awaiting orders) st)
    = map (resolved_wire resolver) orders.
Proof.
  intros Hres. induction orders as [|o rest IH]; intros st; cbn [map settle].
  - reflexivity.
  - specialize (Hres o st). destruct (resume o st) as [w st1].
    specialize (IH st1). destruct (settle resume (map Awaiting rest) st1).
    cbn [fst] in *. congruence.
Qed.

Lemma placeOrder_resume_wire (o : Order) (st : resolve_state) :
  fst (placeOrder_resume resolver o st) = resolved_wire resolver o.
Proof.
  unfold placeOrder_resume, resolved_wire.
  destruct (getAssetIndex_resume resolver (coin o)); reflexivity.
Qed.

Lemma placeOrdersTpSl_resume_wire (o : Order) (st : resolve_state) :
  fst (placeOrdersTpSl_resume resolver o st) = resolved_wire resolver o.
Proof.
  unfold placeOrdersTpSl_resume, resolved_wire.
  destruct (getAssetIndex_resume resolver (coin o)); reflexivity.
Qed.

(** X6 -- placeOrder, getTxObjectPlaceOrder and placeOrdersTpSl compute
    the same wires for a batch: when the batch goes through there is one
    wire per order, in the order of the batch, each built by orderToWire
    from its own order and the index the resolver gives for that order's
    coin; a batch with a coin the resolver does not know never goes
    through. *)
Theorem batch_wires (ordersArray : list Order) :
  let wires := all_results (map (resolved_wire resolver) ordersArray) in
  fst (placeOrder_orderWires resolver ordersArray) = wires
  /\ fst (getTxObjectPlaceOrder_orderWires resolver ordersArray) = wires
  /\ fst (placeOrdersTpSl_orderWires resolver ordersArray) = wires
  /\ (forall ws : list OrderWire,
        wires = Ok ws ->
        Forall2 (fun o w => exists a : Z,
                   resolver (coin o) = Some a /\ orderToWire o a = Ok w)
                ordersArray ws)
  /\ (forall o : Order,
        o ∈ ordersArray -> resolver (coin o) = None ->
        is_ok wires = false).
Proof.
  intros wires.
  assert (H1 : fst (placeOrder_orderWires resolver ordersArray) = wires).
  { unfold placeOrder_orderWires, resolve_batch.
    pose proof (map_start_placeOrder_awaiting ordersArray initial_state) as Hc.
    destruct (map_start placeOrder_start ordersArray initial_state)
      as [cs st1].
    cbn [fst] in Hc. rewrite Hc by (intros o _; apply lookup_empty).
    pose proof (settle_awaiting (placeOrder_resume resolver) ordersArray
                  placeOrder_resume_wire st1) as Hs.
    destruct (settle (placeOrder_resume resolver) (map Awaiting ordersArray)
                st1) as [ws st2].
    cbn [fst] in *. rewrite Hs. reflexivity. }
  split; [exact H1|]. split; [exact H1|]. split; [|split].
  - unfold placeOrdersTpSl_orderWires, resolve_batch.
    pose proof (map_start_placeOrdersTpSl_awaiting ordersArray initial_state)
      as Hc.
    destruct (map_start placeOrdersTpSl_start ordersArray initial_state)
      as [cs st1].
    cbn [fst] in Hc. rewrite Hc.
    pose proof (settle_awaiting (placeOrdersTpSl_resume resolver) ordersArray
                  placeOrdersTpSl_resume_wire st1) as Hs.
    destruct (settle (placeOrdersTpSl_resume resolver)
                (map Awaiting ordersArray) st1) as [ws st2].
    cbn [fst] in *. rewrite Hs. reflexivity.
  - intros ws Hws. subst wires. apply all_results_Ok in Hws.
    clear H1. revert ws Hws.
    induction ordersArray as [|o rest IH]; intros [|w ws] Hws;
      cbn [map] in Hws; try discriminate; constructor.
    + injection Hws as Ho _. unfold resolved_wire, getAssetIndex_resume in Ho.
      destruct (resolver (coin o)) as [a|]; [|discriminate].
      exists a. split; [reflexivity | exact Ho].
    + apply IH. injection Hws as _ Hrest. exact Hrest.
  - intros o Ho Hnone. subst wires.
    apply (all_results_Err _ (UnknownAsset (coin o))).
    apply list_elem_of_fmap. exists o. split; [|exact Ho].
    unfold resolved_wire, getAssetIndex_resume. rewrite Hnone. reflexivity.
Qed.

End BatchWires.

Lemma batch_wires_witness :
  Forall2 (fun o w => exists a : Z,
             sample_resolver (coin o) = Some a /\ orderToWire o a = Ok w)
          eth_pair
          [[("a", WInt 5); ("b", WBool true); ("p", WStr "2500.12345678");
            ("s", WStr "1"); ("r", WBool false);
            ("t", WType (WireLimit {| tif := "Gtc" |}))];
           [("a", WInt 5); ("b", WBool true); ("p", WStr "2500.12345678");
            ("s", WStr "1"); ("r", WBool false);
            ("t", WType (WireLimit {| tif := "Gtc" |}))]].
Proof.
  destruct (batch_wires sample_resolver eth_pair) as (_ & _ & _ & Hws & _).
  apply Hws. vm_compute. reflexivity.
Defined.

(** ** Modifying and cancelling orders *)

Section ModifyCancel.

Variable resolver : string -> option Z.
Variable convertSymbol : string -> string.

Lemma all_indices_resolved (modifies : list Modify) :
  (forall m, m ∈ modifies -> resolver (coin (modify_order m)) <> None) ->
  all_indices resolver (map (fun m => coin (modify_order m)) modifies)
  = Ok (map (resolved_index resolver) modifies).
Proof.
  induction modifies as [|m rest IH]; intros Hall; cbn [map all_indices].
  - reflexivity.
  - unfold getAssetIndex_resume, resolved_index at 1.
    destruct (resolver (coin (modify_order m))) as [i|] eqn:Hm.
    + cbn [rbind]. rewrite IH; [reflexivity|].
      intros m' Hm'. apply Hall. right. exact Hm'.
    + exfalso. apply (Hall m); [left; reflexivity | exact Hm].
Qed.

Lemma modify_wires_zero (modifies : list Modify) :
  (forall m, m ∈ modifies ->
     is_ok (orderToWire (modify_order m) (resolved_index resolver m)) = true) ->
  (exists m, m ∈ modifies /\ resolved_index resolver m = 0) ->
  modify_wires modifies (map (resolved_index resolver) modifies)
  = Throws NonExistentAssets.
Proof.
  induction modifies as [|m rest IH]; intros Hok [m0 [Hin H0]].
  - inversion Hin.
  - cbn [map modify_wires].
    destruct (Z.eqb_spec (resolved_index resolver m) 0) as [Hz|Hnz]; [reflexivity|].
    pose proof (Hok m ltac:(left; reflexivity)) as Hm.
    destruct (orderToWire (modify_order m) (resolved_index resolver m));
      [|discriminate Hm].
    rewrite IH; [reflexivity| |].
    + intros m' Hm'. apply Hok. right. exact Hm'.
    + apply elem_of_cons in Hin as [->|Hin]; [contradiction|].
      exists m0. split; assumption.
Qed.

Lemma modify_wires_nonzero (modifies : list Modify) :
  (forall m, m ∈ modifies ->
     is_ok (orderToWire (modify_order m) (resolved_index resolver m)) = true) ->
  (forall m, m ∈ modifies -> resolved_index resolver m <> 0) ->
  exists ws,
    modify_wires modifies (map (resolved_index resolver) modifies) = Done ws
    /\ map fst ws = map modify_oid modifies
    /\ Forall2 (fun m w =>
                  orderToWire (modify_order m) (resolved_index resolver m) = Ok (snd w))
               modifies ws.
Proof.
  induction modifies as [|m rest IH]; intros Hok Hnz.
  - exists []. repeat split. constructor.
  - cbn [map modify_wires].
    destruct (Z.eqb_spec (resolved_index resolver m) 0) as [Hz|_].
    { exfalso. apply (Hnz m); [left; reflexivity | exact Hz]. }
    pose proof (Hok m ltac:(left; reflexivity)) as Hm.
    destruct (orderToWire (modify_order m) (resolved_index resolver m)) as [w|] eqn:Hw;
      [|discriminate Hm].
    destruct IH as (ws & Hws & Hoids & Hall).
    + intros m' Hm'. apply Hok. right. exact Hm'.
    + intros m' Hm'. apply Hnz. right. exact Hm'.
    + rewrite Hws. exists ((modify_oid m, w) :: ws).
      split; [reflexivity|]. split; [cbn [map fst]; f_equal; exact Hoids|].
      constructor; [exact Hw | exact Hall].
Qed.

(** X7 -- batchModifyOrders treats the asset index 0 as a missing asset:
    for a batch whose coins all resolve and whose orders all encode, the
    call throws "non-existent assets" as soon as one coin resolves to index
    0, and otherwise it yields one {oid, order} per request, in order, with
    the wire of that order.  modifyOrder has no such check and goes through
    with index 0. *)
Theorem batchModifyOrders_index_zero (modifies : list Modify) :
  (forall m, m ∈ modifies ->
     exists i, resolver (coin (modify_order m)) = Some i
               /\ is_ok (orderToWire (modify_order m) i) = true) ->
  ((exists m, m ∈ modifies /\ resolver (coin (modify_order m)) = Some 0) ->
   batchModifyOrders_modifies resolver modifies = Throws NonExistentAssets)
  /\ ((forall m, m ∈ modifies ->
         resolver (coin (modify_order m)) <> Some 0) ->
      exists ws,
        batchModifyOrders_modifies resolver modifies = Done ws
        /\ map fst ws = map modify_oid modifies
        /\ Forall2 (fun m w =>
                      exists i, resolver (coin (modify_order m)) = Some i
                                /\ orderToWire (modify_order m) i = Ok (snd w))
                   modifies ws)
  /\ (forall m, m ∈ modifies ->
        resolver (coin (modify_order m)) = Some 0 ->
        exists w,
          modifyOrder_order resolver (modify_oid m) (modify_order m)
          = Done (modify_oid m, w)
          /\ wire_get "a" w = Some (WInt 0)).
Proof.
  intros Hall.
  assert (Hres : forall m, m ∈ modifies ->
                   resolver (coin (modify_order m)) <> None).
  { intros m Hm. destruct (Hall m Hm) as (i & Hi & _). congruence. }
  assert (Hok : forall m, m ∈ modifies ->
                  is_ok (orderToWire (modify_order m) (resolved_index resolver m)) = true).
  { intros m Hm. destruct (Hall m Hm) as (i & Hi & Hw).
    unfold resolved_index. rewrite Hi. exact Hw. }
  unfold batchModifyOrders_modifies.
  rewrite (all_indices_resolved modifies Hres).
  split; [|split].
  - intros (m & Hm & H0). apply modify_wires_zero; [exact Hok|].
    exists m. split; [exact Hm|]. unfold resolved_index. rewrite H0. reflexivity.
  - intros Hnz.
    destruct (modify_wires_nonzero modifies Hok) as (ws & Hws & Hoids & Hf).
    { intros m Hm Hz. destruct (Hall m Hm) as (i & Hi & _).
      unfold resolved_index in Hz. rewrite Hi in Hz. subst i.
      apply (Hnz m Hm). exact Hi. }
    exists ws. split; [exact Hws|]. split; [exact Hoids|].
    clear Hws Hoids. induction Hf as [|m w ms ws' Hw Hf IH]; constructor.
    + destruct (Hall m ltac:(left; reflexivity)) as (i & Hi & _).
      exists i. split; [exact Hi|].
      unfold resolved_index in Hw. rewrite Hi in Hw. exact Hw.
    + apply IH.
      * intros m' Hm'. apply Hall. right. exact Hm'.
      * intros m' Hm'. apply Hres. right. exact Hm'.
      * intros m' Hm'. apply Hok. right. exact Hm'.
      * intros m' Hm'. apply Hnz. right. exact Hm'.
  - intros m Hm H0. destruct (Hall m Hm) as (i & Hi & Hw).
    rewrite H0 in Hi. injection Hi as <-.
    unfold modifyOrder_order, getAssetIndex_resume. rewrite H0.
    destruct (orderToWire (modify_order m) 0) as [w|] eqn:Ew;
      [|discriminate Hw].
    exists w. split; [reflexivity|].
    revert Ew. unfold orderToWire.
    destruct (floatToWire (limit_px (modify_order m))); [|discriminate].
    destruct (floatToWire (sz (modify_order m))); [|discriminate].
    destruct (orderTypeToWire (order_type (modify_order m))); [|discriminate].
    cbn [rbind]. intros [= <-]. destruct (cloid (modify_order m)); reflexivity.
Qed.

End ModifyCancel.

Lemma batchModifyOrders_index_zero_witness :
  batchModifyOrders_modifies zero_resolver
    [{| modify_oid := 7; modify_order := scenario_order |}]
  = Throws NonExistentAssets.
Proof.
  destruct (batchModifyOrders_index_zero zero_resolver
              [{| modify_oid := 7; modify_order := scenario_order |}])
    as (Hzero & _).
  - intros m Hm. apply list_elem_of_singleton in Hm. subst m.
    exists 0. split; [reflexivity | vm_compute; reflexivity].
  - apply Hzero.
    exists {| modify_oid := 7; modify_order := scenario_order |}.
    split; [apply list_elem_of_singleton; reflexivity | reflexivity].
Defined.

Section CancelAll.

Variable resolver : string -> option Z.
Variable convertSymbol : string -> string.

Lemma cancelOrder_cancels_Ok (cancels : list CancelOrderRequest) :
  forall cs : list (Z * Z),
    cancelOrder_cancels resolver cancels = Ok cs ->
    Forall2 (fun req c => resolver (cancel_coin req) = Some (fst c)
                          /\ snd c = cancel_o req) cancels cs.
Proof.
  induction cancels as [|req rest IH]; intros cs; cbn [cancelOrder_cancels].
  - intros [= <-]. constructor.
  - unfold getAssetIndex_resume.
    destruct (resolver (cancel_coin req)) as [a|] eqn:Ha; [|discriminate].
    cbn [rbind].
    destruct (cancelOrder_cancels resolver rest) as [cs'|]; [|discriminate].
    cbn [rbind]. intros [= <-]. constructor.
    + split; [exact Ha | reflexivity].
    + apply IH. reflexivity.
Qed.

Lemma lift_not_no_orders {A} (res : result A) :
  lift res <> Throws NoOrdersToCancel.
Proof. destruct res; discriminate. Qed.

Lemma cancelOrder_cancels_resolved (cancels : list CancelOrderRequest) :
  (forall req, req ∈ cancels -> resolver (cancel_coin req) <> None) ->
  is_ok (cancelOrder_cancels resolver cancels) = true.
Proof.
  induction cancels as [|req rest IH]; intros Hres; cbn [cancelOrder_cancels];
    [reflexivity|].
  unfold getAssetIndex_resume.
  destruct (resolver (cancel_coin req)) as [a|] eqn:Ha.
  - cbn [rbind].
    assert (Hrest : is_ok (cancelOrder_cancels resolver rest) = true).
    { apply IH. intros r0 Hr0. apply Hres. right. exact Hr0. }
    destruct (cancelOrder_cancels resolver rest) as [cs|];
      [reflexivity | discriminate Hrest].
  - exfalso. apply (Hres req); [left | exact Ha].
Qed.

(** X8 -- cancelAllOrders works on the sublist of the open orders that
    the symbol selects, kept in the order of the open orders: with a
    non-empty symbol the orders whose converted coin is that symbol, with
    no symbol or the empty string all of them.  It throws "No orders to
    cancel" exactly when that sublist is empty; when it goes through, the
    cancels are, position by position, those of that sublist: the oid of
    the order with the asset index of its converted coin; and it goes
    through as soon as the sublist is not empty and every converted coin
    in it resolves. *)
Theorem cancelAllOrders_selection (symbol : option string)
    (openOrders : list OpenOrder) :
  let selects (o : OpenOrder) : bool :=
    match symbol with
    | Some sym =>
        String.eqb sym "" || String.eqb (convertSymbol (open_coin o)) sym
    | None => true
    end in
  let selected := List.filter selects openOrders in
  (cancelAllOrders resolver convertSymbol symbol openOrders
   = Throws NoOrdersToCancel
   <-> selected = [])
  /\ (cancelAllOrders resolver convertSymbol symbol openOrders
      = Throws NoOrdersToCancel
      <-> forall o, o ∈ openOrders -> selects o = false)
  /\ (forall cs : list (Z * Z),
        cancelAllOrders resolver convertSymbol symbol openOrders = Done cs ->
        Forall2 (fun o c =>
                   resolver (convertSymbol (open_coin o)) = Some (fst c)
                   /\ snd c = open_oid o) selected cs
        /\ map snd cs = map open_oid selected)
  /\ (selected <> [] ->
      (forall o, o ∈ selected ->
         resolver (convertSymbol (open_coin o)) <> None) ->
      exists cs : list (Z * Z),
        cancelAllOrders resolver convertSymbol symbol openOrders = Done cs).
Proof.
  intros selects selected.
  set (conv := fun o => {| open_coin := convertSymbol (open_coin o);
                           open_oid := open_oid o |}).
  set (keep := fun o : OpenOrder =>
                 if truthy_string symbol
                 then bool_decide (symbol = Some (convertSymbol (open_coin o)))
                 else true).
  assert (Hkeep : forall o, keep o = selects o).
  { intros o. subst keep selects. cbn beta.
    destruct symbol as [sym|]; cbn [truthy_string]; [|reflexivity].
    destruct (String.eqb_spec sym "") as [->|Hne]; cbn [negb orb];
      [reflexivity|].
    destruct (String.eqb_spec (convertSymbol (open_coin o)) sym) as [E|E].
    - apply bool_decide_eq_true_2. rewrite E. reflexivity.
    - apply bool_decide_eq_false_2. intros [= H]. apply E. symmetry. exact H. }
  assert (Hsel : ordersToCancel convertSymbol symbol openOrders
                 = map conv selected).
  { subst selected. rewrite <- (List.filter_ext keep selects Hkeep).
    unfold ordersToCancel. fold conv. subst keep. cbn beta.
    destruct (truthy_string symbol).
    - induction openOrders as [|o rest IH]; [reflexivity|].
      cbn [map List.filter]. rewrite filter_cons.
      destruct (decide (symbol = Some (open_coin (conv o)))) as [E|E];
        cbn [open_coin conv] in E.
      + rewrite (bool_decide_eq_true_2 _ E). cbn [map]. f_equal. exact IH.
      + rewrite (bool_decide_eq_false_2 _ E). exact IH.
    - f_equal. induction openOrders as [|o rest IH]; [reflexivity|].
      cbn [List.filter]. f_equal. exact IH. }
  assert (Hthrow : cancelAllOrders resolver convertSymbol symbol openOrders
                   = Throws NoOrdersToCancel <-> selected = []).
  { unfold cancelAllOrders. rewrite Hsel.
    destruct selected as [|o1 rest]; cbn [map].
    - split; reflexivity.
    - split; [intros H; exfalso; exact (lift_not_no_orders _ H)|discriminate]. }
  split; [exact Hthrow|].
  split.
  { rewrite Hthrow. subst selected. split.
    - intros Hnil o Ho.
      destruct (selects o) eqn:Hs; [|reflexivity]. exfalso.
      assert (Hin : In o (List.filter selects openOrders))
        by (apply filter_In; split; [apply list_elem_of_In; exact Ho | exact Hs]).
      rewrite Hnil in Hin. exact Hin.
    - intros Hnone.
      destruct (List.filter selects openOrders) as [|o1 rest] eqn:Hf;
        [reflexivity|]. exfalso.
      assert (Hin : In o1 (List.filter selects openOrders))
        by (rewrite Hf; left; reflexivity).
      apply filter_In in Hin as [Hin Hk].
      rewrite (Hnone o1) in Hk; [discriminate Hk|].
      apply list_elem_of_In. exact Hin. }
  clear Hthrow. unfold cancelAllOrders. rewrite Hsel. clear Hsel Hkeep keep.
  clearbody selected. split.
  - intros cs Hcs.
    destruct (map conv selected) as [|c0 crest] eqn:Hm; [discriminate Hcs|].
    rewrite <- Hm in Hcs. clear Hm c0 crest.
    destruct (cancelOrder_cancels resolver
                (map (fun o => {| cancel_coin := open_coin o;
                                  cancel_o := open_oid o |}) (map conv selected)))
      as [cs'|] eqn:Hc; [|discriminate Hcs].
    injection Hcs as <-.
    apply cancelOrder_cancels_Ok in Hc.
    rewrite map_map in Hc.
    assert (HF : Forall2 (fun o c =>
                   resolver (convertSymbol (open_coin o)) = Some (fst c)
                   /\ snd c = open_oid o) selected cs').
    { revert cs' Hc.
      induction selected as [|o rest' IH]; intros cs' Hc; inversion Hc; subst;
        constructor.
      - assumption.
      - apply IH. assumption. }
    split; [exact HF|].
    clear Hc. induction HF as [|o c os cs0 [_ Hoid] _ IH]; [reflexivity|].
    cbn [map]. rewrite Hoid, IH. reflexivity.
  - intros Hne Hres.
    assert (Hok : is_ok (cancelOrder_cancels resolver
                (map (fun o => {| cancel_coin := open_coin o;
                                  cancel_o := open_oid o |}) (map conv selected)))
                  = true).
    { apply cancelOrder_cancels_resolved. intros req Hreq.
      rewrite map_map in Hreq. apply list_elem_of_fmap in Hreq as (o & -> & Ho).
      cbn [cancel_coin conv open_coin]. apply Hres. exact Ho. }
    destruct (cancelOrder_cancels resolver _) as [cs|];
      [|discriminate Hok].
    exists cs. destruct selected as [|o1 rest]; [contradiction|].
    reflexivity.
Qed.

End CancelAll.

Lemma cancelAllOrders_selection_witness :
  cancelAllOrders sample_resolver (fun sym => sym) (Some "ETH")
    [{| open_coin := "ETH"; open_oid := 1 |};
     {| open_coin := "BTC"; open_oid := 2 |};
     {| open_coin := "ETH"; open_oid := 3 |}]
  = Done [(5, 1); (5, 3)]
  /\ cancelAllOrders sample_resolver (fun sym => sym) (Some "SOL")
       [{| open_coin := "BTC"; open_oid := 1 |};
        {| open_coin := "ETH"; open_oid := 2 |}]
     = Throws NoOrdersToCancel.
Proof.
  split.
  - destruct (cancelAllOrders_selection sample_resolver (fun sym => sym)
                (Some "ETH")
                [{| open_coin := "ETH"; open_oid := 1 |};
                 {| open_coin := "BTC"; open_oid := 2 |};
                 {| open_coin := "ETH"; open_oid := 3 |}])
      as (_ & _ & _ & Hdone).
    destruct Hdone as [cs Hcs].
    + discriminate.
    + intros o Ho.
      apply elem_of_cons in Ho as [->|Ho]; [discriminate|].
      apply list_elem_of_singleton in Ho. subst o. discriminate.
    + rewrite Hcs. vm_compute in Hcs. injection Hcs as <-. reflexivity.
  - apply (proj1 (cancelAllOrders_selection sample_resolver (fun sym => sym)
                    (Some "SOL") _)).
    reflexivity.
Defined.

(** ** The action object across signing calls *)

Lemma obj_set_set (k : string) (x y : value) (o : object) :
  obj_set k y (obj_set k x o) = obj_set k y o.
Proof.
  induction o as [|[k0 v0] o IH]; cbn [obj_set].
  - rewrite String.eqb_refl. reflexivity.
  - destruct (String.eqb_spec k k0) as [->|Hne]; cbn [obj_set].
    + rewrite String.eqb_refl. reflexivity.
    + destruct (String.eqb_spec k k0); [contradiction|]. rewrite IH.
      reflexivity.
Qed.

Lemma obj_set_keys (k : string) (x : value) (o : object) :
  keys (obj_set k x o) = if bool_decide (k ∈ keys o) then keys o
                         else keys o ++ [k].
Proof.
  unfold keys. induction o as [|[k0 v0] o IH]; cbn [obj_set map fst].
  - rewrite bool_decide_eq_false_2 by (intros H; inversion H). reflexivity.
  - destruct (String.eqb_spec k k0) as [->|Hne]; cbn [map fst].
    + rewrite bool_decide_eq_true_2 by (left; reflexivity). reflexivity.
    + rewrite IH. destruct (bool_decide (k ∈ map fst o)) eqn:Hin.
      * apply bool_decide_eq_true in Hin.
        rewrite bool_decide_eq_true_2 by (right; exact Hin). reflexivity.
      * apply bool_decide_eq_false in Hin.
        rewrite bool_decide_eq_false_2; [reflexivity|].
        intros H. apply elem_of_cons in H as [H|H]; contradiction.
Qed.

Lemma obj_set_unchanged (k : string) (x : value) (o : object) :
  k ∈ keys o -> obj_get k o = x -> obj_set k x o = o.
Proof.
  unfold keys. induction o as [|[k0 v0] o IH]; cbn [obj_set obj_get map fst].
  - intros H. inversion H.
  - destruct (String.eqb_spec k k0) as [->|Hne].
    + intros _ ->. reflexivity.
    + intros Hin Hget. f_equal. apply IH; [|exact Hget].
      apply elem_of_cons in Hin as [Hin|Hin]; [contradiction | exact Hin].
Qed.

Section StoreProofs.

Context {Action : Type}.
Variable encode : Action -> bytes.
Variable keccak256 : bytes -> string.
Variable Signature_from : string -> result Signature.

(** X9 -- Signing one action object twice is the same as signing it once
    with the network flag of the second call: the second write of
    hyperliquidChain replaces the first, nothing else changes, and with the
    same flag the second call leaves the store as the first left it.  The
    key hyperliquidChain keeps its place among the keys of the action when
    the action had it already, and becomes its last key otherwise. *)
Theorem signing_twice (w1 w2 : wallet) (l : loc) (o : object)
    (types1 types2 : list TypeField) (primary1 primary2 : string)
    (mainnet1 mainnet2 : bool) (h : heap) :
  h !! l = Some o ->
  let h1 := snd (signUserSignedAction Signature_from w1 (VRef l) types1
                   primary1 mainnet1 h) in
  let h2 := snd (signUserSignedAction Signature_from w2 (VRef l) types2
                   primary2 mainnet2 h1) in
  let o2 := obj_set "hyperliquidChain" (chain_name mainnet2) o in
  h2 = <[l := o2]> h
  /\ h2 = snd (signUserSignedAction Signature_from w2 (VRef l) types2
                 primary2 mainnet2 h)
  /\ (mainnet1 = mainnet2 -> h2 = h1)
  /\ keys o2 = (if bool_decide ("hyperliquidChain" ∈ keys o) then keys o
                else keys o ++ ["hyperliquidChain"]).
Proof.
  intros Hl h1 h2 o2.
  assert (E1 : h1 = <[l := obj_set "hyperliquidChain" (chain_name mainnet1) o]> h).
  { subst h1. unfold signUserSignedAction, stamp_chain. rewrite Hl.
    reflexivity. }
  assert (E2 : h2 = <[l := o2]> h).
  { subst h2. unfold signUserSignedAction, stamp_chain.
    rewrite E1. unfold heap. rewrite lookup_insert_eq. cbn [snd].
    rewrite insert_insert_eq. subst o2. rewrite obj_set_set. reflexivity. }
  split; [exact E2|]. split; [|split].
  - rewrite E2. unfold signUserSignedAction, stamp_chain. rewrite Hl.
    reflexivity.
  - intros ->. rewrite E1, E2. reflexivity.
  - apply obj_set_keys.
Qed.

(** X10 -- usdTransfer and initiateWithdrawal build an action that already
    carries the chain stamp of the network, so signing leaves the action
    object exactly as built; the signer is called with the domain
    HyperliquidSignTransaction, version "1", the zero address, and chain id
    42161 on mainnet and 421614 on testnet, with the four-field schema
    under the primary type of the call, and with the action itself as
    message. *)
Theorem transfer_signing (call : heap -> sign_args -> result string)
    (l : loc) (type_tag destination : string) (amount now : number)
    (isMainnet : bool) (h : heap) :
  h !! l = Some (transfer_action type_tag isMainnet destination amount now) ->
  let dom := {| chainId := of_Z (if isMainnet then 42161 else 421614);
                name := "HyperliquidSignTransaction";
                verifyingContract :=
                  "0x0000000000000000000000000000000000000000";
                version := "1" |} in
  let schema :=
    [ {| field_name := "hyperliquidChain"; field_type := "string" |};
      {| field_name := "destination"; field_type := "string" |};
      {| field_name := "amount"; field_type := "string" |};
      {| field_name := "time"; field_type := "uint64" |} ] in
  let signed primary :=
    rbind (call h (DirectArgs dom [(primary, schema)] (MAction (VRef l))))
          (splitSig Signature_from) in
  signUsdTransferAction Signature_from
    (WalletObject (Some (Function 3 call))) (VRef l) isMainnet h
  = (signed "HyperliquidTransaction:UsdSend", h)
  /\ signWithdrawFromBridgeAction Signature_from
       (WalletObject (Some (Function 3 call))) (VRef l) isMainnet h
     = (signed "HyperliquidTransaction:Withdraw", h).
Proof.
  intros Hl dom schema signed.
  set (o := transfer_action type_tag isMainnet destination amount now) in *.
  assert (Hset : obj_set "hyperliquidChain" (chain_name isMainnet) o = o).
  { apply obj_set_unchanged; [|reflexivity].
    unfold keys. cbn. set_solver. }
  assert (Hdom : userSignedDomain o = dom).
  { unfold userSignedDomain, dom. subst o. cbn [obj_get transfer_action].
    unfold hexToNumber, signatureChainId_of. cbn [String.eqb Ascii.eqb].
    destruct isMainnet; vm_compute; reflexivity. }
  unfold signUsdTransferAction, signWithdrawFromBridgeAction,
    signUserSignedAction, stamp_chain.
  rewrite Hl, Hset, (insert_id h l o Hl), Hdom.
  split; reflexivity.
Qed.

End StoreProofs.

Lemma signing_twice_witness :
  snd (signAgent sample_Signature_from direct_wallet (VRef 1%positive) false
         (snd (signAgent sample_Signature_from client_wallet (VRef 1%positive)
                 true approval_heap)))
  = <[1%positive := approval_action ++ [("hyperliquidChain", VString "Testnet")]]>
      approval_heap.
Proof.
  destruct (signing_twice sample_Signature_from client_wallet direct_wallet
              1%positive approval_action approveAgentTypes approveAgentTypes
              "HyperliquidTransaction:ApproveAgent"
              "HyperliquidTransaction:ApproveAgent" true false approval_heap)
    as (H2 & _).
  - vm_compute. reflexivity.
  - exact H2.
Defined.

Lemma transfer_signing_witness :
  fst (signUsdTransferAction sample_Signature_from direct_wallet
         (VRef 1%positive) true
         {[ 1%positive := transfer_action "usdSend" true sample_vault num_1_5
                            sample_nonce ]})
  = Ok {| r := "0xsigned"; s := ""; v := 27 |}.
Proof.
  destruct (transfer_signing sample_Signature_from (fun _ _ => Ok "0xsigned")
              1%positive "usdSend" sample_vault num_1_5 sample_nonce true
              {[ 1%positive := transfer_action "usdSend" true sample_vault
                                 num_1_5 sample_nonce ]})
    as (Husd & _).
  - vm_compute. reflexivity.
  - unfold direct_wallet. rewrite Husd. reflexivity.
Defined.

Section ExternalSigning.

Context {Action : Type}.
Variable encode : Action -> bytes.
Variable keccak256 : bytes -> string.
Variable Signature_from : string -> result Signature.

(** X11 -- Signing outside gives what signing inside gives: handing the
    typed data of createAgentTypedData, or of createL1ActionTypedData, to a
    signer and the signature string to submitSignedAction's splitting
    yields the signature, and leaves the store, that signAgent, or
    signL1Action, yields with the same signer.  This holds for a direct
    signer, called with (domain, types, message), and for a client-style
    signer, called with the one object that also carries primaryType. *)
Theorem external_signing_agrees (call : heap -> sign_args -> result string)
    (agent : value) (action : Action) (vaultAddress : option string)
    (nonce : number) (isMainnet : bool) (h : heap) :
  let direct td h' :=
    rbind (call h' (DirectArgs (domain td) (types td) (message td)))
          (fun sig => formatSignature Signature_from (inr sig)) in
  let client td h' :=
    rbind (call h' (ClientParams (domain td) (types td) (primaryType td)
                      (message td)))
          (fun sig => formatSignature Signature_from (inr sig)) in
  let built := createAgentTypedData agent isMainnet h in
  let l1 := createL1ActionTypedData encode keccak256 action vaultAddress nonce
              isMainnet in
  signAgent Signature_from (WalletObject (Some (Function 3 call))) agent
    isMainnet h
  = (rbind (fst built) (fun data => direct (agent_typed data) (snd built)),
     snd built)
  /\ signAgent Signature_from (WalletObject (Some (Function 1 call))) agent
       isMainnet h
     = (rbind (fst built) (fun data => client (agent_typed data) (snd built)),
        snd built)
  /\ signL1Action encode keccak256 Signature_from
       (WalletObject (Some (Function 3 call))) action vaultAddress nonce
       isMainnet h
     = rbind l1 (fun data => direct (l1_typed data) h)
  /\ signL1Action encode keccak256 Signature_from
       (WalletObject (Some (Function 1 call))) action vaultAddress nonce
       isMainnet h
     = rbind l1 (fun data => client (l1_typed data) h)
  /\ (forall data, fst built = Ok data -> agent_action data = agent)
  /\ (forall data, l1 = Ok data ->
        l1_action data = action /\ l1_nonce data = nonce
        /\ l1_vaultAddress data = vaultAddress
        /\ actionHash encode keccak256 action vaultAddress nonce
           = Ok (l1_hash data)).
Proof.
  intros direct client built l1.
  subst built l1.
  unfold signAgent, signUserSignedAction, createAgentTypedData,
    signL1Action, createL1ActionTypedData.
  split; [|split; [|split; [|split; [|split]]]].
  - destruct (stamp_chain agent isMainnet h) as [[o h']|e]; reflexivity.
  - destruct (stamp_chain agent isMainnet h) as [[o h']|e]; reflexivity.
  - destruct (actionHash encode keccak256 action vaultAddress nonce);
      reflexivity.
  - destruct (actionHash encode keccak256 action vaultAddress nonce);
      reflexivity.
  - destruct (stamp_chain agent isMainnet h) as [[o h']|e]; cbn [fst].
    + intros data [= <-]. reflexivity.
    + discriminate.
  - destruct (actionHash encode keccak256 action vaultAddress nonce) as [hash|];
      cbn [rbind]; [|discriminate].
    intros data [= <-]. repeat split.
Qed.

(** X12 -- An action without signatureChainId (or with null there) is not
    refused: the user-signed paths build and sign typed data whose domain
    has NaN as chain id. *)
Theorem missing_signatureChainId (call : heap -> sign_args -> result string)
    (l : loc) (o : object) (payloadTypes : list TypeField)
    (primaryType : string) (isMainnet : bool) (h : heap) :
  h !! l = Some o ->
  obj_get "signatureChainId" o = VUndefined
  \/ obj_get "signatureChainId" o = VNull ->
  let o' := obj_set "hyperliquidChain" (chain_name isMainnet) o in
  let dom := {| chainId := NaN; name := "HyperliquidSignTransaction";
                verifyingContract :=
                  "0x0000000000000000000000000000000000000000";
                version := "1" |} in
  (exists data,
     createAgentTypedData (VRef l) isMainnet h = (Ok data, <[l := o']> h)
     /\ domain (agent_typed data) = dom)
  /\ signUserSignedAction Signature_from
       (WalletObject (Some (Function 3 call))) (VRef l) payloadTypes
       primaryType isMainnet h
     = (rbind (call (<[l := o']> h)
                 (DirectArgs dom [(primaryType, payloadTypes)]
                    (MAction (VRef l))))
              (splitSig Signature_from),
        <[l := o']> h).
Proof.
  intros Hl Hmiss o' dom.
  assert (Hdom : userSignedDomain o' = dom).
  { unfold userSignedDomain, dom, hexToNumber. subst o'.
    rewrite obj_get_set_other by discriminate.
    destruct Hmiss as [-> | ->]; reflexivity. }
  unfold createAgentTypedData, signUserSignedAction, stamp_chain.
  rewrite Hl. fold o'. rewrite Hdom.
  split; [|reflexivity].
  eexists. split; reflexivity.
Qed.

End ExternalSigning.

Lemma missing_signatureChainId_witness :
  exists data,
    createAgentTypedData (VRef 1%positive) true
      {[ 1%positive := [("agentName", VString "bot")] ]}
    = (Ok data,
       <[1%positive := [("agentName", VString "bot");
                        ("hyperliquidChain", VString "Mainnet")]]>
         {[ 1%positive := [("agentName", VString "bot")] ]})
    /\ chainId (domain (agent_typed data)) = NaN.
Proof.
  destruct (missing_signatureChainId sample_Signature_from
              (fun _ _ => Ok "0xsigned") 1%positive
              [("agentName", VString "bot")] [] "" true
              {[ 1%positive := [("agentName", VString "bot")] ]})
    as ((data & Hdata & Hdom) & _).
  - vm_compute. reflexivity.
  - left. reflexivity.
  - exists data. split; [exact Hdata | rewrite Hdom; reflexivity].
Defined.

(** ** The integer a scaled encoder returns *)

(** X13 -- When floatToInt (so floatToIntForHashing and floatToUsdInt)
    succeeds on a finite scaled value x * 10^power whose rounding is below
    2^53 in magnitude, the Number it returns is an integer exactly: its
    value is the integer nearest to the scaled value, the upper one on a
    tie, with no further rounding. *)
Theorem floatToInt_exact_integer (x : number) (power : Z) (r : number)
    (sg : bool) (m : positive) (e : Z) :
  mul x (Math_pow10 power) = S754_finite sg m e ->
  Z.abs (round_half_up sg m e) < 2 ^ 53 ->
  floatToInt x power = Ok r ->
  let k := round_half_up sg m e in
  let num := if sg then - mag_num m e else mag_num m e in
  NumberToBigInt r = Ok k
  /\ 2 * k * mag_den e - mag_den e <= 2 * num < 2 * k * mag_den e + mag_den e.
Proof.
  intros Hscaled Hbound Hr k num.
  split; [|apply round_half_up_nearest].
  unfold floatToInt in Hr. rewrite Hscaled in Hr.
  destruct (geb _ _); [discriminate|]. injection Hr as <-.
  cbn [Math_round].
  destruct (is_integral m e) eqn:Hi.
  - cbn [NumberToBigInt]. rewrite Hi. subst k.
    rewrite (round_half_up_integral sg m e Hi). reflexivity.
  - fold k. destruct k as [|p|p] eqn:Hk.
    + reflexivity.
    + change (NumberToBigInt (of_Z (Z.pos p)) = Ok (Z.pos p)).
      apply of_Z_exact. subst k. rewrite Hk in Hbound. exact Hbound.
    + change (NumberToBigInt (of_Z (Z.neg p)) = Ok (Z.neg p)).
      apply of_Z_exact. subst k. rewrite Hk in Hbound. exact Hbound.
Qed.

Lemma floatToInt_exact_integer_witness :
  exists r : number,
    floatToIntForHashing (of_decimal false 7 (-2)) = Ok r
    /\ NumberToBigInt r = Ok 7000000.
Proof.
  destruct (floatToIntForHashing (of_decimal false 7 (-2))) as [r|] eqn:Hr;
    [|vm_compute in Hr; discriminate Hr].
  exists r. split; [reflexivity|].
  destruct (floatToInt_exact_integer (of_decimal false 7 (-2)) 8 r false
              7516192768000001 (-30)) as (Hk & _).
  - vm_compute. reflexivity.
  - vm_compute. reflexivity.
  - exact Hr.
  - exact Hk.
Defined.

(** ** A timestamp as nonce *)

Section TimestampNonce.

Context {Action : Type}.
Variable encode : Action -> bytes.
Variable keccak256 : bytes -> string.

(** X14 -- A nonce that is a non-negative integer below 2^53, as Date.now()
    gives it, goes into the hashed buffer without loss: the Number for it
    converts to the same integer, the 8 bytes after the serialized action
    decode (big-endian) to exactly that integer, and two such nonces give
    the same buffer only if they are equal. *)
Theorem timestamp_nonce_round_trip (action : Action)
    (vaultAddress : option string) (addr : bytes) (t t' : Z) :
  0 <= t < 2 ^ 53 ->
  0 <= t' < 2 ^ 53 ->
  vault_ok vaultAddress addr ->
  (exists data,
     actionHashData encode action vaultAddress (of_Z t) = Ok data
     /\ actionHash encode keccak256 action vaultAddress (of_Z t)
        = Ok (keccak256 data)
     /\ be_value (nonce_bytes data (length (encode action))) = t)
  /\ (actionHashData encode action vaultAddress (of_Z t)
      = actionHashData encode action vaultAddress (of_Z t') -> t = t').
Proof.
  intros Ht Ht' Hv.
  assert (Hn : NumberToBigInt (of_Z t) = Ok t) by (apply of_Z_exact; lia).
  assert (Hn' : NumberToBigInt (of_Z t') = Ok t') by (apply of_Z_exact; lia).
  pose proof (actionHashData_layout encode action vaultAddress (of_Z t) t addr
                Hn Hv) as Hdata.
  pose proof (actionHashData_layout encode action vaultAddress (of_Z t') t'
                addr Hn' Hv) as Hdata'.
  assert (Hsmall : forall z, 0 <= z < 2 ^ 53 -> z mod 2 ^ 64 = z)
    by (intros z Hz; apply Z.mod_small; lia).
  split.
  - eexists. split; [exact Hdata|].
    split; [unfold actionHash; rewrite Hdata; reflexivity|].
    unfold nonce_bytes. rewrite drop_app_length.
    pose proof (be_bytes_length 8 (t mod 2 ^ 64)) as Hl.
    rewrite <- Hl at 1. rewrite take_app_length, be_value_be_bytes.
    change (8 * Z.of_nat 8) with 64.
    rewrite Z.mod_mod by lia. apply Hsmall. exact Ht.
  - rewrite Hdata, Hdata'. intros H.
    apply (f_equal (fun res => match res with Ok d => d | Err _ => [] end))
      in H.
    cbv beta iota in H. apply app_inv_head in H.
    apply app_inj_1 in H; [|rewrite !be_bytes_length; reflexivity].
    destruct H as [Hbe _]. apply be_bytes_inj in Hbe.
    rewrite !Hsmall in Hbe by assumption. exact Hbe.
Qed.

End TimestampNonce.

Lemma timestamp_nonce_round_trip_witness :
  exists data,
    actionHashData sample_encode [1; 2; 3] (Some sample_vault)
      (of_Z 1700000000000) = Ok data
    /\ be_value (nonce_bytes data 3) = 1700000000000.
Proof.
  destruct (timestamp_nonce_round_trip sample_encode sample_keccak256
              [1; 2; 3] (Some sample_vault)
              [0; 0; 0; 0; 0; 0; 0; 0; 0; 0; 0; 0; 0; 0; 0; 0; 0; 0; 0; 255]
              1700000000000 1700000000001)
    as ((data & Hdata & _ & Hval) & _).
  - lia.
  - lia.
  - split; [vm_compute; reflexivity | intros _; reflexivity].
  - exists data. split; [exact Hdata | exact Hval].
Defined.

Lemma external_signing_agrees_witness :
  fst (signAgent sample_Signature_from direct_wallet (VRef 1%positive) true
         approval_heap)
  = Ok {| r := "0xsigned"; s := ""; v := 27 |}
  /\ forall data,
       fst (createAgentTypedData (VRef 1%positive) true approval_heap)
       = Ok data ->
       agent_action data = VRef 1%positive.
Proof.
  destruct (external_signing_agrees sample_encode sample_keccak256
              sample_Signature_from (fun _ _ => Ok "0xsigned")
              (VRef 1%positive) [1; 2; 3] None sample_nonce true
              approval_heap)
    as (Hdirect & _ & _ & _ & Hagent & _).
  split; [|exact Hagent].
  unfold direct_wallet. rewrite Hdirect. vm_compute. reflexivity.
Defined.

(** ** Schemas and the actions they are signed with *)

Ltac covers_field :=
  split;
  [ unfold keys; cbn; set_solver
  | cbn; unfold chain_name, signatureChainId_of; discriminate ].

Ltac covers_schema :=
  repeat (apply Forall_cons; split; [covers_field|]); constructor.

Section SchemaProofs.

Variable Signature_from : string -> result Signature.

Lemma signUserSignedAction_object (w : wallet) (l : loc) (o : object)
    (payloadTypes : list TypeField) (primaryType : string) (isMainnet : bool)
    (h : heap) :
  h !! l = Some o ->
  snd (signUserSignedAction Signature_from w (VRef l) payloadTypes primaryType
         isMainnet h) !! l
  = Some (obj_set "hyperliquidChain" (chain_name isMainnet) o).
Proof.
  intros Hl. unfold signUserSignedAction, stamp_chain. rewrite Hl.
  cbn [snd]. unfold heap. apply lookup_insert_eq.
Qed.

Lemma createAgentTypedData_object (l : loc) (o : object) (isMainnet : bool)
    (h : heap) :
  h !! l = Some o ->
  snd (createAgentTypedData (VRef l) isMainnet h) !! l
  = Some (obj_set "hyperliquidChain" (chain_name isMainnet) o).
Proof.
  intros Hl. unfold createAgentTypedData, stamp_chain. rewrite Hl.
  cbn [snd]. unfold heap. apply lookup_insert_eq.
Qed.

(** X15 -- The user-signed actions that exchange.ts builds are complete for
    the schemas they are signed under: the action object of
    usdTransfer and initiateWithdrawal, of spotTransfer and of
    transferBetweenSpotAndPerp once signed, and of
    createAgentApprovalTypedData once through createAgentTypedData, has a
    value for every field its schema names.  For the agent approval this
    is so only through the write of hyperliquidChain: the action as built
    has no such key, and gets it as its last key. *)
Theorem signed_actions_cover_schemas (w : wallet) (l : loc) (o : object)
    (type_tag destination token amountText agentAddress agentName : string)
    (amount now : number) (toPerp built signed : bool) (h : heap) :
  h !! l = Some o ->
  let after schema primary :=
    snd (signUserSignedAction Signature_from w (VRef l) schema primary signed h)
      !! l in
  (o = transfer_action type_tag built destination amount now ->
   exists o', after usdSendTypes "HyperliquidTransaction:UsdSend" = Some o'
              /\ covers usdSendTypes o')
  /\ (o = spot_transfer_action type_tag built destination token amountText now ->
      exists o', after spotSendTypes "HyperliquidTransaction:SpotSend" = Some o'
                 /\ covers spotSendTypes o')
  /\ (o = class_transfer_action type_tag built amount toPerp now ->
      exists o',
        after usdClassTransferTypes "HyperliquidTransaction:UsdClassTransfer"
        = Some o'
        /\ covers usdClassTransferTypes o')
  /\ (o = agent_approval_action type_tag built agentAddress agentName now ->
      ~ covers approveAgentTypes o
      /\ exists o',
           snd (createAgentTypedData (VRef l) signed h) !! l = Some o'
           /\ covers approveAgentTypes o'
           /\ keys o' = keys o ++ ["hyperliquidChain"]).
Proof.
  intros Hl after.
  split; [|split; [|split]]; intros ->; subst after; cbn beta.
  - eexists. split; [apply signUserSignedAction_object; exact Hl|].
    unfold covers, usdSendTypes. covers_schema.
  - eexists. split; [apply signUserSignedAction_object; exact Hl|].
    unfold covers, spotSendTypes. covers_schema.
  - eexists. split; [apply signUserSignedAction_object; exact Hl|].
    unfold covers, usdClassTransferTypes. covers_schema.
  - split.
    + unfold covers, approveAgentTypes. intros Hc.
      apply Forall_cons in Hc as [[Hin _] _].
      unfold keys in Hin. cbn in Hin.
      repeat (apply elem_of_cons in Hin as [Hin|Hin]; [discriminate Hin|]).
      inversion Hin.
    + eexists. split; [apply createAgentTypedData_object; exact Hl|].
      split; [|reflexivity].
      unfold covers, approveAgentTypes. covers_schema.
Qed.

End SchemaProofs.

Lemma signed_actions_cover_schemas_witness :
  exists o',
    snd (createAgentTypedData (VRef 1%positive) true
           {[ 1%positive := agent_approval_action "approveAgent" true
                              sample_vault "bot" sample_nonce ]})
      !! 1%positive = Some o'
    /\ covers approveAgentTypes o'.
Proof.
  destruct (signed_actions_cover_schemas sample_Signature_from client_wallet
              1%positive
              (agent_approval_action "approveAgent" true sample_vault "bot"
                 sample_nonce)
              "approveAgent" "" "" "" sample_vault "bot" num_1 sample_nonce
              true true true
              {[ 1%positive := agent_approval_action "approveAgent" true
                                 sample_vault "bot" sample_nonce ]})
    as (_ & _ & _ & Hagent).
  - vm_compute. reflexivity.
  - destruct (Hagent eq_refl) as (_ & o' & Ho' & Hc & _).
    exists o'. split; [exact Ho' | exact Hc].
Defined.
